(** * AssetHound: the URL liveness-validation engine

    A shallow embedding of [src/cache.ts] (the TTL cache) and of
    [src/linkValidator.ts] (HTTP probe, CDN check, per-URL validator and
    batch coordinator), with the parts of its axios copy that differ,
    followed by the properties proved about them.

    Conventions of the embedding:
    - JavaScript numbers that hold status codes, byte counts and
      [Date.now()] readings are integers, modelled as [Z];
    - strings are [string] (sequences of 8-bit characters);
      [toLowerCase] maps the letters A-Z to a-z and leaves every other
      character unchanged;
    - a [Map<string, V>] is a [gmap string V];
    - optional fields ([statusCode?: number]) are [option]s;
    - the network and the clock are an explicit environment; code that
      awaits the network threads a [World] state. *)

From Stdlib Require Import ZArith Ascii String DecimalString.
From stdpp Require Import gmap strings list.

(** ** JavaScript string primitives used by the sources *)

Module Js.

(** [String.prototype.toLowerCase] on one character: the letters A-Z;
    letters outside ASCII, which JavaScript lower-cases as well, are
    left as they are. *)
Definition lowerChar (c : ascii) : ascii :=
  let n := N_of_ascii c in
  if ((65 <=? n)%N && (n <=? 90)%N)%bool then ascii_of_N (n + 32) else c.

Fixpoint toLowerCase (s : string) : string :=
  match s with
  | EmptyString => EmptyString
  | String c s' => String (lowerChar c) (toLowerCase s')
  end.

(** [s.startsWith(p)], the step of the substring search. *)
Fixpoint startsWith (s p : string) : bool :=
  match p, s with
  | EmptyString, _ => true
  | String _ _, EmptyString => false
  | String a p', String b s' => if decide (a = b) then startsWith s' p' else false
  end.

(** [s.includes(needle)]: [needle] occurs in [s] at some position. *)
Fixpoint includes (s needle : string) : bool :=
  startsWith s needle ||
  match s with
  | EmptyString => false
  | String _ s' => includes s' needle
  end.

(** [x || d] for a possibly missing string: the empty string is falsy. *)
Definition orString (x : option string) (d : string) : string :=
  match x with
  | Some (String c s) => String c s
  | _ => d
  end.

End Js.

(** ** [src/cache.ts]: in-memory cache with TTL *)

Module UrlCache.

Record CacheEntry := {
  isValid : bool;
  statusCode : option Z;
  statusText : option string;
  error : option string;
  timestamp : Z
}.

(** The result handed to [set]: [Omit<CacheEntry, 'timestamp'>]. *)
Record Result := {
  r_isValid : bool;
  r_statusCode : option Z;
  r_statusText : option string;
  r_error : option string
}.

(** The object: its private [Map] and the readonly [ttlMs]. *)
Record t := {
  cache : gmap string CacheEntry;
  ttlMs : Z
}.

(** [constructor(ttlMinutes = 5)]. *)
Definition make (ttlMinutes : Z) : t :=
  {| cache := ∅; ttlMs := (ttlMinutes * 60 * 1000)%Z |}.

Definition default : t := make 5.

(** [get(url)]; [now] is the reading of [Date.now()]. *)
Definition get (now : Z) (c : t) (url : string) : option CacheEntry * t :=
  match cache c !! url with
  | None => (None, c)
  | Some entry =>
      if (now - timestamp entry >? ttlMs c)%Z
      then (None, {| cache := delete url (cache c); ttlMs := ttlMs c |})
      else (Some entry, c)
  end.

(** [set(url, result)]. *)
Definition set (now : Z) (c : t) (url : string) (result : Result) : t :=
  {| cache :=
       <[url := {| isValid := r_isValid result;
                   statusCode := r_statusCode result;
                   statusText := r_statusText result;
                   error := r_error result;
                   timestamp := now |}]> (cache c);
     ttlMs := ttlMs c |}.

(** [has(url)]: goes through [get], so it evicts like [get]. *)
Definition has (now : Z) (c : t) (url : string) : bool * t :=
  let '(r, c') := get now c url in (bool_decide (r ≠ None), c').

(** [clear()]. *)
Definition clear (c : t) : t := {| cache := ∅; ttlMs := ttlMs c |}.

(** [cleanup()]: one reading of the clock, then every entry older than
    the TTL is deleted. *)
Definition cleanup (now : Z) (c : t) : t :=
  {| cache := filter (λ kv, ¬ (now - timestamp kv.2 > ttlMs c)%Z) (cache c);
     ttlMs := ttlMs c |}.

(** [get size()]. *)
Definition size (c : t) : nat := base.size (cache c).

End UrlCache.

(** ** The environment of the validator: network, clock, abort signals *)

Module Http.

Inductive Method := HEAD | GET.

(** [http.IncomingMessage] as the response callback and the ['data'] /
    ['end'] listeners see it. *)
Record IncomingMessage := {
  res_statusCode : option Z;
  res_statusMessage : option string;
  res_headers : gmap string string;
  res_chunks : list string
}.

(** [interface HttpResponse]. *)
Record HttpResponse := {
  statusCode : Z;
  statusText : string;
  headers : gmap string string;
  body : string
}.

(** A value caught by [catch (error)]: an [Error] object with its
    message, or anything else. *)
Inductive Thrown :=
| JsError (message : string)
| NotAnError.

#[global] Instance Thrown_eq_dec : EqDecision Thrown.
Proof. solve_decision. Defined.

(** What was passed to [lib.request]. *)
Record Request := {
  req_url : string;
  req_method : Method;
  req_headers : gmap string string;
  req_timeout : Z
}.

(** The first event that settles a request. *)
Inductive NetEvent :=
| OnResponse (res : IncomingMessage)
| OnTimeout
| OnError (err : Thrown)
| OnAbort.

(** Observable effects, oldest first. *)
Inductive Event :=
| Requested (r : Request)
| CacheGet (url : string)
| CacheSet (url : string).

(** Everything the code does not decide itself. [respond] answers a
    request given the history so far, with the event that settles it
    and the reading of the clock when that event is delivered;
    [url_origin] is [new URL(url).origin], [None] when the constructor
    throws; [url_resolve location base] is [new URL(location, base).href],
    [None] when that constructor throws. *)
Record Env := {
  url_origin : string → option string;
  url_resolve : string → string → option string;
  respond : list Event → Request → NetEvent * Z
}.

(** The state threaded through the asynchronous code: the shared cache,
    the clock, the heap of [AbortController]s (the [aborted] flag of each
    one's signal; a signal is the index of its controller), the
    validator's [abortController] field and the log of effects. *)
Record World := {
  cache : UrlCache.t;
  now : Z;
  controllers : list bool;
  abortController : option nat;
  log : list Event
}.

Definition withCache (c : UrlCache.t) (w : World) : World :=
  {| cache := c; now := now w; controllers := controllers w;
     abortController := abortController w; log := log w |}.

Definition withNow (t : Z) (w : World) : World :=
  {| cache := cache w; now := t; controllers := controllers w;
     abortController := abortController w; log := log w |}.

Definition record (e : Event) (w : World) : World :=
  {| cache := cache w; now := now w; controllers := controllers w;
     abortController := abortController w; log := log w ++ [e] |}.

(** [signal.aborted]. *)
Definition aborted (signal : nat) (w : World) : bool :=
  match controllers w !! signal with
  | Some b => b
  | None => false
  end.

(** [new AbortController()]: allocates a fresh, not aborted controller. *)
Definition newAbortController (w : World) : nat * World :=
  (length (controllers w),
   {| cache := cache w; now := now w; controllers := controllers w ++ [false];
      abortController := abortController w; log := log w |}).

Definition setAbortController (c : option nat) (w : World) : World :=
  {| cache := cache w; now := now w; controllers := controllers w;
     abortController := c; log := log w |}.

(** [controller.abort()]. *)
Definition abort (c : nat) (w : World) : World :=
  {| cache := cache w; now := now w; controllers := <[c := true]> (controllers w);
     abortController := abortController w; log := log w |}.

End Http.

(** ** [src/linkValidator.ts] *)

Module LinkValidator.
Import Http.

(** [interface ValidationResult]. *)
Record ValidationResult := {
  url : string;
  isValid : bool;
  statusCode : option Z;
  statusText : option string;
  error : option string
}.

(** The readonly fields set by the constructor. *)
Record Config := {
  timeoutMs : Z;
  maxConcurrent : Z
}.

(** [new LinkValidator(cache)] with its defaults. *)
Definition defaultConfig : Config := {| timeoutMs := 5000; maxConcurrent := 5 |}.

Definition BROKEN_STATUS_CODES : list Z := [404; 410]%Z.

(** [Array.prototype.includes] on numbers. *)
Definition includesZ (l : list Z) (x : Z) : bool := existsb (Z.eqb x) l.

(** [getOrigin(url)]: the origin, or [''] when [new URL] throws. *)
Definition getOrigin (env : Env) (u : string) : string :=
  match url_origin env u with
  | Some o => o
  | None => ""
  end.

(** [isCdnErrorResponse(response)]. *)
Definition isCdnErrorResponse (response : HttpResponse) : bool :=
  let contentType := Js.orString (Http.headers response !! "content-type") "" in
  let data := Http.body response in
  if Js.includes contentType "xml" || Js.includes contentType "text/html" then
    let lowerData := Js.toLowerCase data in
    if Js.includes lowerData "accessdenied" ||
       Js.includes lowerData "nosuchkey" ||
       Js.includes lowerData "not found" ||
       Js.includes lowerData "does not exist" ||
       Js.includes lowerData "<error>" ||
       Js.includes lowerData "the specified key does not exist"
    then true
    else false
  else false.

(** The ['data'] listener: [bytesReceived] always grows, the chunk is
    appended only while the running total is within [maxBytes]. *)
Definition maxBytes : Z := 10240.

Definition onData (st : Z * string) (chunk : string) : Z * string :=
  let bytesReceived := (st.1 + Z.of_nat (String.length chunk))%Z in
  if (bytesReceived <=? maxBytes)%Z
  then (bytesReceived, st.2 +:+ chunk)
  else (bytesReceived, st.2).

Definition readBody (chunks : list string) : string :=
  (fold_left onData chunks (0%Z, "")).2.

(** [res.statusCode || 0] and [res.statusMessage || '']. *)
Definition orZero (x : option Z) : Z :=
  match x with
  | Some n => n
  | None => 0%Z
  end.

(** The test guarding the redirect branch: a truthy status code in
    [[300, 400)] and a truthy [location] header. *)
Definition redirectLocation (res : IncomingMessage) : option string :=
  match res_statusCode res with
  | Some sc =>
      if negb (sc =? 0)%Z && (300 <=? sc)%Z && (sc <? 400)%Z then
        match res_headers res !! "location" with
        | Some (String c l) => Some (String c l)
        | _ => None
        end
      else None
  | None => None
  end.

(** What the promise resolves to once the response is not followed. *)
Definition deliver (method : Method) (res : IncomingMessage) : HttpResponse :=
  match method with
  | HEAD =>
      {| Http.statusCode := orZero (res_statusCode res);
         Http.statusText := Js.orString (res_statusMessage res) "";
         Http.headers := res_headers res;
         Http.body := "" |}
  | GET =>
      {| Http.statusCode := orZero (res_statusCode res);
         Http.statusText := Js.orString (res_statusMessage res) "";
         Http.headers := res_headers res;
         Http.body := readBody (res_chunks res) |}
  end.

(** [cancel()]. *)
Definition cancel (w : World) : World :=
  match abortController w with
  | Some c => setAbortController None (abort c w)
  | None => w
  end.

Inductive Settled :=
| Resolved (response : HttpResponse)
| Rejected (error : Thrown).

(** [makeRequest(url, method, headers, timeoutMs, signal)].

    Every call builds its own [options] object, which has no
    [_redirectCount]; the response callback reads the count from that
    object, and the recursive call receives neither the object nor the
    count. The recursion is bounded by [fuel] only.

    [new URL(res.headers.location, url)] is evaluated inside the
    response callback, outside the executor of the promise and outside
    any [try]: when it throws, the exception leaves the callback and
    neither [resolve] nor [reject] is called. [None] means that the
    promise has not settled: [fuel] requests were not enough, or the
    response callback threw, and then no amount of fuel settles it.

    [OnAbort] is the host calling [cancel()] while the request is in
    flight. *)
Fixpoint makeRequest (fuel : nat) (env : Env) (u : string) (method : Method)
    (hdrs : gmap string string) (timeout : Z) (signal : nat) (w : World)
    : option (Settled * World) :=
  match fuel with
  | O => None
  | S fuel' =>
      if aborted signal w then Some (Rejected (JsError "Request cancelled"), w)
      else
        match url_origin env u with
        | None => Some (Rejected (JsError "Invalid URL"), w)
        | Some _ =>
            let options_redirectCount : option Z := None in
            let request := {| req_url := u; req_method := method;
                              req_headers := hdrs; req_timeout := timeout |} in
            let '(event, t) := respond env (log w) request in
            let w1 := withNow t (record (Requested request) w) in
            match event with
            | OnResponse res =>
                match redirectLocation res with
                | Some location =>
                    let redirectCount := orZero options_redirectCount in
                    if (redirectCount <? 5)%Z then
                      match url_resolve env location u with
                      | Some newUrl =>
                          makeRequest fuel' env newUrl method hdrs timeout signal w1
                      | None => None
                      end
                    else Some (Resolved (deliver method res), w1)
                | None => Some (Resolved (deliver method res), w1)
                end
            | OnTimeout => Some (Rejected (JsError "Request timeout"), w1)
            | OnError err => Some (Rejected err, w1)
            | OnAbort => Some (Rejected (JsError "Request cancelled"), cancel w1)
            end
        end
  end.

(** [cacheAndReturn(url, isValid, statusCode, statusText)]. *)
Definition cacheAndReturn (u : string) (valid : bool) (sc : Z) (st : string)
    (w : World) : ValidationResult * World :=
  let w1 :=
    record (CacheSet u)
      (withCache
         (UrlCache.set (now w) (cache w) u
            {| UrlCache.r_isValid := valid;
               UrlCache.r_statusCode := Some sc;
               UrlCache.r_statusText := Some st;
               UrlCache.r_error := None |}) w) in
  ({| url := u; isValid := valid; statusCode := Some sc;
      statusText := Some st; error := None |}, w1).

(** The message chosen by [handleError] for an [Error] that is not a
    cancellation. *)
Definition errorMessageOf (message : string) : string :=
  if decide (message = "Request timeout") then "Request timeout"
  else if Js.includes message "ENOTFOUND" then "Domain not found"
  else if Js.includes message "ECONNREFUSED" then "Connection refused"
  else Js.orString (Some message) "Network error".

Definition cacheError (u : string) (errorMessage : string) (w : World)
    : ValidationResult * World :=
  let w1 :=
    record (CacheSet u)
      (withCache
         (UrlCache.set (now w) (cache w) u
            {| UrlCache.r_isValid := false;
               UrlCache.r_statusCode := None;
               UrlCache.r_statusText := None;
               UrlCache.r_error := Some errorMessage |}) w) in
  ({| url := u; isValid := false; statusCode := None;
      statusText := None; error := Some errorMessage |}, w1).

(** [handleError(url, error)]. *)
Definition handleError (u : string) (err : Thrown) (w : World)
    : ValidationResult * World :=
  match err with
  | JsError message =>
      if decide (message = "Request cancelled") then
        ({| url := u; isValid := true; statusCode := None;
            statusText := None; error := Some "Request cancelled" |}, w)
      else cacheError u (errorMessageOf message) w
  | NotAnError => cacheError u "Unknown error" w
  end.

Definition inRange (sc : Z) : bool := ((200 <=? sc) && (sc <? 400))%Z.

(** The tail of [validateUrl]: "for other status codes, use general
    rules", applied to the latest [response]. *)
Definition generalRule (u : string) (response : HttpResponse) (w : World)
    : ValidationResult * World :=
  let valid := inRange (Http.statusCode response) in
  cacheAndReturn u valid (Http.statusCode response) (Http.statusText response) w.

Definition browserHeaders (env : Env) (u : string) : gmap string string :=
  <["User-Agent" := "Mozilla/5.0 (Macintosh; Intel Mac OS X 10_15_7) AppleWebKit/537.36 (KHTML, like Gecko) Chrome/120.0.0.0 Safari/537.36"]>
  (<["Accept" := "image/avif,image/webp,image/apng,image/svg+xml,image/*,*/*;q=0.8"]>
  (<["Accept-Language" := "en-US,en;q=0.9"]>
  (<["Referer" := getOrigin env u]> ∅))).

Definition rangeHeaders (env : Env) (u : string) : gmap string string :=
  <["Range" := "bytes=0-1023"]> (browserHeaders env u).

(** [validateUrl(url, signal)]. *)
Definition validateUrl (fuel : nat) (env : Env) (cfg : Config) (u : string)
    (signal : nat) (w : World) : option (ValidationResult * World) :=
  let '(cached, c) := UrlCache.get (now w) (cache w) u in
  let w0 := record (CacheGet u) (withCache c w) in
  match cached with
  | Some e =>
      Some ({| url := u;
               isValid := UrlCache.isValid e;
               statusCode := UrlCache.statusCode e;
               statusText := UrlCache.statusText e;
               error := UrlCache.error e |}, w0)
  | None =>
      match makeRequest fuel env u HEAD (browserHeaders env u) (timeoutMs cfg) signal w0 with
      | None => None
      | Some (Rejected err, w1) => Some (handleError u err w1)
      | Some (Resolved response, w1) =>
          let sc := Http.statusCode response in
          if inRange sc then
            Some (cacheAndReturn u true sc (Http.statusText response) w1)
          else if includesZ BROKEN_STATUS_CODES sc then
            Some (cacheAndReturn u false sc (Http.statusText response) w1)
          else if ((sc =? 403) || (sc =? 405))%Z then
            match makeRequest fuel env u GET (rangeHeaders env u) (timeoutMs cfg) signal w1 with
            | None => None
            | Some (Rejected err, w2) => Some (handleError u err w2)
            | Some (Resolved response', w2) =>
                let sc' := Http.statusCode response' in
                if inRange sc' then
                  Some (cacheAndReturn u true sc' (Http.statusText response') w2)
                else if (sc' =? 403)%Z then
                  if isCdnErrorResponse response'
                  then Some (cacheAndReturn u false sc' "Not Found (CDN)" w2)
                  else Some (cacheAndReturn u true sc' "Protected" w2)
                else Some (generalRule u response' w2)
            end
          else Some (generalRule u response w1)
      end
  end.

(** [[...new Set(urls)]]: the distinct elements in order of first
    occurrence. *)
Definition setAdd (seen : list string) (u : string) : list string :=
  if bool_decide (u ∈ seen) then seen else seen ++ [u].

Definition uniq (urls : list string) : list string := fold_left setAdd urls [].

(** [Array.prototype.slice(start, end)] for integer arguments. *)
Definition relIndex (len k : Z) : Z :=
  if (k <? 0)%Z then Z.max (len + k) 0 else Z.min k len.

Definition slice {A} (l : list A) (start stop : Z) : list A :=
  let len := Z.of_nat (length l) in
  let from := relIndex len start in
  let to := relIndex len stop in
  take (Z.to_nat (to - from)) (drop (Z.to_nat from) l).

(** [await Promise.all(batch.map(url => this.validateUrl(url, signal)))].

    The code starts the validators of a window in the order of the
    window, each running up to its first [await] (the cache lookup and
    the sending of the HEAD request), and the probes then settle in the
    order the network decides. The model runs the validators one after
    the other, each to its end, in the order of the window: the cache
    lookups happen in the same order as in the code, while the requests
    of different validators are not interleaved in the log. *)
Fixpoint promiseAll (fuel : nat) (env : Env) (cfg : Config) (batch : list string)
    (signal : nat) (w : World) : option (list ValidationResult * World) :=
  match batch with
  | [] => Some ([], w)
  | u :: rest =>
      match validateUrl fuel env cfg u signal w with
      | None => None
      | Some (r, w1) =>
          match promiseAll fuel env cfg rest signal w1 with
          | None => None
          | Some (rs, w2) => Some (r :: rs, w2)
          end
      end
  end.

(** The [for] loop of [validateUrls]; [steps] bounds the number of times
    the loop condition is evaluated, [fuel] is the fuel of each probe. *)
Fixpoint windows (steps fuel : nat) (env : Env) (cfg : Config)
    (uniqueUrls : list string) (signal : nat) (i : Z)
    (results : list ValidationResult) (w : World)
    : option (list ValidationResult * World) :=
  match steps with
  | O => None
  | S steps' =>
      if (i <? Z.of_nat (length uniqueUrls))%Z then
        if aborted signal w then Some (results, w)
        else
          let batch := slice uniqueUrls i (i + maxConcurrent cfg) in
          match promiseAll fuel env cfg batch signal w with
          | None => None
          | Some (batchResults, w1) =>
              windows steps' fuel env cfg uniqueUrls signal (i + maxConcurrent cfg)
                (results ++ batchResults) w1
          end
      else Some (results, w)
  end.

(** [validateUrls(urls)]. *)
Definition validateUrls (fuel : nat) (env : Env) (cfg : Config) (urls : list string)
    (w : World) : option (list ValidationResult * World) :=
  if (length urls =? 0)%nat then Some ([], w)
  else
    let w1 := cancel w in
    let '(controller, w2) := newAbortController w1 in
    let w3 := setAbortController (Some controller) w2 in
    let signal := controller in
    windows fuel fuel env cfg (uniq urls) signal 0 [] w3.

End LinkValidator.

(** ** The axios variant of the validator

    The second copy of [linkValidator.ts] delegates the probe, redirects
    included, to [axios.head] and [axios.get]. [cacheAndReturn], [cancel]
    and [validateUrls] have the same text in both copies; the CDN check,
    the error handler and the probe calls of [validateUrl] differ. *)

Module Axios.
Import Http.

(** [response.data]: a string, or anything else. *)
Inductive Data :=
| Text (s : string)
| NotText.

(** The fields of [AxiosResponse] that the validator reads. *)
Record AxiosResponse := {
  status : Z;
  statusText : string;
  headers : gmap string string;
  data : Data
}.

(** What [handleError] looks at in the caught value: [axios.isCancel],
    [instanceof AxiosError], [error.code], [error.message]. *)
Record Caught := {
  isCancel : bool;
  isAxiosError : bool;
  code : option string;
  message : string
}.

Inductive Settled :=
| Resolved (response : AxiosResponse)
| Rejected (error : Caught).

(** The library call: given the history, whether the signal handed to the
    library is aborted, and the request, how the promise settles and the
    clock reading at that moment. *)
Record Env := {
  url_origin : string → option string;
  request : list Event → bool → Request → Settled * Z
}.

Definition getOrigin (env : Env) (u : string) : string :=
  match url_origin env u with
  | Some o => o
  | None => ""
  end.

(** [isCdnErrorResponse(response)]. *)
Definition isCdnErrorResponse (response : AxiosResponse) : bool :=
  let contentType := Js.orString (headers response !! "content-type") "" in
  if Js.includes contentType "xml" || Js.includes contentType "text/html" then
    match data response with
    | Text s =>
        let lowerData := Js.toLowerCase s in
        if Js.includes lowerData "accessdenied" ||
           Js.includes lowerData "nosuchkey" ||
           Js.includes lowerData "not found" ||
           Js.includes lowerData "does not exist" ||
           Js.includes lowerData "<error>" ||
           Js.includes lowerData "the specified key does not exist"
        then true
        else false
    | NotText => false
    end
  else false.

Definition browserHeaders (env : Env) (u : string) : gmap string string :=
  <["User-Agent" := "Mozilla/5.0 (Macintosh; Intel Mac OS X 10_15_7) AppleWebKit/537.36 (KHTML, like Gecko) Chrome/120.0.0.0 Safari/537.36"]>
  (<["Accept" := "image/avif,image/webp,image/apng,image/svg+xml,image/*,*/*;q=0.8"]>
  (<["Accept-Language" := "en-US,en;q=0.9"]>
  (<["Referer" := getOrigin env u]> ∅))).

Definition rangeHeaders (env : Env) (u : string) : gmap string string :=
  <["Range" := "bytes=0-1023"]> (browserHeaders env u).

(** [await axios.head(url, ...)] and [await axios.get(url, ...)]. *)
Definition call (env : Env) (cfg : LinkValidator.Config) (u : string) (method : Method)
    (hdrs : gmap string string) (signal : nat) (w : World) : Settled * World :=
  let rq := {| req_url := u; req_method := method; req_headers := hdrs;
               req_timeout := LinkValidator.timeoutMs cfg |} in
  let '(settled, t) := request env (log w) (aborted signal w) rq in
  (settled, withNow t (record (Requested rq) w)).

Definition cancelled (u : string) : LinkValidator.ValidationResult :=
  {| LinkValidator.url := u; LinkValidator.isValid := true;
     LinkValidator.statusCode := None; LinkValidator.statusText := None;
     LinkValidator.error := Some "Request cancelled" |}.

(** [handleError(url, error)]. *)
Definition handleError (u : string) (err : Caught) (w : World)
    : LinkValidator.ValidationResult * World :=
  if isCancel err then (cancelled u, w)
  else if isAxiosError err then
    if decide (code err = Some "ECONNABORTED") then
      LinkValidator.cacheError u "Request timeout" w
    else if decide (code err = Some "ENOTFOUND") then
      LinkValidator.cacheError u "Domain not found" w
    else if decide (code err = Some "ECONNREFUSED") then
      LinkValidator.cacheError u "Connection refused" w
    else if decide (code err = Some "ERR_CANCELED") then (cancelled u, w)
    else LinkValidator.cacheError u (Js.orString (Some (message err)) "Network error") w
  else LinkValidator.cacheError u "Unknown error" w.

Definition generalRule (u : string) (response : AxiosResponse) (w : World)
    : LinkValidator.ValidationResult * World :=
  let valid := LinkValidator.inRange (status response) in
  LinkValidator.cacheAndReturn u valid (status response) (statusText response) w.

(** [validateUrl(url, signal)]. *)
Definition validateUrl (env : Env) (cfg : LinkValidator.Config) (u : string)
    (signal : nat) (w : World) : LinkValidator.ValidationResult * World :=
  let '(cached, c) := UrlCache.get (now w) (cache w) u in
  let w0 := record (CacheGet u) (withCache c w) in
  match cached with
  | Some e =>
      ({| LinkValidator.url := u;
          LinkValidator.isValid := UrlCache.isValid e;
          LinkValidator.statusCode := UrlCache.statusCode e;
          LinkValidator.statusText := UrlCache.statusText e;
          LinkValidator.error := UrlCache.error e |}, w0)
  | None =>
      match call env cfg u HEAD (browserHeaders env u) signal w0 with
      | (Rejected err, w1) => handleError u err w1
      | (Resolved response, w1) =>
          let sc := status response in
          if LinkValidator.inRange sc then
            LinkValidator.cacheAndReturn u true sc (statusText response) w1
          else if LinkValidator.includesZ LinkValidator.BROKEN_STATUS_CODES sc then
            LinkValidator.cacheAndReturn u false sc (statusText response) w1
          else if ((sc =? 403) || (sc =? 405))%Z then
            match call env cfg u GET (rangeHeaders env u) signal w1 with
            | (Rejected err, w2) => handleError u err w2
            | (Resolved response', w2) =>
                let sc' := status response' in
                if LinkValidator.inRange sc' then
                  LinkValidator.cacheAndReturn u true sc' (statusText response') w2
                else if (sc' =? 403)%Z then
                  if isCdnErrorResponse response'
                  then LinkValidator.cacheAndReturn u false sc' "Not Found (CDN)" w2
                  else LinkValidator.cacheAndReturn u true sc' "Protected" w2
                else generalRule u response' w2
            end
          else generalRule u response w1
      end
  end.

End Axios.

(** ** More JavaScript string primitives, used by the scanner and the
    diagnostics *)

Module JsText.

(** [s.endsWith(suffix)]. *)
Fixpoint endsWith (s suffix : string) : bool :=
  bool_decide (s = suffix) ||
  match s with
  | EmptyString => false
  | String _ s' => endsWith s' suffix
  end.

(** [s.slice(0, -1)]: all but the last character. *)
Fixpoint dropLast (s : string) : string :=
  match s with
  | EmptyString => EmptyString
  | String c EmptyString => EmptyString
  | String c s' => String c (dropLast s')
  end.

(** [s.replace(/[class]+$/, '')]: the longest run of characters of the
    class that ends the string is removed. *)
Fixpoint stripTrailing (class : ascii → bool) (s : string) : string :=
  match s with
  | EmptyString => EmptyString
  | String c s' =>
      match stripTrailing class s' with
      | EmptyString => if class c then EmptyString else String c EmptyString
      | String d t => String c (String d t)
      end
  end.

(** The number of occurrences of a character. *)
Fixpoint count (x : ascii) (s : string) : nat :=
  match s with
  | EmptyString => 0
  | String c s' => (if decide (c = x) then 1 else 0) + count x s'
  end.

(** The rest of [s] after the prefix [p], compared without regard to the
    case of ASCII letters ([p] is in lower case). *)
Fixpoint stripPrefixCI (p s : string) : option string :=
  match p, s with
  | EmptyString, _ => Some s
  | String _ _, EmptyString => None
  | String a p', String b s' =>
      if decide (a = Js.lowerChar b) then stripPrefixCI p' s' else None
  end.

(** The longest prefix of characters of the class, and the rest. *)
Fixpoint span (class : ascii → bool) (s : string) : string * string :=
  match s with
  | EmptyString => (EmptyString, EmptyString)
  | String c s' =>
      if class c then let '(m, rest) := span class s' in (String c m, rest)
      else (EmptyString, s)
  end.

Fixpoint all (class : ascii → bool) (s : string) : bool :=
  match s with
  | EmptyString => true
  | String c s' => class c && all class s'
  end.

(** [s.substring(0, n)]. *)
Definition substring0 (n : Z) (s : string) : string :=
  String.substring 0 (Z.to_nat n) s.

(** The decimal text of an integer, as a template literal prints it. *)
Definition numberToString (n : Z) : string :=
  DecimalString.NilZero.string_of_int (Z.to_int n).

(** The white space of [\s] among the characters below 256. *)
Definition isSpace (c : ascii) : bool :=
  let n := N_of_ascii c in
  ((9 <=? n)%N && (n <=? 13)%N) || (n =? 32)%N || (n =? 160)%N.

Definition oneOf (chars : string) (c : ascii) : bool :=
  existsb (λ x, bool_decide (x = c)) (list_ascii_of_string chars).

(** The double quote and the backslash. *)
Definition dquote : ascii := ascii_of_N 34.

Definition backslash : ascii := ascii_of_N 92.

End JsText.

(** ** The editor's types *)

Module Vscode.

Record Position := {
  line : nat;
  character : nat
}.

Record Range := {
  range_start : Position;
  range_end : Position
}.

Inductive DiagnosticSeverity := Error | Warning | Information | Hint.

(** [diagnostic.code]: a number or a string. *)
Inductive DiagnosticCode :=
| CodeNumber (n : Z)
| CodeString (s : string).

Record Diagnostic := {
  range : Range;
  message : string;
  severity : DiagnosticSeverity;
  source : option string;
  code : option DiagnosticCode
}.

(** What the extension reads of a [TextDocument]. *)
Record TextDocument := {
  uri : string;
  languageId : string;
  getText : string;
  positionAt : nat → Position
}.

End Vscode.

(** ** [src/urlScanner.ts] *)

Module UrlScanner.

(** [interface DetectedUrl]. *)
Record DetectedUrl := {
  url : string;
  range : Vscode.Range
}.

(** The literal texts of [CDN_PATTERNS]; every pattern is a literal
    matched anywhere, without regard to case. *)
Definition CDN_PATTERNS : list string :=
  ["cloudfront.net"; "cdn."; ".cdn."; "cloudflare"; "akamai"; "fastly";
   "jsdelivr"; "unpkg"; "cdnjs"].

Definition ASSET_EXTENSIONS : list string :=
  ["jpg"; "jpeg"; "png"; "gif"; "svg"; "webp"; "ico"; "bmp"; "tiff"; "avif";
   "mp4"; "webm"; "avi"; "mov"; "mkv";
   "mp3"; "wav"; "ogg"; "flac"; "aac";
   "woff"; "woff2"; "ttf"; "eot"; "otf";
   "pdf";
   "riv"; "lottie";
   "json"].

(** [/literal/i.test(url)]. *)
Definition testLiteral (literal url : string) : bool :=
  Js.includes (Js.toLowerCase url) literal.

(** The class of the query part of the extension pattern: any character
    but white space, the double and the single quote, the backquote, [>]
    and the closing square bracket. *)
Definition queryChar (c : ascii) : bool :=
  negb (JsText.isSpace c || JsText.oneOf (String JsText.dquote "'`>]") c).

(** The extension pattern anchored at the start of [s]: a dot, one of the
    extensions, then either the end or a question mark followed by query
    characters up to the end. *)
Definition extensionHere (s : string) : bool :=
  existsb
    (λ ext,
       match JsText.stripPrefixCI ("." +:+ ext) s with
       | Some EmptyString => true
       | Some (String c q) => bool_decide (c = "?"%char) && JsText.all queryChar q
       | None => false
       end)
    ASSET_EXTENSIONS.

(** [ASSET_EXTENSION_PATTERN.test(url)]: the pattern matches at some
    position. *)
Fixpoint testAssetExtension (u : string) : bool :=
  extensionHere u ||
  match u with
  | EmptyString => false
  | String _ u' => testAssetExtension u'
  end.

(** [shouldCheckUrl(url)]. *)
Definition shouldCheckUrl (u : string) : bool :=
  if existsb (λ pattern, testLiteral pattern u) CDN_PATTERNS then true
  else if testAssetExtension u then true
  else false.

(** The loop that strips unbalanced closing parentheses; it runs at most
    [closeCount] times, which [fuel] stands for. *)
Fixpoint stripUnbalanced (fuel openCount closeCount : nat) (cleaned : string) : string :=
  match fuel with
  | O => cleaned
  | S fuel' =>
      if (openCount <? closeCount)%nat && JsText.endsWith cleaned ")" then
        stripUnbalanced fuel' openCount (closeCount - 1) (JsText.dropLast cleaned)
      else cleaned
  end.

(** The extensions of [extPattern] in [cleanUrl]. *)
Definition CLEAN_EXTENSIONS : list string :=
  ["jpg"; "jpeg"; "png"; "gif"; "svg"; "webp"; "ico"; "mp4"; "webm"; "mp3";
   "wav"; "pdf"; "riv"; "json"; "woff"; "woff2"; "ttf"].

(** [extPattern.test(cleaned)]: the text ends with a dot, one of the
    extensions and a closing parenthesis, without regard to case. *)
Definition testExtParen (cleaned : string) : bool :=
  existsb (λ ext, JsText.endsWith (Js.toLowerCase cleaned) ("." +:+ ext +:+ ")"))
    CLEAN_EXTENSIONS.

(** [cleanUrl(url)]. *)
Definition cleanUrl (u : string) : string :=
  let cleaned := JsText.stripTrailing (JsText.oneOf ",;:!?.") u in
  let cleaned := JsText.stripTrailing (JsText.oneOf (String JsText.dquote "'`]}>")) cleaned in
  let openCount := JsText.count "("%char cleaned in
  let closeCount := JsText.count ")"%char cleaned in
  let cleaned := stripUnbalanced closeCount openCount closeCount cleaned in
  if testExtParen cleaned then JsText.dropLast cleaned else cleaned.

(** The class of [URL_REGEX]: any character but white space, the double
    and the single quote, the backquote, angle, square and curly
    brackets, and the backslash. *)
Definition urlChar (c : ascii) : bool :=
  negb (JsText.isSpace c ||
        JsText.oneOf (String JsText.dquote (String JsText.backslash "'`<>[]{}")) c).

(** [URL_REGEX] anchored at the start of [s]: the length of the match,
    if there is one. After [http] the optional [s] is tried first. *)
Definition matchUrlHere (s : string) : option nat :=
  match JsText.stripPrefixCI "http" s with
  | None => None
  | Some r =>
      let body (skipped : nat) (r' : string) : option nat :=
        match JsText.stripPrefixCI "://" r' with
        | None => None
        | Some r'' =>
            match JsText.span urlChar r'' with
            | (EmptyString, _) => None
            | (m, _) => Some (skipped + 3 + String.length m)
            end
        end in
      match JsText.stripPrefixCI "s" r with
      | Some r' =>
          match body 5 r' with
          | Some n => Some n
          | None => body 4 r
          end
      | None => body 4 r
      end
  end.

(** The [exec] loop over the text: [index] is the position of [s] in the
    text, [skip] the number of characters of the last match still to pass
    before the search resumes. Every match is reported with its index. *)
Fixpoint execAll (s : string) (index skip : nat) : list (nat * string) :=
  match s with
  | EmptyString => []
  | String c s' =>
      match skip with
      | S skip' => execAll s' (S index) skip'
      | O =>
          match matchUrlHere s with
          | Some n => (index, String.substring 0 n s) :: execAll s' (S index) (n - 1)
          | None => execAll s' (S index) 0
          end
      end
  end.

(** The body of the loop of [scanDocument]. *)
Definition detect (document : Vscode.TextDocument) (detectedUrls : list DetectedUrl)
    (m : nat * string) : list DetectedUrl :=
  let rawUrl := m.2 in
  let u := cleanUrl rawUrl in
  if shouldCheckUrl u then
    let startPos := Vscode.positionAt document m.1 in
    let endPos := Vscode.positionAt document (m.1 + String.length u) in
    detectedUrls ++ [{| url := u;
                        range := {| Vscode.range_start := startPos;
                                    Vscode.range_end := endPos |} |}]
  else detectedUrls.

(** [scanDocument(document)]. *)
Definition scanDocument (document : Vscode.TextDocument) : list DetectedUrl :=
  fold_left (detect document) (execAll (Vscode.getText document) 0 0) [].


End UrlScanner.

(** ** [src/diagnosticsManager.ts] *)

Module DiagnosticsManager.

(** The [DiagnosticCollection]: the diagnostics set for each document
    URI. *)
Record t := {
  diagnosticCollection : gmap string (list Vscode.Diagnostic)
}.

(** [constructor()]. *)
Definition make : t := {| diagnosticCollection := ∅ |}.

(** [truncateUrl(url, maxLength = 60)]. *)
Definition truncateUrl (u : string) (maxLength : Z) : string :=
  if (Z.of_nat (String.length u) <=? maxLength)%Z then u
  else JsText.substring0 (maxLength - 3) u +:+ "...".

Definition truthyNumber (x : option Z) : option Z :=
  match x with
  | Some n => if (n =? 0)%Z then None else Some n
  | None => None
  end.

(** [formatDiagnosticMessage(result)]. *)
Definition formatDiagnosticMessage (result : LinkValidator.ValidationResult) : string :=
  match truthyNumber (LinkValidator.statusCode result) with
  | Some sc =>
      "Broken link (" +:+ JsText.numberToString sc +:+ " " +:+
      Js.orString (LinkValidator.statusText result) "Error" +:+ "): " +:+
      truncateUrl (LinkValidator.url result) 60
  | None =>
      match LinkValidator.error result with
      | Some (String c e) =>
          "Broken link (" +:+ String c e +:+ "): " +:+
          truncateUrl (LinkValidator.url result) 60
      | _ => "Broken link: " +:+ truncateUrl (LinkValidator.url result) 60
      end
  end.

(** The map built by the first loop of [updateDiagnostics]. *)
Definition resultMap (validationResults : list LinkValidator.ValidationResult)
    : gmap string LinkValidator.ValidationResult :=
  fold_left (λ m result, <[LinkValidator.url result := result]> m) validationResults ∅.

(** The body of the second loop of [updateDiagnostics]. *)
Definition report (results : gmap string LinkValidator.ValidationResult)
    (diagnostics : list Vscode.Diagnostic) (detected : UrlScanner.DetectedUrl)
    : list Vscode.Diagnostic :=
  match results !! UrlScanner.url detected with
  | Some result =>
      if negb (LinkValidator.isValid result) then
        diagnostics ++
        [{| Vscode.range := UrlScanner.range detected;
            Vscode.message := formatDiagnosticMessage result;
            Vscode.severity := Vscode.Warning;
            Vscode.source := Some "Broken Link Detector";
            Vscode.code :=
              Some match truthyNumber (LinkValidator.statusCode result) with
                   | Some sc => Vscode.CodeNumber sc
                   | None => Vscode.CodeString "ERROR"
                   end |}]
      else diagnostics
  | None => diagnostics
  end.

(** [updateDiagnostics(document, detectedUrls, validationResults)]. *)
Definition updateDiagnostics (document : Vscode.TextDocument)
    (detectedUrls : list UrlScanner.DetectedUrl)
    (validationResults : list LinkValidator.ValidationResult) (d : t) : t :=
  let diagnostics := fold_left (report (resultMap validationResults)) detectedUrls [] in
  {| diagnosticCollection :=
       <[Vscode.uri document := diagnostics]> (diagnosticCollection d) |}.

(** [clearDiagnostics(document)]. *)
Definition clearDiagnostics (document : Vscode.TextDocument) (d : t) : t :=
  {| diagnosticCollection := delete (Vscode.uri document) (diagnosticCollection d) |}.

(** [clearAll()]. *)
Definition clearAll (d : t) : t := {| diagnosticCollection := ∅ |}.

End DiagnosticsManager.

(** ** [src/extension.ts]: processing one document *)

Module Extension.


End Extension.

(** * Vocabulary of the statements *)

Import Http LinkValidator.

(** ** String primitives *)

(** [needle] occurs somewhere in [s]. *)
Definition occursIn (needle s : string) : Prop :=
  ∃ before after, s = before +:+ needle +:+ after.

(** ** The CDN ambiguity resolver *)

(** The markers listed by the specification. *)
Definition spec_markers : list string :=
  ["accessdenied"; "nosuchkey"; "not found"; "does not exist"; "<error>";
   "the specified key does not exist"].

(** ** The result cache *)

(** A result to store. *)
Definition sampleResult : UrlCache.Result :=
  {| UrlCache.r_isValid := true; UrlCache.r_statusCode := Some 200%Z;
     UrlCache.r_statusText := Some "OK"; UrlCache.r_error := None |}.

(** ** What a probe can and cannot change *)

Definition isRequest (e : Event) : Prop :=
  match e with
  | Requested _ => True
  | _ => False
  end.

(** [w'] is [w] after some probing: same cache, same controllers up to
    aborts, a log extended by requests only. *)
Definition probed (w w' : World) : Prop :=
  cache w' = cache w ∧
  length (controllers w') = length (controllers w) ∧
  (∀ s, aborted s w = true → aborted s w' = true) ∧
  ∃ evs, log w' = log w ++ evs ∧ Forall isRequest evs.

(** ** The redirect bound *)

(** The probe as the specification describes it: the number of redirects
    already followed travels with the recursive call, and the sixth
    redirect response is returned as it is. Only the redirect counting
    differs from [makeRequest]. *)
Fixpoint spec_makeRequest (fuel : nat) (env : Env) (redirects : Z) (u : string)
    (method : Method) (hdrs : gmap string string) (timeout : Z) (signal : nat)
    (w : World) : option (Settled * World) :=
  match fuel with
  | O => None
  | S fuel' =>
      if aborted signal w then Some (Rejected (JsError "Request cancelled"), w)
      else
        match url_origin env u with
        | None => Some (Rejected (JsError "Invalid URL"), w)
        | Some _ =>
            let request := {| req_url := u; req_method := method;
                              req_headers := hdrs; req_timeout := timeout |} in
            let '(event, t) := respond env (log w) request in
            let w1 := withNow t (record (Requested request) w) in
            match event with
            | OnResponse res =>
                match redirectLocation res with
                | Some location =>
                    if (redirects <? 5)%Z then
                      match url_resolve env location u with
                      | Some newUrl =>
                          spec_makeRequest fuel' env (redirects + 1) newUrl
                            method hdrs timeout signal w1
                      | None => None
                      end
                    else Some (Resolved (deliver method res), w1)
                | None => Some (Resolved (deliver method res), w1)
                end
            | OnTimeout => Some (Rejected (JsError "Request timeout"), w1)
            | OnError err => Some (Rejected err, w1)
            | OnAbort => Some (Rejected (JsError "Request cancelled"), cancel w1)
            end
        end
  end.

Definition redirectTo (location : string) : IncomingMessage :=
  {| res_statusCode := Some 301%Z; res_statusMessage := Some "Moved Permanently";
     res_headers := {[ "location" := location ]}; res_chunks := [] |}.

Definition found : IncomingMessage :=
  {| res_statusCode := Some 200%Z; res_statusMessage := Some "OK";
     res_headers := ∅; res_chunks := [] |}.

(** A server on which [/0] redirects to [/1], ..., [/5] redirects to [/6]
    (six chained 301 responses) and [/6] answers 200. *)
Definition chainServer (u : string) : IncomingMessage :=
  if decide (u = "http://h/0") then redirectTo "http://h/1"
  else if decide (u = "http://h/1") then redirectTo "http://h/2"
  else if decide (u = "http://h/2") then redirectTo "http://h/3"
  else if decide (u = "http://h/3") then redirectTo "http://h/4"
  else if decide (u = "http://h/4") then redirectTo "http://h/5"
  else if decide (u = "http://h/5") then redirectTo "http://h/6"
  else found.

Definition chainEnv : Env :=
  {| url_origin := λ _, Some "http://h";
     url_resolve := λ location _, Some location;
     respond := λ _ rq, (OnResponse (chainServer (req_url rq)), 0%Z) |}.

(** A server that redirects every URL to itself. *)
Definition loopEnv : Env :=
  {| url_origin := λ _, Some "http://h";
     url_resolve := λ location _, Some location;
     respond := λ _ rq, (OnResponse (redirectTo (req_url rq)), 0%Z) |}.

(** A validator with an empty default cache and one live batch. *)
Definition world0 : World :=
  {| cache := UrlCache.default; now := 0; controllers := [false];
     abortController := Some 0%nat; log := [] |}.

Definition requestsSent (w : World) : list string :=
  omap (λ e, match e with Requested r => Some (req_url r) | _ => None end) (log w).

(** ** The per-URL validator *)

(** The world right after the cache lookup that opens [validateUrl]. *)
Definition afterLookup (u : string) (w : World) : World :=
  record (CacheGet u) (withCache (UrlCache.get (now w) (cache w) u).2 w).

Definition miss (u : string) (w : World) : Prop :=
  (UrlCache.get (now w) (cache w) u).1 = None.

Definition fromEntry (u : string) (e : UrlCache.CacheEntry) : ValidationResult :=
  {| url := u; isValid := UrlCache.isValid e; statusCode := UrlCache.statusCode e;
     statusText := UrlCache.statusText e; error := UrlCache.error e |}.

(** The HEAD probe of [validateUrl], and the GET probe that may follow it. *)
Definition headProbe fuel env cfg u signal (w : World) : option (Settled * World) :=
  makeRequest fuel env u HEAD (browserHeaders env u) (timeoutMs cfg) signal w.

Definition getProbe fuel env cfg u signal (w : World) : option (Settled * World) :=
  makeRequest fuel env u GET (rangeHeaders env u) (timeoutMs cfg) signal w.

(** The probing of [u] ends with the thrown value [err] in world [w1]:
    either the HEAD probe is rejected, or it answers 403 or 405 and the GET
    probe is rejected. *)
Definition probesFail fuel env cfg u signal (w : World) (err : Thrown) (w1 : World) : Prop :=
  headProbe fuel env cfg u signal (afterLookup u w) = Some (Rejected err, w1) ∨
  ∃ r wh,
    headProbe fuel env cfg u signal (afterLookup u w) = Some (Resolved r, wh) ∧
    (Http.statusCode r = 403%Z ∨ Http.statusCode r = 405%Z) ∧
    getProbe fuel env cfg u signal wh = Some (Rejected err, w1).

(** An outcome built from a classified response. *)
Definition outcome (u : string) (valid : bool) (sc : Z) (st : string) : ValidationResult :=
  {| url := u; isValid := valid; statusCode := Some sc;
     statusText := Some st; error := None |}.

(** A CDN that refuses HEAD with 403 and answers GET with a 403 whose XML
    body names a missing key. *)
Definition cdnMissing : Env :=
  {| url_origin := λ _, Some "https://cdn.example";
     url_resolve := λ location _, Some location;
     respond := λ _ rq,
       match req_method rq with
       | HEAD =>
           (OnResponse {| res_statusCode := Some 403%Z;
                          res_statusMessage := Some "Forbidden";
                          res_headers := ∅; res_chunks := [] |}, 10%Z)
       | GET =>
           (OnResponse {| res_statusCode := Some 403%Z;
                          res_statusMessage := Some "Forbidden";
                          res_headers := {[ "content-type" := "application/xml" ]};
                          res_chunks := ["<Error><Code>NoSuchKey"; "</Code></Error>"] |},
            20%Z)
       end |}.

(** A server that answers HEAD and GET with the given statuses, the GET
    response carrying the given content type and body. *)
Definition tableEnv (headStatus getStatus : Z) (contentType body : string) : Env :=
  {| url_origin := λ _, Some "https://cdn.example";
     url_resolve := λ location _, Some location;
     respond := λ _ rq,
       match req_method rq with
       | HEAD =>
           (OnResponse {| res_statusCode := Some headStatus;
                          res_statusMessage := Some "head";
                          res_headers := ∅; res_chunks := [] |}, 10%Z)
       | GET =>
           (OnResponse {| res_statusCode := Some getStatus;
                          res_statusMessage := Some "get";
                          res_headers := {[ "content-type" := contentType ]};
                          res_chunks := [body] |}, 20%Z)
       end |}.

(** The outcome of validating one URL from [world0]. *)
Definition verdict (env : Env) : option ValidationResult :=
  fst <$> validateUrl 1 env defaultConfig "https://cdn.example/a.png" 0 world0.

(** ** Transport failures *)

(** The error message as the specification words it: the failure's own
    message, and "Unknown error" when no message is available. *)
Definition spec_errorMessage (err : Thrown) : string :=
  match err with
  | JsError m =>
      if decide (m = "Request timeout") then "Request timeout"
      else if Js.includes m "ENOTFOUND" then "Domain not found"
      else if Js.includes m "ECONNREFUSED" then "Connection refused"
      else if decide (m = "") then "Unknown error"
      else m
  | NotAnError => "Unknown error"
  end.

Definition failed (u : string) (msg : string) : ValidationResult :=
  {| url := u; isValid := false; statusCode := None; statusText := None;
     error := Some msg |}.

(** A host whose name does not resolve. *)
Definition dnsFailure : Env :=
  {| url_origin := λ _, Some "https://nosuch.example";
     url_resolve := λ location _, Some location;
     respond := λ _ _, (OnError (JsError "getaddrinfo ENOTFOUND nosuch.example"), 5%Z) |}.

(** The probing that started in [w0] and was settled in [w1] ended with
    the network delivering [event] for the last request it sent. *)
Definition endedBy (env : Env) (w0 w1 : World) (event : NetEvent) : Prop :=
  ∃ evs rq t, log w1 = log w0 ++ evs ++ [Requested rq] ∧
              respond env (log w0 ++ evs) rq = (event, t).

(** A host that does not answer in time. *)
Definition silentHost : Env :=
  {| url_origin := λ _, Some "https://slow.example";
     url_resolve := λ location _, Some location;
     respond := λ _ _, (OnTimeout, 5000%Z) |}.

(** A server whose redirect names a target that [new URL] rejects. *)
Definition badRedirect : Env :=
  {| url_origin := λ _, Some "https://a.example";
     url_resolve := λ _ _, None;
     respond := λ _ _, (OnResponse (redirectTo "http://"), 10%Z) |}.

(** ** Cancellation *)

Definition cancelledOutcome (u : string) : ValidationResult :=
  {| url := u; isValid := true; statusCode := None; statusText := None;
     error := Some "Request cancelled" |}.

(** The validation of [u] ends in cancellation: it is not served from the
    cache and its probing is rejected with the cancellation error. *)
Definition endsInCancellation fuel env cfg u signal (w : World) : Prop :=
  miss u w ∧ ∃ w1, probesFail fuel env cfg u signal w (JsError "Request cancelled") w1.

(** The probes of a validation of [u] settle: the HEAD probe does, and so
    does the GET probe when the HEAD response has the status 403 or 405. *)
Definition probesSettle fuel env cfg u signal (w : World) : Prop :=
  ∃ s wh,
    headProbe fuel env cfg u signal (afterLookup u w) = Some (s, wh) ∧
    ∀ r, s = Resolved r →
         Http.statusCode r = 403%Z ∨ Http.statusCode r = 405%Z →
         is_Some (getProbe fuel env cfg u signal wh).

(** The host cancels while the request is in flight. *)
Definition abortInFlight : Env :=
  {| url_origin := λ _, Some "https://cdn.example";
     url_resolve := λ location _, Some location;
     respond := λ _ _, (OnAbort, 400010%Z) |}.

(** A validator whose cache holds one entry, written at clock reading 0
    and older than the five minutes of the default TTL. *)
Definition staleWorld : World :=
  {| cache := UrlCache.set 0 UrlCache.default "https://cdn.example/a.png" sampleResult;
     now := 400000; controllers := [false]; abortController := Some 0%nat;
     log := [] |}.

(** The URLs written to the cache, in order. *)
Definition cacheWrites (evs : list Event) : list string :=
  omap (λ e, match e with CacheSet u => Some u | _ => None end) evs.

(** The URLs looked up in the cache, in order. *)
Definition cacheGets (evs : list Event) : list string :=
  omap (λ e, match e with CacheGet u => Some u | _ => None end) evs.

(** The cache entry [e] holds the outcome [o]. *)
Definition stored (o : ValidationResult) (e : UrlCache.CacheEntry) : Prop :=
  UrlCache.isValid e = isValid o ∧ UrlCache.statusCode e = statusCode o ∧
  UrlCache.statusText e = statusText o ∧ UrlCache.error e = error o.

(** ** Consistency of outcomes *)

(** An outcome with a broken status code (404 or 410) is not valid. *)
Definition consistent (o : ValidationResult) : Prop :=
  statusCode o = Some 404%Z ∨ statusCode o = Some 410%Z → isValid o = false.

Definition entryConsistent (e : UrlCache.CacheEntry) : Prop :=
  UrlCache.statusCode e = Some 404%Z ∨ UrlCache.statusCode e = Some 410%Z →
  UrlCache.isValid e = false.

Definition cacheConsistent (c : UrlCache.t) : Prop :=
  ∀ u e, UrlCache.cache c !! u = Some e → entryConsistent e.

(** ** Deduplication and windows *)

(** The world in which the windows of a non-empty batch start. *)
Definition batchStart (w : World) : World :=
  setAbortController (Some (length (controllers (cancel w))))
    (newAbortController (cancel w)).2.

(** ** The batch coordinator *)

(** A server that answers HEAD with 405 and GET with 404. *)
Definition headRefused : Env :=
  {| url_origin := λ _, Some "https://a.example";
     url_resolve := λ location _, Some location;
     respond := λ _ rq,
       match req_method rq with
       | HEAD =>
           (OnResponse {| res_statusCode := Some 405%Z;
                          res_statusMessage := Some "Method Not Allowed";
                          res_headers := ∅; res_chunks := [] |}, 10%Z)
       | GET =>
           (OnResponse {| res_statusCode := Some 404%Z;
                          res_statusMessage := Some "Not Found";
                          res_headers := ∅; res_chunks := [] |}, 20%Z)
       end |}.

(** ** Termination *)

(** Every probe against [env] settles within [fuel] requests. *)
Definition settles (fuel : nat) (env : Env) : Prop :=
  ∀ u method hdrs timeout signal w,
    is_Some (makeRequest fuel env u method hdrs timeout signal w).

(** ** Vocabulary of the further properties *)

(** The entry that [set] stores for a result at clock reading [t]. *)
Definition entryOf (r : UrlCache.Result) (t : Z) : UrlCache.CacheEntry :=
  {| UrlCache.isValid := UrlCache.r_isValid r;
     UrlCache.statusCode := UrlCache.r_statusCode r;
     UrlCache.statusText := UrlCache.r_statusText r;
     UrlCache.error := UrlCache.r_error r;
     UrlCache.timestamp := t |}.

(** The cache [c] without its entry for [u]. *)
Definition without (u : string) (c : UrlCache.t) : UrlCache.t :=
  {| UrlCache.cache := delete u (UrlCache.cache c); UrlCache.ttlMs := UrlCache.ttlMs c |}.


(** The chunks of a response body put end to end. *)
Definition joined (chunks : list string) : string :=
  fold_right String.append "" chunks.

(** The requests in a log, oldest first. *)
Definition requestLog (evs : list Event) : list Request :=
  omap (λ e, match e with Requested r => Some r | _ => None end) evs.

(** The event is a request with the given method, headers and timeout. *)
Definition sentWith (method : Method) (hdrs : gmap string string) (timeout : Z)
    (e : Event) : Prop :=
  ∃ u, e = Requested {| req_url := u; req_method := method;
                        req_headers := hdrs; req_timeout := timeout |}.

(** The network never answers with a redirect that the probe follows. *)
Definition noRedirects (env : Env) : Prop :=
  ∀ h rq res t, respond env h rq = (OnResponse res, t) → redirectLocation res = None.

(** The two requests a validation can send. *)
Definition headRequest (env : Env) (cfg : Config) (u : string) : Request :=
  {| req_url := u; req_method := HEAD; req_headers := browserHeaders env u;
     req_timeout := timeoutMs cfg |}.

Definition getRequest (env : Env) (cfg : Config) (u : string) : Request :=
  {| req_url := u; req_method := GET; req_headers := rangeHeaders env u;
     req_timeout := timeoutMs cfg |}.

(** The fields of an outcome or of a cache entry hold either a status code
    with its text and no error, or an error, no status and the verdict
    "not valid". *)
Definition shaped (valid : bool) (sc : option Z) (st err : option string) : Prop :=
  (is_Some sc ∧ is_Some st ∧ err = None) ∨
  (sc = None ∧ st = None ∧ is_Some err ∧ valid = false).

Definition entryShaped (e : UrlCache.CacheEntry) : Prop :=
  shaped (UrlCache.isValid e) (UrlCache.statusCode e) (UrlCache.statusText e)
    (UrlCache.error e).

Definition cacheShaped (c : UrlCache.t) : Prop :=
  ∀ u e, UrlCache.cache c !! u = Some e → entryShaped e.

Definition outcomeShaped (o : ValidationResult) : Prop :=
  shaped (isValid o) (statusCode o) (statusText o) (error o) ∨
  o = cancelledOutcome (url o).

(** The verdict that goes with a status code: valid exactly for a status
    in [[200, 400)] and for a 403 marked "Protected". *)
Definition verdictRule (valid : bool) (sc : option Z) (st : option string) : Prop :=
  ∀ n, sc = Some n →
       (valid = true ↔ (200 ≤ n < 400)%Z ∨ (n = 403%Z ∧ st = Some "Protected")).

Definition entryVerdict (e : UrlCache.CacheEntry) : Prop :=
  verdictRule (UrlCache.isValid e) (UrlCache.statusCode e) (UrlCache.statusText e).

Definition cacheVerdict (c : UrlCache.t) : Prop :=
  ∀ u e, UrlCache.cache c !! u = Some e → entryVerdict e.

Definition outcomeVerdict (o : ValidationResult) : Prop :=
  verdictRule (isValid o) (statusCode o) (statusText o).


(** The last result in the list for the URL [u]. *)
Fixpoint lastResult (u : string) (results : list ValidationResult)
    : option ValidationResult :=
  match results with
  | [] => None
  | r :: results' =>
      match lastResult u results' with
      | Some x => Some x
      | None => if decide (url r = u) then Some r else None
      end
  end.

(** The URL is reported broken: its last result says not valid. *)
Definition brokenIn (results : list ValidationResult) (u : string) : bool :=
  match lastResult u results with
  | Some r => negb (isValid r)
  | None => false
  end.

(** The diagnostics shown for a document. *)
Definition diagnosticsOf (document : Vscode.TextDocument) (d : DiagnosticsManager.t)
    : list Vscode.Diagnostic :=
  default [] (DiagnosticsManager.diagnosticCollection d !! Vscode.uri document).


(** The characters that [cleanUrl] may remove from the end of a URL. *)
Definition trailingJunk : string :=
  ",;:!?." +:+ String JsText.dquote "'`]}>" +:+ ")".

(** The character at the end of a string is [c]. *)
Definition lastIs (s : string) (c : ascii) : Prop :=
  ∃ before, s = before +:+ String c "".


(** A document whose positions are offsets on a single line. *)
Definition sampleDocument (text : string) : Vscode.TextDocument :=
  {| Vscode.uri := "file:///site/style.css"; Vscode.languageId := "css";
     Vscode.getText := text;
     Vscode.positionAt := λ n, {| Vscode.line := 0; Vscode.character := n |} |}.

Definition sampleText : string :=
  "a { background: url(https://cdn.example/a.png); }".

(** * Properties *)

(** ** String primitives *)

Lemma startsWith_spec (s p : string) :
  Js.startsWith s p = true ↔ ∃ rest, s = p +:+ rest.
Proof.
  revert s; induction p as [|a p IH]; intros s.
  - split; [intros _; exists s; reflexivity | intros _; destruct s; reflexivity].
  - destruct s as [|b s]; simpl.
    + split; [discriminate | intros [rest H]; discriminate H].
    + destruct (decide (a = b)) as [->|Hne].
      * rewrite IH. split; intros [rest H]; exists rest.
        -- rewrite H; reflexivity.
        -- injection H; auto.
      * split; [discriminate | intros [rest H]; injection H; congruence].
Qed.

Lemma includes_spec (s needle : string) :
  Js.includes s needle = true ↔ ∃ before after, s = before +:+ needle +:+ after.
Proof.
  induction s as [|c s IH]; cbn [Js.includes].
  - rewrite orb_false_r, startsWith_spec. split.
    + intros [rest H]. exists "", rest. exact H.
    + intros [before [after H]]. destruct before; [exists after; exact H | discriminate H].
  - rewrite orb_true_iff, startsWith_spec, IH. split.
    + intros [[rest H] | [before [after H]]].
      * exists "", rest. exact H.
      * exists (String c before), after. rewrite H. reflexivity.
    + intros [before [after H]]. destruct before as [|b before].
      * left. exists after. exact H.
      * right. injection H as _ H. exists before, after. exact H.
Qed.

Lemma includes_true (s needle : string) :
  Js.includes s needle = true ↔ occursIn needle s.
Proof. apply includes_spec. Qed.

Lemma includes_false (s needle : string) :
  Js.includes s needle = false ↔ ¬ occursIn needle s.
Proof.
  rewrite <- includes_true. destruct (Js.includes s needle); split; congruence.
Qed.

Lemma orString_nonempty (x : option string) (d : string) :
  Js.orString x d = match x with Some s => if decide (s = "") then d else s | None => d end.
Proof. destruct x as [[|c s]|]; reflexivity. Qed.

(** ** The CDN ambiguity resolver *)

Lemma markers_exists (s : string) :
  (∃ m, m ∈ spec_markers ∧ occursIn m s) ↔
  occursIn "accessdenied" s ∨ occursIn "nosuchkey" s ∨ occursIn "not found" s ∨
  occursIn "does not exist" s ∨ occursIn "<error>" s ∨
  occursIn "the specified key does not exist" s.
Proof.
  unfold spec_markers. split.
  - intros [m [Hm Ho]].
    repeat (apply elem_of_cons in Hm as [-> | Hm]; [tauto |]).
    by apply elem_of_nil in Hm.
  - intros H.
    repeat (destruct H as [H | H];
            [eexists; split; [| exact H]; repeat constructor |]).
    eexists; split; [| exact H]; repeat constructor.
Qed.

Lemma markers_includes (s : string) :
  Js.includes s "accessdenied" || Js.includes s "nosuchkey" ||
  Js.includes s "not found" || Js.includes s "does not exist" ||
  Js.includes s "<error>" || Js.includes s "the specified key does not exist" = true ↔
  ∃ m, m ∈ spec_markers ∧ occursIn m s.
Proof. rewrite markers_exists, !orb_true_iff, !includes_true. tauto. Qed.

Lemma contentType_occurs (h : gmap string string) (n : string) :
  n ≠ "" →
  occursIn n (Js.orString (h !! "content-type") "") ↔
  ∃ c, h !! "content-type" = Some c ∧ occursIn n c.
Proof.
  intros Hn. rewrite orString_nonempty.
  destruct (h !! "content-type") as [c|].
  - destruct (decide (c = "")) as [-> | Hc].
    + split; [| intros [c [[= <-] H]]; exact H].
      intros H. exists "". split; [reflexivity | exact H].
    + split; [intros H; by exists c | intros [c' [[= <-] H]]; exact H].
  - split; [| intros [c [[=] _]]].
    intros [[|b before] [after H]]; [| discriminate H].
    destruct n; [congruence | discriminate H].
Qed.

Lemma contentType_includes (h : gmap string string) :
  Js.includes (Js.orString (h !! "content-type") "") "xml" ||
  Js.includes (Js.orString (h !! "content-type") "") "text/html" = true ↔
  ∃ c, h !! "content-type" = Some c ∧ (occursIn "xml" c ∨ occursIn "text/html" c).
Proof.
  rewrite orb_true_iff, !includes_true, !contentType_occurs by discriminate.
  split.
  - intros [[c [Hc H]] | [c [Hc H]]]; exists c; tauto.
  - intros [c [Hc [H | H]]]; [left | right]; by exists c.
Qed.

(** C2. [isCdnErrorResponse] answers [true] exactly when the content type
    of the response contains "xml" or "text/html" and the lower-cased body
    contains one of the six markers; every other response gives [false]. *)
Theorem isCdnErrorResponse_iff (response : Http.HttpResponse) :
  LinkValidator.isCdnErrorResponse response = true ↔
  (∃ contentType,
      Http.headers response !! "content-type" = Some contentType ∧
      (occursIn "xml" contentType ∨ occursIn "text/html" contentType)) ∧
  (∃ m, m ∈ spec_markers ∧ occursIn m (Js.toLowerCase (Http.body response))).
Proof.
  rewrite <- contentType_includes, <- markers_includes.
  unfold LinkValidator.isCdnErrorResponse. cbv zeta.
  destruct (Js.includes (Js.orString _ _) "xml" || _).
  - match goal with |- (if ?b then _ else _) = _ ↔ _ => destruct b end;
      intuition congruence.
  - intuition congruence.
Qed.

(** The same equivalence for the axios variant, whose body is inspected
    only when it is a string. *)
Lemma axios_cdn_check_iff (response : Axios.AxiosResponse) :
  Axios.isCdnErrorResponse response = true ↔
  (∃ contentType,
      Axios.headers response !! "content-type" = Some contentType ∧
      (occursIn "xml" contentType ∨ occursIn "text/html" contentType)) ∧
  (∃ body m, Axios.data response = Axios.Text body ∧
             m ∈ spec_markers ∧ occursIn m (Js.toLowerCase body)).
Proof.
  rewrite <- contentType_includes.
  unfold Axios.isCdnErrorResponse. cbv zeta.
  destruct (Js.includes (Js.orString _ _) "xml" || _).
  2:{ intuition congruence. }
  destruct (Axios.data response) as [body|].
  2:{ split; [discriminate | intros [_ (b & m & [=] & _)]]. }
  pose proof (markers_includes (Js.toLowerCase body)) as Hm.
  match goal with |- (if ?b then _ else _) = _ ↔ _ => destruct b end.
  - split; [intros _ | reflexivity]. split; [reflexivity |].
    destruct Hm as [[m Hm] _]; [reflexivity |]. by exists body, m.
  - split; [discriminate |]. intros [_ (b & m & [= <-] & Hin)].
    destruct Hm as [_ Hm]. apply Hm. by exists m.
Qed.

(** The two rows of the classification table that exercise the resolver. *)
Example isCdnErrorResponse_xml_NoSuchKey :
  LinkValidator.isCdnErrorResponse
    {| Http.statusCode := 403; Http.statusText := "Forbidden";
       Http.headers := {[ "content-type" := "application/xml" ]};
       Http.body := "<Error><Code>NoSuchKey</Code></Error>" |} = true.
Proof. vm_compute. reflexivity. Qed.

Example isCdnErrorResponse_empty_octet_stream :
  LinkValidator.isCdnErrorResponse
    {| Http.statusCode := 403; Http.statusText := "Forbidden";
       Http.headers := {[ "content-type" := "application/octet-stream" ]};
       Http.body := "" |} = false.
Proof. vm_compute. reflexivity. Qed.

(** ** The result cache *)

Lemma cache_eq (c1 c2 : UrlCache.t) :
  UrlCache.cache c1 = UrlCache.cache c2 → UrlCache.ttlMs c1 = UrlCache.ttlMs c2 → c1 = c2.
Proof. destruct c1, c2. simpl. by intros -> ->. Qed.

Lemma get_absent (now : Z) (c : UrlCache.t) (url : string) :
  UrlCache.cache c !! url = None → UrlCache.get now c url = (None, c).
Proof. intros H. unfold UrlCache.get. by rewrite H. Qed.

Lemma get_fresh (now : Z) (c : UrlCache.t) (url : string) (e : UrlCache.CacheEntry) :
  UrlCache.cache c !! url = Some e →
  (now - UrlCache.timestamp e ≤ UrlCache.ttlMs c)%Z →
  UrlCache.get now c url = (Some e, c).
Proof.
  intros H Hage. unfold UrlCache.get. rewrite H.
  destruct (Z.gtb_spec (now - UrlCache.timestamp e) (UrlCache.ttlMs c)); [lia | done].
Qed.

Lemma get_expired (now : Z) (c : UrlCache.t) (url : string) (e : UrlCache.CacheEntry) :
  UrlCache.cache c !! url = Some e →
  (now - UrlCache.timestamp e > UrlCache.ttlMs c)%Z →
  UrlCache.get now c url =
    (None, {| UrlCache.cache := delete url (UrlCache.cache c);
              UrlCache.ttlMs := UrlCache.ttlMs c |}).
Proof.
  intros H Hage. unfold UrlCache.get. rewrite H.
  destruct (Z.gtb_spec (now - UrlCache.timestamp e) (UrlCache.ttlMs c)); [done | lia].
Qed.

(** After a [get] that returned nothing, the URL has no entry. *)
Lemma get_miss_lookup (now : Z) (c : UrlCache.t) (url : string) :
  (UrlCache.get now c url).1 = None →
  UrlCache.cache (UrlCache.get now c url).2 !! url = None.
Proof.
  unfold UrlCache.get. destruct (UrlCache.cache c !! url) as [e|] eqn:H; simpl.
  - destruct (_ >? _)%Z; simpl; [intros _; apply lookup_delete_eq | discriminate].
  - by intros _.
Qed.

(** After a [get] that returned an entry, the cache is unchanged and still
    holds that entry. *)
Lemma get_hit (now : Z) (c : UrlCache.t) (url : string) (e : UrlCache.CacheEntry) :
  (UrlCache.get now c url).1 = Some e →
  UrlCache.get now c url = (Some e, c) ∧ UrlCache.cache c !! url = Some e.
Proof.
  unfold UrlCache.get. destruct (UrlCache.cache c !! url) as [e'|] eqn:H; simpl.
  - destruct (_ >? _)%Z; simpl; [discriminate | by intros [= ->]].
  - discriminate.
Qed.

(** A [get] that returns nothing leaves the cache without an entry for
    the URL and otherwise as it was. *)
Lemma get_miss_without (now : Z) (c : UrlCache.t) (url : string) :
  (UrlCache.get now c url).1 = None →
  (UrlCache.get now c url).2 = without url c.
Proof.
  unfold UrlCache.get, without.
  destruct (UrlCache.cache c !! url) as [e|] eqn:H; simpl.
  - destruct (_ >? _)%Z; simpl; [done | discriminate].
  - intros _. apply cache_eq; simpl; [| done]. by rewrite delete_id.
Qed.

Lemma set_ttl (now : Z) (c : UrlCache.t) (url : string) (r : UrlCache.Result) :
  UrlCache.ttlMs (UrlCache.set now c url r) = UrlCache.ttlMs c.
Proof. reflexivity. Qed.

(** C3, as the code has it. [get] returns an entry exactly when one is
    stored and [now - timestamp <= ttl]; an expired entry is deleted by the
    [get], which then returns nothing; a [get] for an absent URL leaves the
    cache as it was. A cache built with a TTL of zero keeps a TTL of zero
    through every [set], and returns an entry exactly while the clock has
    not advanced past the entry's timestamp. *)
Theorem cache_get_ttl (now : Z) (c : UrlCache.t) (url : string) :
  (∀ e, (UrlCache.get now c url).1 = Some e ↔
        UrlCache.cache c !! url = Some e ∧
        (now - UrlCache.timestamp e ≤ UrlCache.ttlMs c)%Z) ∧
  (∀ e, UrlCache.cache c !! url = Some e →
        (now - UrlCache.timestamp e > UrlCache.ttlMs c)%Z →
        UrlCache.get now c url =
          (None, {| UrlCache.cache := delete url (UrlCache.cache c);
                    UrlCache.ttlMs := UrlCache.ttlMs c |})) ∧
  (UrlCache.cache c !! url = None → UrlCache.get now c url = (None, c)) ∧
  UrlCache.ttlMs (UrlCache.make 0) = 0%Z ∧
  (UrlCache.ttlMs c = 0%Z →
     ∀ e, (UrlCache.get now c url).1 = Some e ↔
          UrlCache.cache c !! url = Some e ∧ (now ≤ UrlCache.timestamp e)%Z).
Proof.
  assert (Hiff : ∀ e, (UrlCache.get now c url).1 = Some e ↔
        UrlCache.cache c !! url = Some e ∧
        (now - UrlCache.timestamp e ≤ UrlCache.ttlMs c)%Z).
  { intros e. split.
    - unfold UrlCache.get. destruct (UrlCache.cache c !! url) as [e'|]; simpl.
      + destruct (Z.gtb_spec (now - UrlCache.timestamp e') (UrlCache.ttlMs c)); simpl.
        * discriminate.
        * intros [= ->]. split; [done | lia].
      + discriminate.
    - intros [H Hage]. by rewrite (get_fresh _ _ _ _ H Hage). }
  split; [exact Hiff |]. split; [apply get_expired |]. split; [apply get_absent |].
  split; [reflexivity |].
  intros Hz e. rewrite Hiff, Hz. split; intros [H1 H2]; (split; [done | lia]).
Qed.

Lemma cache_get_ttl_witness :
  (UrlCache.get 1000 (UrlCache.set 1000 (UrlCache.make 0) "http://a/x.png" sampleResult)
     "http://a/x.png").1
  = Some {| UrlCache.isValid := true; UrlCache.statusCode := Some 200%Z;
            UrlCache.statusText := Some "OK"; UrlCache.error := None;
            UrlCache.timestamp := 1000 |}.
Proof.
  apply (cache_get_ttl 1000
           (UrlCache.set 1000 (UrlCache.make 0) "http://a/x.png" sampleResult)
           "http://a/x.png").
  - reflexivity.
  - split; [vm_compute; reflexivity | vm_compute; discriminate].
Defined.

(** C3 as stated fails: with a TTL of zero, an entry read at the very clock
    reading at which it was stored is returned, not treated as expired. *)
Lemma ttl_zero_entry_returned :
  UrlCache.ttlMs (UrlCache.set 1000 (UrlCache.make 0) "http://a/x.png" sampleResult) = 0%Z ∧
  (UrlCache.get 1000 (UrlCache.set 1000 (UrlCache.make 0) "http://a/x.png" sampleResult)
     "http://a/x.png").1 ≠ None.
Proof. split; [reflexivity | vm_compute; discriminate]. Qed.

(** ** What a probe can and cannot change *)

Lemma probed_refl (w : World) : probed w w.
Proof.
  repeat split; auto. exists []. split; [by rewrite app_nil_r | constructor].
Qed.

Lemma probed_trans (w1 w2 w3 : World) : probed w1 w2 → probed w2 w3 → probed w1 w3.
Proof.
  intros (Hc1 & Hl1 & Ha1 & evs1 & Hlog1 & Hf1) (Hc2 & Hl2 & Ha2 & evs2 & Hlog2 & Hf2).
  repeat split; [congruence | congruence | auto |].
  exists (evs1 ++ evs2). split.
  - by rewrite Hlog2, Hlog1, app_assoc.
  - by apply Forall_app.
Qed.

Lemma probed_request (r : Request) (t : Z) (w : World) :
  probed w (withNow t (record (Requested r) w)).
Proof.
  repeat split; auto. exists [Requested r]. split; [done | by repeat constructor].
Qed.

Lemma aborted_abort (c s : nat) (w : World) :
  aborted s w = true → aborted s (abort c w) = true.
Proof.
  unfold aborted, abort; simpl. intros H.
  destruct (controllers w !! s) as [b|] eqn:Hs; [subst b | discriminate].
  destruct (decide (c = s)) as [-> | Hne].
  - rewrite list_lookup_insert_eq; [done | by eapply lookup_lt_Some].
  - by rewrite list_lookup_insert_ne, Hs.
Qed.

Lemma probed_cancel (w : World) : probed w (cancel w).
Proof.
  unfold cancel. destruct (abortController w) as [c|]; [| apply probed_refl].
  repeat split; simpl.
  - apply length_insert.
  - intros s H. by apply (aborted_abort c) in H.
  - exists []. split; [by rewrite app_nil_r | constructor].
Qed.

Lemma makeRequest_probed fuel env u method hdrs timeout signal w res w' :
  makeRequest fuel env u method hdrs timeout signal w = Some (res, w') →
  probed w w'.
Proof.
  revert u w. induction fuel as [|fuel IH]; intros u w H; [discriminate |].
  simpl in H.
  destruct (aborted signal w); [injection H as _ <-; apply probed_refl |].
  destruct (url_origin env u); [| injection H as _ <-; apply probed_refl].
  destruct (respond env (log w) _) as [event t] eqn:Hr.
  pose proof (probed_request
    {| req_url := u; req_method := method; req_headers := hdrs; req_timeout := timeout |}
    t w) as Hreq.
  destruct event as [r | | err |].
  - destruct (redirectLocation r) as [location|].
    + simpl in H. destruct (url_resolve env location u); [| discriminate].
      apply IH in H. by eapply probed_trans.
    + by injection H as _ <-.
  - by injection H as _ <-.
  - by injection H as _ <-.
  - injection H as _ <-. eapply probed_trans; [exact Hreq | apply probed_cancel].
Qed.

(** A probe that found the signal aborted is rejected as cancelled before
    any request is sent. *)
Lemma makeRequest_signal_aborted fuel env u method hdrs timeout signal w :
  aborted signal w = true →
  makeRequest (S fuel) env u method hdrs timeout signal w
  = Some (Rejected (JsError "Request cancelled"), w).
Proof. intros H. simpl. by rewrite H. Qed.

(** A probe that resolved has sent its first request to the URL it was
    given, with the method and the headers it was given. *)
Lemma makeRequest_resolved_log fuel env u method hdrs timeout signal w response w' :
  makeRequest fuel env u method hdrs timeout signal w = Some (Resolved response, w') →
  ∃ evs, log w' = log w ++
    Requested {| req_url := u; req_method := method;
                 req_headers := hdrs; req_timeout := timeout |} :: evs.
Proof.
  destruct fuel as [|fuel]; [discriminate |]. simpl.
  destruct (aborted signal w); [discriminate |].
  destruct (url_origin env u); [| discriminate].
  destruct (respond env (log w) _) as [event t].
  set (rq := {| req_url := u |}).
  assert (Hgo : ∀ x, probed (withNow t (record (Requested rq) w)) x →
                ∃ evs, log x = log w ++ Requested rq :: evs).
  { intros x (_ & _ & _ & evs & Hlog & _). exists evs.
    rewrite Hlog. simpl. by rewrite <- app_assoc. }
  destruct event as [r | | err |]; try discriminate.
  destruct (redirectLocation r) as [location|]; simpl.
  - destruct (url_resolve env location u); [| discriminate].
    intros H. apply Hgo. by eapply makeRequest_probed.
  - intros [= _ <-]. apply Hgo, probed_refl.
Qed.

(** More fuel never changes a settled probe. *)
Lemma makeRequest_fuel_mono fuel fuel' env u method hdrs timeout signal w r :
  fuel ≤ fuel' →
  makeRequest fuel env u method hdrs timeout signal w = Some r →
  makeRequest fuel' env u method hdrs timeout signal w = Some r.
Proof.
  revert fuel' u w. induction fuel as [|fuel IH]; intros fuel' u w Hle H; [discriminate |].
  destruct fuel' as [|fuel']; [lia |]. simpl in *.
  destruct (aborted signal w); [done |].
  destruct (url_origin env u); [| done].
  destruct (respond env (log w) _) as [event t].
  destruct event as [res | | err |]; try done.
  destruct (redirectLocation res) as [location|]; [| done].
  simpl in *. destruct (url_resolve env location u); [| done].
  apply IH; [lia | done].
Qed.

(** ** The redirect bound *)

(** C5, the code at a chain of six 301 redirects: the probe follows all
    six and resolves with the 200 response of the seventh request; the
    sixth redirect response is not returned. The probe of the
    specification stops after five redirects and returns the sixth 301. *)
Theorem makeRequest_follows_sixth_redirect :
  (∃ w',
     makeRequest 7 chainEnv "http://h/0" HEAD ∅ 5000 0 world0
       = Some (Resolved (deliver HEAD found), w') ∧
     requestsSent w' =
       ["http://h/0"; "http://h/1"; "http://h/2"; "http://h/3"; "http://h/4";
        "http://h/5"; "http://h/6"]) ∧
  (∃ w',
     spec_makeRequest 7 chainEnv 0 "http://h/0" HEAD ∅ 5000 0 world0
       = Some (Resolved (deliver HEAD (redirectTo "http://h/6")), w') ∧
     requestsSent w' =
       ["http://h/0"; "http://h/1"; "http://h/2"; "http://h/3"; "http://h/4";
        "http://h/5"]) ∧
  Http.statusCode (deliver HEAD found) = 200%Z ∧
  Http.statusCode (deliver HEAD (redirectTo "http://h/6")) = 301%Z.
Proof.
  split; [| split; [| split; reflexivity]].
  - eexists. split; [vm_compute; reflexivity | vm_compute; reflexivity].
  - eexists. split; [vm_compute; reflexivity | vm_compute; reflexivity].
Qed.

(** On a redirect loop the probe never settles, whatever the fuel: no
    count ever reaches the bound. *)
Lemma makeRequest_redirect_loop fuel u method hdrs timeout signal w :
  u ≠ "" →
  aborted signal w = false →
  makeRequest fuel loopEnv u method hdrs timeout signal w = None.
Proof.
  intros Hu. revert w. induction fuel as [|fuel IH]; intros w Hw; [reflexivity |].
  simpl. rewrite Hw.
  replace (redirectLocation (redirectTo u)) with (Some u).
  2:{ unfold redirectLocation, redirectTo. simpl. rewrite lookup_singleton_eq.
      by destruct u. }
  simpl. apply IH. exact Hw.
Qed.

(** A redirect whose target [new URL] rejects: the response callback
    throws before it settles the promise, and the probe never settles,
    whatever the fuel. *)
Lemma makeRequest_unresolvable_redirect
    fuel env u method hdrs timeout signal w res location t o :
  aborted signal w = false →
  url_origin env u = Some o →
  respond env (log w) {| req_url := u; req_method := method;
                         req_headers := hdrs; req_timeout := timeout |}
    = (OnResponse res, t) →
  redirectLocation res = Some location →
  url_resolve env location u = None →
  makeRequest fuel env u method hdrs timeout signal w = None.
Proof.
  intros Ha Ho Hr Hl Hu. destruct fuel as [|fuel]; [reflexivity |].
  simpl. by rewrite Ha, Ho, Hr, Hl, Hu.
Qed.

(** ** The per-URL validator *)

Lemma validateUrl_hit fuel env cfg u signal w e :
  (UrlCache.get (now w) (cache w) u).1 = Some e →
  validateUrl fuel env cfg u signal w = Some (fromEntry u e, afterLookup u w).
Proof.
  intros H. unfold validateUrl, afterLookup.
  destruct (UrlCache.get (now w) (cache w) u) as [cached c]. simpl in H. by subst cached.
Qed.

Lemma validateUrl_miss fuel env cfg u signal w :
  miss u w →
  validateUrl fuel env cfg u signal w =
  match headProbe fuel env cfg u signal (afterLookup u w) with
  | None => None
  | Some (Rejected err, w1) => Some (handleError u err w1)
  | Some (Resolved response, w1) =>
      let sc := Http.statusCode response in
      if inRange sc then Some (cacheAndReturn u true sc (Http.statusText response) w1)
      else if includesZ BROKEN_STATUS_CODES sc then
        Some (cacheAndReturn u false sc (Http.statusText response) w1)
      else if ((sc =? 403) || (sc =? 405))%Z then
        match getProbe fuel env cfg u signal w1 with
        | None => None
        | Some (Rejected err, w2) => Some (handleError u err w2)
        | Some (Resolved response', w2) =>
            let sc' := Http.statusCode response' in
            if inRange sc' then
              Some (cacheAndReturn u true sc' (Http.statusText response') w2)
            else if (sc' =? 403)%Z then
              if isCdnErrorResponse response'
              then Some (cacheAndReturn u false sc' "Not Found (CDN)" w2)
              else Some (cacheAndReturn u true sc' "Protected" w2)
            else Some (generalRule u response' w2)
        end
      else Some (generalRule u response w1)
  end.
Proof.
  unfold miss, validateUrl, afterLookup, headProbe, getProbe.
  destruct (UrlCache.get (now w) (cache w) u) as [cached c]. simpl.
  by intros ->.
Qed.

Lemma inRange_spec (sc : Z) : inRange sc = true ↔ (200 ≤ sc < 400)%Z.
Proof. unfold inRange. rewrite andb_true_iff, Z.leb_le, Z.ltb_lt. tauto. Qed.

Lemma inRange_false (sc : Z) : inRange sc = false ↔ ¬ (200 ≤ sc < 400)%Z.
Proof. rewrite <- inRange_spec. destruct (inRange sc); split; congruence. Qed.

Lemma broken_spec (sc : Z) :
  includesZ BROKEN_STATUS_CODES sc = true ↔ sc = 404%Z ∨ sc = 410%Z.
Proof.
  unfold includesZ, BROKEN_STATUS_CODES. simpl.
  rewrite !orb_true_iff, !Z.eqb_eq. intuition congruence.
Qed.

Lemma broken_false (sc : Z) :
  includesZ BROKEN_STATUS_CODES sc = false ↔ sc ≠ 404%Z ∧ sc ≠ 410%Z.
Proof.
  pose proof (broken_spec sc) as H.
  destruct (includesZ BROKEN_STATUS_CODES sc); split; intros; try tauto; try congruence.
  split; intros ->; assert (false = true) by tauto; discriminate.
Qed.

Lemma escalates_spec (sc : Z) :
  ((sc =? 403) || (sc =? 405))%Z = true ↔ sc = 403%Z ∨ sc = 405%Z.
Proof. rewrite orb_true_iff, !Z.eqb_eq. tauto. Qed.

(** When the response callback of the HEAD probe throws on the target of
    a redirect, the validation returns no outcome: nothing settles the
    probe, and [handleError] is never reached. *)
Lemma validateUrl_unresolvable_redirect
    fuel env cfg u signal w res location t o :
  miss u w →
  aborted signal w = false →
  url_origin env u = Some o →
  respond env (log (afterLookup u w)) (headRequest env cfg u) = (OnResponse res, t) →
  redirectLocation res = Some location →
  url_resolve env location u = None →
  validateUrl fuel env cfg u signal w = None.
Proof.
  intros Hm Ha Ho Hr Hl Hu. rewrite (validateUrl_miss _ _ _ _ _ _ Hm).
  unfold headProbe.
  by rewrite (makeRequest_unresolvable_redirect fuel env u HEAD _ _ signal
                (afterLookup u w) res location t o Ha Ho Hr Hl Hu).
Qed.

Example validateUrl_bad_redirect fuel :
  validateUrl fuel badRedirect defaultConfig "https://a.example/a.png" 0 world0 = None.
Proof.
  eapply validateUrl_unresolvable_redirect; [vm_compute | ..]; reflexivity.
Qed.

(** Every rejection of a probe is caught and handed to [handleError]. *)
Lemma validateUrl_catches fuel env cfg u signal w err w1 :
  miss u w →
  probesFail fuel env cfg u signal w err w1 →
  validateUrl fuel env cfg u signal w = Some (handleError u err w1).
Proof.
  intros Hm Hf. rewrite (validateUrl_miss _ _ _ _ _ _ Hm).
  destruct Hf as [-> | (r & wh & -> & Hsc & Hget)]; [done |].
  cbv zeta. rewrite Hget.
  destruct Hsc as [-> | ->]; reflexivity.
Qed.

(** The shape of every run of [validateUrl] that returns: a cache hit, a
    caught rejection, or a classified response. A response classified as
    valid has a status in [[200, 400)] or the status 403. *)
Lemma validateUrl_inv fuel env cfg u signal w o w' :
  validateUrl fuel env cfg u signal w = Some (o, w') →
  (∃ e, (UrlCache.get (now w) (cache w) u).1 = Some e ∧
        o = fromEntry u e ∧ w' = afterLookup u w) ∨
  (miss u w ∧ ∃ err w1,
        probesFail fuel env cfg u signal w err w1 ∧ probed (afterLookup u w) w1 ∧
        (o, w') = handleError u err w1) ∨
  (miss u w ∧ ∃ valid sc st w1,
        probed (afterLookup u w) w1 ∧
        (o, w') = cacheAndReturn u valid sc st w1 ∧
        (valid = true → inRange sc = true ∨ sc = 403%Z) ∧
        (valid = false → inRange sc = false)).
Proof.
  destruct (UrlCache.get (now w) (cache w) u).1 as [e|] eqn:Hget.
  { rewrite (validateUrl_hit _ _ _ _ _ _ _ Hget). intros [= <- <-]. left. by exists e. }
  rewrite (validateUrl_miss _ _ _ _ _ _ Hget). intros H. right.
  assert (Hclassified : ∀ valid sc st w1,
            probed (afterLookup u w) w1 →
            Some (cacheAndReturn u valid sc st w1) = Some (o, w') →
            (valid = true → inRange sc = true ∨ sc = 403%Z) →
            (valid = false → inRange sc = false) →
            miss u w ∧ ∃ valid sc st w1,
              probed (afterLookup u w) w1 ∧
              (o, w') = cacheAndReturn u valid sc st w1 ∧
              (valid = true → inRange sc = true ∨ sc = 403%Z) ∧
              (valid = false → inRange sc = false)).
  { intros valid sc st w1 Hp Heq Hv Hnv. apply (inj Some) in Heq.
    split; [exact Hget |]. exists valid, sc, st, w1. by rewrite Heq. }
  assert (Hfailed : ∀ err w1,
            probesFail fuel env cfg u signal w err w1 →
            probed (afterLookup u w) w1 →
            Some (handleError u err w1) = Some (o, w') →
            miss u w ∧ ∃ err w1,
              probesFail fuel env cfg u signal w err w1 ∧ probed (afterLookup u w) w1 ∧
              (o, w') = handleError u err w1).
  { intros err w1 Hf Hp Heq. apply (inj Some) in Heq.
    split; [exact Hget |]. exists err, w1. by rewrite Heq. }
  destruct (headProbe _ _ _ _ _ _) as [[[r | err] w1]|] eqn:Hhead; [| | discriminate].
  2:{ left. apply (Hfailed err w1); [by left | by eapply makeRequest_probed | exact H]. }
  pose proof (makeRequest_probed _ _ _ _ _ _ _ _ _ _ Hhead) as Hp1.
  cbv zeta in H.
  destruct (inRange (Http.statusCode r)) eqn:Hin.
  { right. eapply Hclassified; [exact Hp1 | exact H | auto | discriminate]. }
  destruct (includesZ BROKEN_STATUS_CODES (Http.statusCode r)) eqn:Hbr.
  { right. eapply Hclassified; [exact Hp1 | exact H | discriminate | auto]. }
  destruct ((_ =? 403) || _)%Z eqn:Hesc.
  2:{ right. unfold generalRule in H. rewrite Hin in H.
      eapply Hclassified; [exact Hp1 | exact H | discriminate | auto]. }
  apply escalates_spec in Hesc.
  destruct (getProbe _ _ _ _ _ _) as [[[r' | err] w2]|] eqn:Hg; [| | discriminate].
  2:{ left. apply (Hfailed err w2); [| | exact H].
      - right. by exists r, w1.
      - eapply probed_trans; [exact Hp1 | by eapply makeRequest_probed]. }
  assert (Hp2 : probed (afterLookup u w) w2).
  { eapply probed_trans; [exact Hp1 | by eapply makeRequest_probed]. }
  right.
  destruct (inRange (Http.statusCode r')) eqn:Hin'.
  { eapply Hclassified; [exact Hp2 | exact H | auto | discriminate]. }
  destruct (Http.statusCode r' =? 403)%Z eqn:H403.
  - apply Z.eqb_eq in H403.
    destruct (isCdnErrorResponse r').
    + eapply Hclassified; [exact Hp2 | exact H | discriminate | auto].
    + eapply Hclassified; [exact Hp2 | exact H | auto | discriminate].
  - unfold generalRule in H. rewrite Hin' in H.
    eapply Hclassified; [exact Hp2 | exact H | discriminate | auto].
Qed.

Lemma cacheAndReturn_outcome u valid sc st w :
  (cacheAndReturn u valid sc st w).1 = outcome u valid sc st.
Proof. reflexivity. Qed.

(** C1. A URL that is not served from the cache and whose HEAD probe
    resolves with status [S] is classified by the table: [S] in
    [[200,400)] is valid; 404 and 410 are broken with that status code;
    403 and 405 lead to a GET probe carrying [Range: bytes=0-1023], and
    when that probe resolves with status [S'], a status in [[200,400)] is
    valid, 403 with a CDN error body is broken with the text
    "Not Found (CDN)", 403 without one is valid with the text "Protected",
    and any other status is valid exactly when it lies in [[200,400)];
    any other [S] is valid exactly when it lies in [[200,400)]. *)
Theorem status_classification fuel env cfg u signal w r w1 :
  miss u w →
  headProbe fuel env cfg u signal (afterLookup u w) = Some (Resolved r, w1) →
  let S := Http.statusCode r in
  let result := fst <$> validateUrl fuel env cfg u signal w in
  ((200 ≤ S < 400)%Z → result = Some (outcome u true S (Http.statusText r))) ∧
  (S = 404%Z ∨ S = 410%Z → result = Some (outcome u false S (Http.statusText r))) ∧
  (S = 403%Z ∨ S = 405%Z →
     rangeHeaders env u !! "Range" = Some "bytes=0-1023" ∧
     ∀ r' w2,
       getProbe fuel env cfg u signal w1 = Some (Resolved r', w2) →
       let S' := Http.statusCode r' in
       (∃ evs, log w2 = log w1 ++
          Requested {| req_url := u; req_method := GET;
                       req_headers := rangeHeaders env u;
                       req_timeout := timeoutMs cfg |} :: evs) ∧
       ((200 ≤ S' < 400)%Z → result = Some (outcome u true S' (Http.statusText r'))) ∧
       (S' = 403%Z → isCdnErrorResponse r' = true →
          result = Some (outcome u false 403 "Not Found (CDN)")) ∧
       (S' = 403%Z → isCdnErrorResponse r' = false →
          result = Some (outcome u true 403 "Protected")) ∧
       (¬ (200 ≤ S' < 400)%Z → S' ≠ 403%Z →
          result = Some (outcome u (inRange S') S' (Http.statusText r')) ∧
          inRange S' = false)) ∧
  (¬ (200 ≤ S < 400)%Z → S ≠ 404%Z → S ≠ 410%Z → S ≠ 403%Z → S ≠ 405%Z →
     result = Some (outcome u (inRange S) S (Http.statusText r)) ∧
     inRange S = false).
Proof.
  intros Hm Hhead S result. subst result S.
  rewrite (validateUrl_miss _ _ _ _ _ _ Hm), Hhead. cbv zeta.
  set (S := Http.statusCode r).
  split; [| split; [| split]].
  - intros HS. apply inRange_spec in HS. by rewrite HS.
  - intros HS. assert (inRange S = false) as -> by (apply inRange_false; lia).
    apply broken_spec in HS. by rewrite HS.
  - intros HS. split; [apply lookup_insert_eq |].
    intros r' w2 Hget.
    assert (inRange S = false) as -> by (apply inRange_false; lia).
    assert (includesZ BROKEN_STATUS_CODES S = false) as -> by (apply broken_false; lia).
    apply escalates_spec in HS. rewrite HS, Hget.
    split; [by eapply makeRequest_resolved_log |].
    split; [| split; [| split]].
    + intros HS'. apply inRange_spec in HS'. by rewrite HS'.
    + intros HS' Hcdn. rewrite HS', Hcdn. reflexivity.
    + intros HS' Hcdn. rewrite HS', Hcdn. reflexivity.
    + intros HS' Hne. apply inRange_false in HS'. rewrite HS'.
      apply Z.eqb_neq in Hne. rewrite Hne. unfold generalRule.
      by rewrite HS'.
  - intros HS H404 H410 H403 H405. apply inRange_false in HS. rewrite HS.
    assert (includesZ BROKEN_STATUS_CODES S = false) as -> by (by apply broken_false).
    apply Z.eqb_neq in H403, H405. rewrite H403, H405. unfold generalRule. fold S.
    by rewrite HS.
Qed.

Lemma status_classification_witness :
  fst <$> validateUrl 1 cdnMissing defaultConfig "https://cdn.example/a.png" 0 world0
  = Some (outcome "https://cdn.example/a.png" false 403 "Not Found (CDN)").
Proof.
  edestruct (status_classification 1 cdnMissing defaultConfig
               "https://cdn.example/a.png" 0%nat world0) as (_ & _ & H & _).
  - vm_compute. reflexivity.
  - unfold headProbe. simpl. reflexivity.
  - edestruct H as [_ H']; [left; reflexivity |].
    edestruct H' as (_ & _ & Hcdn & _).
    + unfold getProbe. simpl. reflexivity.
    + apply Hcdn; [reflexivity | vm_compute; reflexivity].
Defined.

(** The rows of the concrete classification table. *)
Example table_head_200 :
  verdict (tableEnv 200 0 "" "")
  = Some (outcome "https://cdn.example/a.png" true 200 "head").
Proof. vm_compute. reflexivity. Qed.

Example table_head_404 :
  verdict (tableEnv 404 0 "" "")
  = Some (outcome "https://cdn.example/a.png" false 404 "head").
Proof. vm_compute. reflexivity. Qed.

Example table_head_410 :
  verdict (tableEnv 410 0 "" "")
  = Some (outcome "https://cdn.example/a.png" false 410 "head").
Proof. vm_compute. reflexivity. Qed.

Example table_head_403_get_200 :
  verdict (tableEnv 403 200 "image/png" "")
  = Some (outcome "https://cdn.example/a.png" true 200 "get").
Proof. vm_compute. reflexivity. Qed.

Example table_head_403_get_403_missing :
  verdict (tableEnv 403 403 "application/xml" "<Error><Code>NoSuchKey</Code></Error>")
  = Some (outcome "https://cdn.example/a.png" false 403 "Not Found (CDN)").
Proof. vm_compute. reflexivity. Qed.

Example table_head_403_get_403_protected :
  verdict (tableEnv 403 403 "application/octet-stream" "")
  = Some (outcome "https://cdn.example/a.png" true 403 "Protected").
Proof. vm_compute. reflexivity. Qed.

Example table_head_405_get_500 :
  verdict (tableEnv 405 500 "text/html" "oops")
  = Some (outcome "https://cdn.example/a.png" false 500 "get").
Proof. vm_compute. reflexivity. Qed.

Example table_head_500 :
  verdict (tableEnv 500 0 "" "")
  = Some (outcome "https://cdn.example/a.png" false 500 "head").
Proof. vm_compute. reflexivity. Qed.

(** ** Transport failures *)

Lemma handleError_failed u err w :
  err ≠ JsError "Request cancelled" →
  ∃ msg, handleError u err w = cacheError u msg w ∧
    (err = JsError "Request timeout" → msg = "Request timeout") ∧
    (∀ m, err = JsError m → m ≠ "Request timeout" → occursIn "ENOTFOUND" m →
          msg = "Domain not found") ∧
    (∀ m, err = JsError m → m ≠ "Request timeout" → ¬ occursIn "ENOTFOUND" m →
          occursIn "ECONNREFUSED" m → msg = "Connection refused") ∧
    (∀ m, err = JsError m → m ≠ "Request timeout" → ¬ occursIn "ENOTFOUND" m →
          ¬ occursIn "ECONNREFUSED" m → m ≠ "" → msg = m) ∧
    (err = JsError "" → msg = "Network error") ∧
    (err = NotAnError → msg = "Unknown error").
Proof.
  intros Hnc. destruct err as [m|].
  2:{ exists "Unknown error". repeat split; try discriminate; reflexivity. }
  exists (errorMessageOf m). split.
  { unfold handleError. destruct (decide (m = "Request cancelled")); congruence. }
  unfold errorMessageOf.
  split; [| split; [| split; [| split; [| split]]]].
  - by intros [= ->].
  - intros m' [= <-] Hto Hdns. apply includes_true in Hdns.
    destruct (decide (m = "Request timeout")); [done |]. by rewrite Hdns.
  - intros m' [= <-] Hto Hdns Hrf. apply includes_false in Hdns. apply includes_true in Hrf.
    destruct (decide (m = "Request timeout")); [done |]. by rewrite Hdns, Hrf.
  - intros m' [= <-] Hto Hdns Hrf Hne.
    apply includes_false in Hdns. apply includes_false in Hrf.
    destruct (decide (m = "Request timeout")); [done |]. rewrite Hdns, Hrf.
    by destruct m.
  - by intros [= ->].
  - discriminate.
Qed.

Lemma cancel_log (w : World) : log (cancel w) = log w.
Proof. unfold cancel. by destruct (abortController w). Qed.

(** What a probe settles to goes back to the event that the network
    delivered for the last request of the probe: the timeout event
    rejects with the timeout error, the error event with the error it
    carries, an abort with the cancellation error. *)
Lemma makeRequest_endedBy fuel env u method hdrs timeout signal w s w1 event :
  makeRequest fuel env u method hdrs timeout signal w = Some (s, w1) →
  endedBy env w w1 event →
  match event with
  | OnTimeout => s = Rejected (JsError "Request timeout")
  | OnError e => s = Rejected e
  | OnAbort => s = Rejected (JsError "Request cancelled")
  | OnResponse _ => True
  end.
Proof.
  revert u w. induction fuel as [|fuel IH];
    intros u w H (evs & rq & t & Hlog & Hresp); [discriminate |].
  simpl in H.
  assert (Hnone : log w1 = log w → False).
  { intros Heq. rewrite Heq in Hlog. apply (f_equal length) in Hlog.
    rewrite !length_app in Hlog. simpl in Hlog. lia. }
  destruct (aborted signal w); [injection H as _ <-; by destruct Hnone |].
  destruct (url_origin env u); [| injection H as _ <-; by destruct Hnone].
  set (request := {| req_url := u |}) in *.
  destruct (respond env (log w) request) as [ev0 t0] eqn:Hr.
  assert (Hlast : log w1 = log w ++ [Requested request] → event = ev0).
  { intros Heq. rewrite Heq in Hlog. apply app_inv_head in Hlog.
    destruct evs as [|e evs]; simpl in Hlog.
    - injection Hlog as <-. rewrite app_nil_r, Hr in Hresp. by injection Hresp as <- _.
    - injection Hlog as _ Hlog. destruct evs; discriminate. }
  destruct ev0 as [r | | err |].
  - destruct (redirectLocation r) as [location|].
    + simpl in H. destruct (url_resolve env location u) as [newUrl|]; [| discriminate].
      pose proof (makeRequest_probed _ _ _ _ _ _ _ _ _ _ H) as (_ & _ & _ & evs2 & Hlog2 & _).
      simpl in Hlog2. rewrite Hlog, <- app_assoc in Hlog2. apply app_inv_head in Hlog2.
      destruct evs as [|e evs']; simpl in Hlog2.
      * injection Hlog2 as <- _. rewrite app_nil_r, Hr in Hresp.
        by injection Hresp as <- _.
      * injection Hlog2 as -> Hlog2. apply (IH _ _ H).
        exists evs', rq, t. split.
        -- rewrite Hlog. simpl. by rewrite <- app_assoc.
        -- simpl. by rewrite <- app_assoc.
    + injection H as <- <-. by rewrite (Hlast eq_refl).
  - injection H as <- <-. by rewrite (Hlast eq_refl).
  - injection H as <- <-. by rewrite (Hlast eq_refl).
  - injection H as <- <-. by rewrite (Hlast (cancel_log _)).
Qed.

Lemma probesFail_endedBy fuel env cfg u signal w err w1 event :
  probesFail fuel env cfg u signal w err w1 →
  endedBy env (afterLookup u w) w1 event →
  match event with
  | OnTimeout => err = JsError "Request timeout"
  | OnError e => err = e
  | OnAbort => err = JsError "Request cancelled"
  | OnResponse _ => True
  end.
Proof.
  intros [Hhead | (r & wh & Hhead & _ & Hget)] Hend.
  { pose proof (makeRequest_endedBy _ _ _ _ _ _ _ _ _ _ _ Hhead Hend) as H.
    destruct event; try done; by injection H. }
  pose proof (makeRequest_probed _ _ _ _ _ _ _ _ _ _ Hhead) as (_ & _ & _ & evsH & HlogH & _).
  pose proof (makeRequest_probed _ _ _ _ _ _ _ _ _ _ Hget) as (_ & _ & _ & evsG & HlogG & _).
  destruct Hend as (evs & rq & t & Hlog & Hresp).
  destruct evsG as [|x evsG _] using rev_ind.
  - rewrite app_nil_r in HlogG.
    assert (Hend : endedBy env (afterLookup u w) wh event).
    { exists evs, rq, t. by rewrite <- HlogG. }
    pose proof (makeRequest_endedBy _ _ _ _ _ _ _ _ _ _ _ Hhead Hend) as H.
    destruct event; done.
  - rewrite HlogG, HlogH in Hlog. rewrite !app_assoc in Hlog.
    apply app_inj_tail in Hlog as [Hpre ->].
    assert (Hend : endedBy env wh w1 event).
    { exists evsG, rq, t. split.
      - by rewrite HlogG.
      - rewrite HlogH, Hpre. exact Hresp. }
    pose proof (makeRequest_endedBy _ _ _ _ _ _ _ _ _ _ _ Hget Hend) as H.
    destruct event; try done; by injection H.
Qed.

(** C7, as the code has it. When the probing of a URL is rejected with
    anything but a cancellation, [validateUrl] still returns an outcome;
    it has [isValid = false] and an error message fixed as follows. When
    the probing ended with the timeout event of its last request the
    message is "Request timeout". When it ended with the error event, the
    rejection is the error that the event carries. The message is then
    chosen from the text of the error's message: "Request timeout" for
    that very text, "Domain not found" for a text containing ENOTFOUND,
    "Connection refused" for one containing ECONNREFUSED, otherwise the
    text itself, "Network error" when the text is empty, and "Unknown
    error" when the rejected value is not an [Error]. *)
Theorem transport_failure_normalized fuel env cfg u signal w err w1 :
  miss u w →
  probesFail fuel env cfg u signal w err w1 →
  err ≠ JsError "Request cancelled" →
  ∃ msg w',
    validateUrl fuel env cfg u signal w = Some (failed u msg, w') ∧
    (endedBy env (afterLookup u w) w1 OnTimeout → msg = "Request timeout") ∧
    (∀ e, endedBy env (afterLookup u w) w1 (OnError e) → err = e) ∧
    (err = JsError "Request timeout" → msg = "Request timeout") ∧
    (∀ m, err = JsError m → m ≠ "Request timeout" → occursIn "ENOTFOUND" m →
          msg = "Domain not found") ∧
    (∀ m, err = JsError m → m ≠ "Request timeout" → ¬ occursIn "ENOTFOUND" m →
          occursIn "ECONNREFUSED" m → msg = "Connection refused") ∧
    (∀ m, err = JsError m → m ≠ "Request timeout" → ¬ occursIn "ENOTFOUND" m →
          ¬ occursIn "ECONNREFUSED" m → m ≠ "" → msg = m) ∧
    (err = JsError "" → msg = "Network error") ∧
    (err = NotAnError → msg = "Unknown error").
Proof.
  intros Hm Hf Hnc.
  destruct (handleError_failed u err w1 Hnc) as (msg & Heq & Hrest).
  exists msg, (cacheError u msg w1).2.
  split; [| split; [| split; [| exact Hrest]]].
  - rewrite (validateUrl_catches _ _ _ _ _ _ _ _ Hm Hf), Heq. reflexivity.
  - intros Hend. apply (proj1 Hrest).
    exact (probesFail_endedBy _ _ _ _ _ _ _ _ _ Hf Hend).
  - intros e Hend. exact (probesFail_endedBy _ _ _ _ _ _ _ _ _ Hf Hend).
Qed.

Lemma transport_failure_normalized_witness :
  fst <$> validateUrl 1 dnsFailure defaultConfig "https://nosuch.example/a.png" 0 world0
  = Some (failed "https://nosuch.example/a.png" "Domain not found") ∧
  fst <$> validateUrl 1 silentHost defaultConfig "https://slow.example/a.png" 0 world0
  = Some (failed "https://slow.example/a.png" "Request timeout").
Proof.
  split.
  - edestruct (transport_failure_normalized 1 dnsFailure defaultConfig
                 "https://nosuch.example/a.png" 0%nat world0)
      as (msg & w' & Hrun & _ & Herr & _ & Hdns & _).
    + vm_compute. reflexivity.
    + left. unfold headProbe. simpl. reflexivity.
    + discriminate.
    + rewrite Hrun. simpl. f_equal. f_equal.
      eapply Hdns; [apply Herr; eexists [], _, _; split; reflexivity
                   | discriminate | by exists "getaddrinfo ", " nosuch.example"].
  - edestruct (transport_failure_normalized 1 silentHost defaultConfig
                 "https://slow.example/a.png" 0%nat world0)
      as (msg & w' & Hrun & Htimeout & _).
    + vm_compute. reflexivity.
    + left. unfold headProbe. simpl. reflexivity.
    + discriminate.
    + rewrite Hrun. simpl. f_equal. f_equal.
      apply Htimeout. eexists [], _, _. split; reflexivity.
Defined.

(** C7 as stated fails: an [Error] without a message is reported as
    "Network error", neither as "Unknown error" nor with its own (empty)
    message. *)
Lemma handleError_empty_message :
  error (handleError "https://a.example/a.png" (JsError "") world0).1 = Some "Network error" ∧
  spec_errorMessage (JsError "") = "Unknown error" ∧
  error (handleError "https://a.example/a.png" (JsError "") world0).1
    ≠ Some (spec_errorMessage (JsError "")) ∧
  error (handleError "https://a.example/a.png" (JsError "") world0).1 ≠ Some "".
Proof. split; [reflexivity | split; [reflexivity | split; discriminate]]. Qed.

(** The events the network can deliver map onto thrown values as follows. *)
Lemma makeRequest_timeout fuel env u method hdrs timeout signal w t o :
  aborted signal w = false →
  url_origin env u = Some o →
  respond env (log w) {| req_url := u; req_method := method;
                         req_headers := hdrs; req_timeout := timeout |} = (OnTimeout, t) →
  ∃ w1, makeRequest (S fuel) env u method hdrs timeout signal w
        = Some (Rejected (JsError "Request timeout"), w1).
Proof. intros Ha Ho Hr. simpl. rewrite Ha, Ho, Hr. by eexists. Qed.

Lemma makeRequest_abort fuel env u method hdrs timeout signal w t o :
  aborted signal w = false →
  url_origin env u = Some o →
  respond env (log w) {| req_url := u; req_method := method;
                         req_headers := hdrs; req_timeout := timeout |} = (OnAbort, t) →
  ∃ w1, makeRequest (S fuel) env u method hdrs timeout signal w
        = Some (Rejected (JsError "Request cancelled"), w1).
Proof. intros Ha Ho Hr. simpl. rewrite Ha, Ho, Hr. by eexists. Qed.

(** ** Cancellation *)

Lemma cacheWrites_requests (evs : list Event) :
  Forall isRequest evs → cacheWrites evs = [].
Proof.
  induction 1 as [|e evs He _ IH]; [done |].
  destruct e; done.
Qed.

Lemma cacheGets_requests (evs : list Event) :
  Forall isRequest evs → cacheGets evs = [].
Proof.
  induction 1 as [|e evs He _ IH]; [done |].
  destruct e; done.
Qed.

Lemma probed_cacheWrites (w w' : World) :
  probed w w' → cacheWrites (log w') = cacheWrites (log w).
Proof.
  intros (_ & _ & _ & evs & -> & Hf). unfold cacheWrites.
  rewrite omap_app. fold (cacheWrites evs).
  by rewrite (cacheWrites_requests _ Hf), app_nil_r.
Qed.

Lemma probed_cacheGets (w w' : World) :
  probed w w' → cacheGets (log w') = cacheGets (log w).
Proof.
  intros (_ & _ & _ & evs & -> & Hf). unfold cacheGets.
  rewrite omap_app. fold (cacheGets evs).
  by rewrite (cacheGets_requests _ Hf), app_nil_r.
Qed.

Lemma afterLookup_cacheWrites (u : string) (w : World) :
  cacheWrites (log (afterLookup u w)) = cacheWrites (log w).
Proof. unfold afterLookup, cacheWrites. simpl. by rewrite omap_app, app_nil_r. Qed.

Lemma afterLookup_cacheGets (u : string) (w : World) :
  cacheGets (log (afterLookup u w)) = cacheGets (log w) ++ [u].
Proof. unfold afterLookup, cacheGets. simpl. by rewrite omap_app. Qed.

Lemma cacheError_stored u msg w :
  ∃ e, UrlCache.cache (cache (cacheError u msg w).2) !! u = Some e ∧
       stored (cacheError u msg w).1 e ∧
       UrlCache.timestamp e = now (cacheError u msg w).2 ∧
       log (cacheError u msg w).2 = log w ++ [CacheSet u].
Proof.
  eexists. split; [apply lookup_insert_eq |]. by repeat split.
Qed.

Lemma cacheAndReturn_stored u valid sc st w :
  ∃ e, UrlCache.cache (cache (cacheAndReturn u valid sc st w).2) !! u = Some e ∧
       stored (cacheAndReturn u valid sc st w).1 e ∧
       UrlCache.timestamp e = now (cacheAndReturn u valid sc st w).2 ∧
       log (cacheAndReturn u valid sc st w).2 = log w ++ [CacheSet u].
Proof.
  eexists. split; [apply lookup_insert_eq |]. by repeat split.
Qed.

(** C4, as the code has it. A validation that ends in cancellation
    returns the outcome [isValid = true], [error = "Request cancelled"],
    in the very world in which the probe was rejected, and writes nothing
    to the cache: the log shows no new write, and the cache is the one
    left by the opening lookup, that is the cache as it was without an
    entry for the URL. It is the cache as it was exactly when the URL had
    no entry; otherwise the opening lookup has evicted the expired entry
    of the URL. Every other validation that returns leaves its outcome
    stored in the cache under the URL; unless it was a cache hit, the
    entry was written last, with the current clock reading. A validation
    returns as soon as its probes settle. *)
Theorem cancellation_never_cached fuel env cfg u signal w :
  (∀ w1,
     miss u w →
     probesFail fuel env cfg u signal w (JsError "Request cancelled") w1 →
     validateUrl fuel env cfg u signal w = Some (cancelledOutcome u, w1) ∧
     cache w1 = without u (cache w) ∧
     (cache w1 = cache w ↔ UrlCache.cache (cache w) !! u = None) ∧
     cacheWrites (log w1) = cacheWrites (log w)) ∧
  (∀ o w',
     validateUrl fuel env cfg u signal w = Some (o, w') →
     ¬ endsInCancellation fuel env cfg u signal w →
     ∃ e, UrlCache.cache (cache w') !! u = Some e ∧ stored o e ∧
          (miss u w →
             UrlCache.timestamp e = now w' ∧ ∃ evs, log w' = evs ++ [CacheSet u])) ∧
  ((miss u w → probesSettle fuel env cfg u signal w) →
   is_Some (validateUrl fuel env cfg u signal w)).
Proof.
  split; [| split].
  - intros w1 Hm Hf.
    assert (Hp : probed (afterLookup u w) w1).
    { destruct Hf as [H | (r & wh & H1 & _ & H2)].
      - by eapply makeRequest_probed.
      - eapply probed_trans; by eapply makeRequest_probed. }
    assert (Hc : cache w1 = without u (cache w)).
    { destruct Hp as (-> & _). unfold afterLookup. simpl. by apply get_miss_without. }
    split; [| split; [exact Hc | split]].
    + by rewrite (validateUrl_catches _ _ _ _ _ _ _ _ Hm Hf).
    + rewrite Hc. split.
      * intros <-. apply lookup_delete_eq.
      * intros Habs. apply cache_eq; simpl; [| done]. by rewrite delete_id.
    + by rewrite (probed_cacheWrites _ _ Hp), afterLookup_cacheWrites.
  - intros o w' Hrun Hnc.
    destruct (validateUrl_inv _ _ _ _ _ _ _ _ Hrun)
      as [(e & Hget & -> & ->) | [(Hm & err & w1 & Hf & Hp & Heq)
                                 | (Hm & valid & sc & st & w1 & Hp & Heq & _)]].
    + destruct (get_hit _ _ _ _ Hget) as [Heq Hin]. exists e.
      split; [| split; [done |]].
      * unfold afterLookup. by rewrite Heq.
      * unfold miss. rewrite Hget. discriminate.
    + destruct (decide (err = JsError "Request cancelled")) as [-> | Hne].
      { exfalso. apply Hnc. split; [done | by exists w1]. }
      destruct (handleError_failed u err w1 Hne) as (msg & Hh & _).
      rewrite Hh in Heq.
      destruct (cacheError_stored u msg w1) as (e & H1 & H2 & H3 & H4).
      rewrite <- Heq in H1, H2, H3, H4. simpl in *. exists e.
      split; [done |]. split; [done |]. intros _. split; [done |]. by eexists.
    + destruct (cacheAndReturn_stored u valid sc st w1) as (e & H1 & H2 & H3 & H4).
      rewrite <- Heq in H1, H2, H3, H4. simpl in *. exists e.
      split; [done |]. split; [done |]. intros _. split; [done |]. by eexists.
  - intros Hs.
    destruct (UrlCache.get (now w) (cache w) u).1 as [e|] eqn:Hget.
    { rewrite (validateUrl_hit _ _ _ _ _ _ _ Hget). by eexists. }
    rewrite (validateUrl_miss _ _ _ _ _ _ Hget).
    destruct (Hs Hget) as (s & wh & -> & Hnext).
    destruct s as [r | err]; [| by eexists].
    cbv zeta. destruct (inRange _); [by eexists |].
    destruct (includesZ _ _); [by eexists |].
    destruct (_ || _)%Z eqn:Hesc; [| by eexists].
    apply escalates_spec in Hesc.
    destruct (Hnext r eq_refl Hesc) as [[[r' | err] w2] ->]; [| by eexists].
    destruct (inRange _); [by eexists |].
    destruct (_ =? _)%Z; [| by eexists].
    destruct (isCdnErrorResponse r'); by eexists.
Qed.

Lemma cancellation_never_cached_witness :
  (∃ w',
     validateUrl 1 abortInFlight defaultConfig "https://cdn.example/a.png" 0 staleWorld
       = Some (cancelledOutcome "https://cdn.example/a.png", w') ∧
     cache w' = without "https://cdn.example/a.png" (cache staleWorld) ∧
     cacheWrites (log w') = []) ∧
  (∃ o w' e,
     validateUrl 1 cdnMissing defaultConfig "https://cdn.example/a.png" 0 world0
       = Some (o, w') ∧
     o = outcome "https://cdn.example/a.png" false 403 "Not Found (CDN)" ∧
     UrlCache.cache (cache w') !! "https://cdn.example/a.png" = Some e ∧
     stored o e).
Proof.
  split.
  - destruct (cancellation_never_cached 1 abortInFlight defaultConfig
                "https://cdn.example/a.png" 0%nat staleWorld) as (Hcancelled & _ & _).
    edestruct Hcancelled as (Hrun & Hcache & _ & Hwrites).
    + vm_compute. reflexivity.
    + left. vm_compute. reflexivity.
    + eexists. split; [exact Hrun |]. split; [exact Hcache | exact Hwrites].
  - destruct (cancellation_never_cached 1 cdnMissing defaultConfig
                "https://cdn.example/a.png" 0%nat world0) as (_ & Hstored & Hreturns).
    destruct Hreturns as [[o w'] Hrun].
    { intros _. eexists _, _. split; [vm_compute; reflexivity |].
      intros r [= <-] _. vm_compute. by eexists. }
    destruct (Hstored o w' Hrun) as (e & He & Hst & _).
    { intros [_ [w1 [H | (r & wh & H1 & _ & H2)]]].
      - vm_compute in H. discriminate H.
      - vm_compute in H1. injection H1 as <- <-.
        vm_compute in H2. discriminate H2. }
    exists o, w', e. split; [exact Hrun |]. split; [| split; [exact He | exact Hst]].
    vm_compute in Hrun. by injection Hrun as <- _.
Defined.

(** C4 as stated fails: a validation that ends in cancellation, started
    while the cache holds an expired entry for the URL, does not leave the
    cache unchanged; the lookup that opens the validation has evicted the
    entry. *)
Lemma cancelled_validation_evicts_expired :
  ∃ w',
    validateUrl 1 abortInFlight defaultConfig "https://cdn.example/a.png" 0 staleWorld
      = Some (cancelledOutcome "https://cdn.example/a.png", w') ∧
    endsInCancellation 1 abortInFlight defaultConfig "https://cdn.example/a.png" 0
      staleWorld ∧
    UrlCache.size (cache staleWorld) = 1 ∧
    UrlCache.size (cache w') = 0 ∧
    cache w' ≠ cache staleWorld.
Proof.
  eexists. split; [vm_compute; reflexivity |]. split; [| split; [| split]].
  - split; [vm_compute; reflexivity |]. eexists. left. vm_compute. reflexivity.
  - vm_compute. reflexivity.
  - vm_compute. reflexivity.
  - intros H. apply (f_equal UrlCache.size) in H. vm_compute in H. discriminate H.
Qed.

(** ** Frame facts of one validation *)

Lemma handleError_frame u err w :
  url (handleError u err w).1 = u ∧
  controllers (handleError u err w).2 = controllers w ∧
  cacheGets (log (handleError u err w).2) = cacheGets (log w).
Proof.
  destruct err as [m|]; unfold handleError; [destruct (decide _) |]; simpl;
    repeat split; unfold cacheGets; by rewrite ?omap_app, ?app_nil_r.
Qed.

Lemma cacheAndReturn_frame u valid sc st w :
  url (cacheAndReturn u valid sc st w).1 = u ∧
  controllers (cacheAndReturn u valid sc st w).2 = controllers w ∧
  cacheGets (log (cacheAndReturn u valid sc st w).2) = cacheGets (log w).
Proof.
  simpl. repeat split. unfold cacheGets. by rewrite omap_app, app_nil_r.
Qed.

Lemma aborted_controllers (s : nat) (w w' : World) :
  controllers w' = controllers w → aborted s w' = aborted s w.
Proof. unfold aborted. by intros ->. Qed.

(** One validation: the outcome carries the URL it was asked about, the
    cache was looked up exactly once, no controller was created and no
    abort was undone. *)
Lemma validateUrl_frame fuel env cfg u signal w o w' :
  validateUrl fuel env cfg u signal w = Some (o, w') →
  url o = u ∧
  length (controllers w') = length (controllers w) ∧
  (∀ s, aborted s w = true → aborted s w' = true) ∧
  cacheGets (log w') = cacheGets (log w) ++ [u].
Proof.
  intros Hrun.
  assert (Hgo : ∀ w1 (r : ValidationResult * World),
            probed (afterLookup u w) w1 →
            url r.1 = u → controllers r.2 = controllers w1 →
            cacheGets (log r.2) = cacheGets (log w1) →
            (o, w') = r →
            url o = u ∧
            length (controllers w') = length (controllers w) ∧
            (∀ s, aborted s w = true → aborted s w' = true) ∧
            cacheGets (log w') = cacheGets (log w) ++ [u]).
  { intros w1 r Hp Hu Hc Hg <-. simpl in *.
    pose proof (probed_cacheGets _ _ Hp) as Hg1.
    destruct Hp as (_ & Hlen & Hab & _).
    split; [done |]. split; [by rewrite Hc, Hlen |]. split.
    - intros s Hs. rewrite (aborted_controllers s _ _ Hc). by apply Hab.
    - by rewrite Hg, Hg1, afterLookup_cacheGets. }
  destruct (validateUrl_inv _ _ _ _ _ _ _ _ Hrun)
    as [(e & Hget & -> & ->) | [(Hm & err & w1 & Hf & Hp & Heq)
                               | (Hm & valid & sc & st & w1 & Hp & Heq & _)]].
  - split; [done |]. split; [done |]. split; [done |]. apply afterLookup_cacheGets.
  - apply (Hgo w1 (handleError u err w1)); try done; apply handleError_frame.
  - apply (Hgo w1 (cacheAndReturn u valid sc st w1)); try done;
      apply cacheAndReturn_frame.
Qed.

(** ** Consistency of outcomes *)

Lemma cacheConsistent_make (ttlMinutes : Z) : cacheConsistent (UrlCache.make ttlMinutes).
Proof. intros u e H. simpl in H. by rewrite lookup_empty in H. Qed.

Lemma cacheConsistent_clear (c : UrlCache.t) : cacheConsistent (UrlCache.clear c).
Proof. intros u e H. simpl in H. by rewrite lookup_empty in H. Qed.

Lemma cacheConsistent_cleanup (t : Z) (c : UrlCache.t) :
  cacheConsistent c → cacheConsistent (UrlCache.cleanup t c).
Proof.
  intros Hc u e H. simpl in H. apply map_lookup_filter_Some in H as [H _]. by eapply Hc.
Qed.

Lemma cacheConsistent_get (t : Z) (c : UrlCache.t) (u : string) :
  cacheConsistent c →
  cacheConsistent (UrlCache.get t c u).2 ∧
  ∀ e, (UrlCache.get t c u).1 = Some e → entryConsistent e.
Proof.
  intros Hc. split.
  - unfold UrlCache.get. destruct (UrlCache.cache c !! u) as [e|] eqn:He; [| done].
    destruct (_ >? _)%Z; [| done]. intros u' e' H. simpl in H.
    apply lookup_delete_Some in H as [_ H]. by eapply Hc.
  - intros e H. apply get_hit in H as [_ H]. by eapply Hc.
Qed.

Lemma cacheConsistent_set (t : Z) (c : UrlCache.t) (u : string) (r : UrlCache.Result) :
  cacheConsistent c →
  (UrlCache.r_statusCode r = Some 404%Z ∨ UrlCache.r_statusCode r = Some 410%Z →
   UrlCache.r_isValid r = false) →
  cacheConsistent (UrlCache.set t c u r).
Proof.
  intros Hc Hr u' e H. simpl in H.
  apply lookup_insert_Some in H as [[_ <-] | [_ H]]; [exact Hr | by eapply Hc].
Qed.

Lemma handleError_consistent u err w :
  cacheConsistent (cache w) →
  consistent (handleError u err w).1 ∧ cacheConsistent (cache (handleError u err w).2).
Proof.
  intros Hc.
  assert (He : ∀ msg, consistent (cacheError u msg w).1 ∧
                      cacheConsistent (cache (cacheError u msg w).2)).
  { intros msg. split; [intros [H | H]; discriminate H |].
    simpl. apply cacheConsistent_set; [done |]. simpl. intros [H | H]; discriminate H. }
  destruct err as [m|]; unfold handleError; [destruct (decide _) |]; auto.
  split; [intros [H | H]; discriminate H | done].
Qed.

Lemma validateUrl_consistent fuel env cfg u signal w o w' :
  cacheConsistent (cache w) →
  validateUrl fuel env cfg u signal w = Some (o, w') →
  consistent o ∧ cacheConsistent (cache w').
Proof.
  intros Hc Hrun.
  destruct (cacheConsistent_get (now w) (cache w) u Hc) as [Hc0 He0].
  destruct (validateUrl_inv _ _ _ _ _ _ _ _ Hrun)
    as [(e & Hget & -> & ->) | [(Hm & err & w1 & Hf & Hp & Heq)
                               | (Hm & valid & sc & st & w1 & Hp & Heq & Hv & Hnv)]].
  - split; [| exact Hc0]. apply (He0 e Hget).
  - destruct Hp as (Hcache & _).
    assert (Hc1 : cacheConsistent (cache w1)) by (by rewrite Hcache).
    destruct (handleError_consistent u err w1 Hc1) as [H1 H2].
    rewrite <- Heq in H1, H2. done.
  - destruct Hp as (Hcache & _).
    assert (Hc1 : cacheConsistent (cache w1)) by (by rewrite Hcache).
    assert (Hok : Some sc = Some 404%Z ∨ Some sc = Some 410%Z → valid = false).
    { intros Hsc. destruct valid; [| done]. exfalso.
      destruct (Hv eq_refl) as [Hin | ->].
      - apply inRange_spec in Hin. destruct Hsc as [[= ->] | [= ->]]; lia.
      - destruct Hsc as [H | H]; discriminate H. }
    injection Heq as -> ->. split; [exact Hok |].
    simpl. by apply cacheConsistent_set.
Qed.

(** ** Deduplication and windows *)



Lemma setAdd_fold_length (urls acc : list string) :
  length (fold_left setAdd urls acc) ≤ length acc + length urls.
Proof.
  revert acc. induction urls as [|x urls IH]; intros acc; simpl; [lia |].
  etrans; [apply IH |]. unfold setAdd. case_bool_decide; [lia |].
  rewrite length_app. simpl. lia.
Qed.



Lemma uniq_length (urls : list string) : length (uniq urls) ≤ length urls.
Proof. unfold uniq. pose proof (setAdd_fold_length urls []). simpl in *. lia. Qed.


(** Consecutive windows tile the list. *)
Lemma slice_window {A} (l : list A) (i k : Z) :
  (0 ≤ i < Z.of_nat (length l))%Z → (0 < k)%Z →
  take (Z.to_nat i) l ++ slice l i (i + k) = take (Z.to_nat (i + k)) l.
Proof.
  intros Hi Hk. unfold slice, relIndex.
  destruct (Z.ltb_spec i 0); [lia |].
  destruct (Z.ltb_spec (i + k) 0); [lia |].
  rewrite (Z.min_l i) by lia.
  rewrite take_take_drop.
  destruct (Z.le_ge_cases (i + k) (Z.of_nat (length l))).
  - rewrite Z.min_l by lia. f_equal. lia.
  - rewrite Z.min_r by lia. rewrite !take_ge; [done | lia | lia].
Qed.

Lemma promiseAll_frame fuel env cfg batch signal w rs w' :
  promiseAll fuel env cfg batch signal w = Some (rs, w') →
  map url rs = batch ∧
  length (controllers w') = length (controllers w) ∧
  (∀ s, aborted s w = true → aborted s w' = true) ∧
  cacheGets (log w') = cacheGets (log w) ++ batch.
Proof.
  revert w rs w'. induction batch as [|u batch IH]; intros w rs w' H; simpl in H.
  - injection H as <- <-. by rewrite app_nil_r.
  - destruct (validateUrl fuel env cfg u signal w) as [[o w1]|] eqn:Hv; [| discriminate].
    destruct (promiseAll fuel env cfg batch signal w1) as [[os w2]|] eqn:Hp; [| discriminate].
    injection H as <- <-.
    destruct (validateUrl_frame _ _ _ _ _ _ _ _ Hv) as (Hu & Hl & Ha & Hg).
    destruct (IH _ _ _ Hp) as (Hus & Hl' & Ha' & Hg').
    simpl. split; [by rewrite Hu, Hus |]. split; [congruence |]. split; [auto |].
    by rewrite Hg', Hg, <- app_assoc.
Qed.

Lemma promiseAll_consistent fuel env cfg batch signal w rs w' :
  cacheConsistent (cache w) →
  promiseAll fuel env cfg batch signal w = Some (rs, w') →
  Forall consistent rs ∧ cacheConsistent (cache w').
Proof.
  revert w rs w'. induction batch as [|u batch IH]; intros w rs w' Hc H; simpl in H.
  - injection H as <- <-. by split.
  - destruct (validateUrl fuel env cfg u signal w) as [[o w1]|] eqn:Hv; [| discriminate].
    destruct (promiseAll fuel env cfg batch signal w1) as [[os w2]|] eqn:Hp; [| discriminate].
    injection H as <- <-.
    destruct (validateUrl_consistent _ _ _ _ _ _ _ _ Hc Hv) as [Ho Hc1].
    destruct (IH _ _ _ Hc1 Hp) as [Hos Hc2].
    split; [by constructor | done].
Qed.

(** The loop: the results always cover a prefix of the unique URLs, one
    cache lookup per result, and all of them unless the loop was left
    through the abort check. *)
Lemma windows_frame steps fuel env cfg l signal i results w rs w' gets :
  (0 < maxConcurrent cfg)%Z → (0 ≤ i)%Z →
  map url results = take (Z.to_nat i) l →
  cacheGets (log w) = gets ++ map url results →
  windows steps fuel env cfg l signal i results w = Some (rs, w') →
  (∃ n, map url rs = take n l) ∧
  cacheGets (log w') = gets ++ map url rs ∧
  length (controllers w') = length (controllers w) ∧
  (∀ s, aborted s w = true → aborted s w' = true) ∧
  (aborted signal w' = false → map url rs = l).
Proof.
  intros Hk. revert i results w.
  induction steps as [|steps IH]; intros i results w Hi Hres Hg H; [discriminate |].
  simpl in H. destruct (Z.ltb_spec i (Z.of_nat (length l))) as [Hlt | Hge].
  - destruct (aborted signal w) eqn:Hab.
    + injection H as <- <-. split; [by eexists |]. split; [done |].
      split; [done |]. split; [done |]. congruence.
    + destruct (promiseAll _ _ _ _ _ _) as [[batchResults w1]|] eqn:Hp; [| discriminate].
      destruct (promiseAll_frame _ _ _ _ _ _ _ _ Hp) as (Hus & Hl & Ha & Hg1).
      apply IH in H as (Hn & Hg' & Hl' & Ha' & Hall).
      * split; [done |]. split; [done |]. split; [congruence |]. split; auto.
      * lia.
      * rewrite map_app, Hres, Hus. by apply slice_window.
      * by rewrite Hg1, Hg, map_app, Hus, <- app_assoc.
  - injection H as <- <-. split; [by eexists |]. split; [done |].
    split; [done |]. split; [done |]. intros _.
    rewrite Hres. apply take_ge. lia.
Qed.

Lemma windows_consistent steps fuel env cfg l signal i results w rs w' :
  cacheConsistent (cache w) → Forall consistent results →
  windows steps fuel env cfg l signal i results w = Some (rs, w') →
  Forall consistent rs ∧ cacheConsistent (cache w').
Proof.
  revert i results w.
  induction steps as [|steps IH]; intros i results w Hc Hres H; [discriminate |].
  simpl in H. destruct (i <? _)%Z.
  - destruct (aborted signal w).
    + by injection H as <- <-.
    + destruct (promiseAll _ _ _ _ _ _) as [[batchResults w1]|] eqn:Hp; [| discriminate].
      destruct (promiseAll_consistent _ _ _ _ _ _ _ _ Hc Hp) as [Hb Hc1].
      apply IH in H; [done | done |]. by apply Forall_app.
  - by injection H as <- <-.
Qed.

Lemma validateUrls_nonempty fuel env cfg urls w :
  urls ≠ [] →
  validateUrls fuel env cfg urls w =
  windows fuel fuel env cfg (uniq urls) (length (controllers w)) 0 [] (batchStart w).
Proof.
  intros Hne. unfold validateUrls, batchStart.
  destruct urls as [|u urls]; [done |]. simpl.
  destruct (probed_cancel w) as (_ & -> & _). done.
Qed.

Lemma batchStart_frame (w : World) :
  cache (batchStart w) = cache w ∧ log (batchStart w) = log w ∧
  now (batchStart w) = now w ∧
  aborted (length (controllers w)) (batchStart w) = false ∧
  abortController (batchStart w) = Some (length (controllers w)) ∧
  (∀ c, abortController w = Some c → c < length (controllers w) →
        aborted c (batchStart w) = true).
Proof.
  destruct (probed_cancel w) as (Hc & Hl & _ & evs & Hlog & _).
  unfold batchStart. simpl. rewrite Hl.
  split; [exact Hc |]. split.
  { unfold cancel. by destruct (abortController w). }
  split. { unfold cancel. by destruct (abortController w). }
  split.
  { unfold aborted. simpl. rewrite lookup_app_r by lia. by rewrite Hl, Nat.sub_diag. }
  split; [done |].
  intros c Hw Hlt. unfold aborted, cancel. rewrite Hw. simpl.
  rewrite lookup_app_l by (rewrite length_insert; lia).
  by rewrite list_lookup_insert_eq.
Qed.

(** ** The batch coordinator *)

(** C8. On the empty list [validateUrls] returns the empty list at once,
    whatever the fuel, in an unchanged world: no request is sent and the
    cache is neither read nor written (the log, the cache, the clock and
    the controllers are the same). *)
Theorem empty_batch_is_noop fuel env cfg w :
  validateUrls fuel env cfg [] w = Some ([], w).
Proof. reflexivity. Qed.

(** C10. A call with the empty list returns before [cancel()] is reached:
    the validator keeps its abort controller, and the [aborted] flag of
    every signal, the one of a batch still running included, is what it
    was. *)
Theorem empty_batch_does_not_cancel fuel env cfg w :
  ∃ w', validateUrls fuel env cfg [] w = Some ([], w') ∧
        abortController w' = abortController w ∧
        controllers w' = controllers w ∧
        ∀ signal, aborted signal w' = aborted signal w.
Proof. exists w. by repeat split. Qed.

(** By contrast a call with a non-empty list aborts the running batch. *)
Lemma validateUrls_nonempty_cancels fuel env cfg urls w rs w' c :
  urls ≠ [] → (0 < maxConcurrent cfg)%Z →
  abortController w = Some c → c < length (controllers w) →
  validateUrls fuel env cfg urls w = Some (rs, w') →
  aborted c w' = true.
Proof.
  intros Hne Hk Hc Hlt Hrun. rewrite (validateUrls_nonempty _ _ _ _ _ Hne) in Hrun.
  destruct (batchStart_frame w) as (_ & _ & _ & _ & _ & Hab).
  eapply (windows_frame _ _ _ _ _ _ _ _ _ _ _ (cacheGets (log (batchStart w)))) in Hrun
    as (_ & _ & _ & Hmono & _); [| done | done | done | by rewrite app_nil_r].
  apply Hmono. by apply Hab.
Qed.



(** C9. Started on a cache whose entries are consistent, as the empty
    cache is, a batch returns only consistent outcomes, fresh or served
    from the cache, and leaves a cache whose entries are consistent: no
    outcome is valid with status code 404 or 410. *)
Theorem outcomes_consistent fuel env cfg urls w rs w' :
  cacheConsistent (cache w) →
  validateUrls fuel env cfg urls w = Some (rs, w') →
  Forall consistent rs ∧ cacheConsistent (cache w').
Proof.
  intros Hc Hrun. destruct urls as [|u0 urls].
  { injection Hrun as <- <-. by split. }
  rewrite validateUrls_nonempty in Hrun by done.
  destruct (batchStart_frame w) as (Hcache & _).
  eapply windows_consistent; [| | exact Hrun]; [by rewrite Hcache | constructor].
Qed.

Lemma outcomes_consistent_witness :
  ∃ rs w',
    validateUrls 2 headRefused defaultConfig ["https://a.example/a.png"] world0
      = Some (rs, w') ∧
    map statusCode rs = [Some 404%Z] ∧
    Forall consistent rs.
Proof.
  eexists _, _. split; [vm_compute; reflexivity |]. split; [reflexivity |].
  eapply (outcomes_consistent 2 headRefused defaultConfig
            ["https://a.example/a.png"] world0).
  - apply cacheConsistent_make.
  - vm_compute. reflexivity.
Defined.

(** ** Termination *)

Lemma settles_mono fuel fuel' env : fuel ≤ fuel' → settles fuel env → settles fuel' env.
Proof.
  intros Hle Hs u method hdrs timeout signal w.
  destruct (Hs u method hdrs timeout signal w) as [r Hr].
  exists r. by eapply makeRequest_fuel_mono.
Qed.

(** A network that never answers with a redirect settles every probe
    with its first request. *)
Lemma settles_without_redirects env :
  (∀ h rq res t, respond env h rq = (OnResponse res, t) → redirectLocation res = None) →
  settles 1 env.
Proof.
  intros Hnr u method hdrs timeout signal w. simpl.
  destruct (aborted signal w); [by eexists |].
  destruct (url_origin env u); [| by eexists].
  destruct (respond env (log w) _) as [event t] eqn:Hr.
  destruct event as [res | | err |]; try by eexists.
  rewrite (Hnr _ _ _ _ Hr). by eexists.
Qed.

Lemma validateUrl_returns fuel env cfg u signal w :
  settles fuel env → is_Some (validateUrl fuel env cfg u signal w).
Proof.
  intros Hs. unfold validateUrl.
  destruct (UrlCache.get (now w) (cache w) u) as [[e|] c]; [by eexists |].
  destruct (Hs u HEAD (browserHeaders env u) (timeoutMs cfg) signal
              (record (CacheGet u) (withCache c w))) as [[[r | err] w1] ->];
    [| by eexists].
  cbv zeta. destruct (inRange _); [by eexists |].
  destruct (includesZ _ _); [by eexists |].
  destruct (_ || _); [| by eexists].
  destruct (Hs u GET (rangeHeaders env u) (timeoutMs cfg) signal w1)
    as [[[r' | err] w2] ->]; [| by eexists].
  destruct (inRange _); [by eexists |].
  destruct (_ =? _)%Z; [| by eexists].
  destruct (isCdnErrorResponse r'); by eexists.
Qed.

Lemma promiseAll_returns fuel env cfg batch signal w :
  settles fuel env → is_Some (promiseAll fuel env cfg batch signal w).
Proof.
  intros Hs. revert w. induction batch as [|u batch IH]; intros w; simpl; [by eexists |].
  destruct (validateUrl_returns fuel env cfg u signal w Hs) as [[o w1] ->].
  destruct (IH w1) as [[os w2] ->]. by eexists.
Qed.

Lemma windows_returns steps fuel env cfg l signal i results w :
  settles fuel env → (0 < maxConcurrent cfg)%Z → (0 ≤ i)%Z →
  Z.to_nat (Z.of_nat (length l) - i) < steps →
  is_Some (windows steps fuel env cfg l signal i results w).
Proof.
  intros Hs Hk. revert i results w.
  induction steps as [|steps IH]; intros i results w Hi Hsteps; [lia |].
  simpl. destruct (Z.ltb_spec i (Z.of_nat (length l))); [| by eexists].
  destruct (aborted signal w); [by eexists |].
  destruct (promiseAll_returns fuel env cfg
              (slice l i (i + maxConcurrent cfg)) signal w Hs) as [[rs w1] ->].
  apply IH; lia.
Qed.

(** With a positive window size and probes that settle, a batch returns
    as soon as the fuel exceeds the number of URLs. *)
Lemma validateUrls_returns fuel env cfg urls w :
  settles fuel env → (0 < maxConcurrent cfg)%Z → length urls < fuel →
  is_Some (validateUrls fuel env cfg urls w).
Proof.
  intros Hs Hk Hfuel. destruct urls as [|u0 urls]; [by eexists |].
  rewrite validateUrls_nonempty by done.
  apply windows_returns; [done | done | lia |].
  pose proof (uniq_length (u0 :: urls)). lia.
Qed.

(** With a window size of zero the loop never advances: a non-empty batch
    that is not aborted does not return, whatever the fuel. *)
Lemma windows_zero_never_returns steps fuel env cfg l signal results w :
  maxConcurrent cfg = 0%Z → l ≠ [] → aborted signal w = false →
  windows steps fuel env cfg l signal 0 results w = None.
Proof.
  intros Hk Hl. revert results w.
  induction steps as [|steps IH]; intros results w Hab; [done |].
  simpl. destruct l as [|x l]; [done |]. simpl. rewrite Hab, Hk.
  unfold slice, relIndex. simpl. by apply IH.
Qed.

(** ** The axios variant *)

Lemma axios_validateUrl_miss env cfg u signal w :
  miss u w →
  Axios.validateUrl env cfg u signal w =
  match Axios.call env cfg u HEAD (Axios.browserHeaders env u) signal (afterLookup u w) with
  | (Axios.Rejected err, w1) => Axios.handleError u err w1
  | (Axios.Resolved response, w1) =>
      let sc := Axios.status response in
      if inRange sc then cacheAndReturn u true sc (Axios.statusText response) w1
      else if includesZ BROKEN_STATUS_CODES sc then
        cacheAndReturn u false sc (Axios.statusText response) w1
      else if ((sc =? 403) || (sc =? 405))%Z then
        match Axios.call env cfg u GET (Axios.rangeHeaders env u) signal w1 with
        | (Axios.Rejected err, w2) => Axios.handleError u err w2
        | (Axios.Resolved response', w2) =>
            let sc' := Axios.status response' in
            if inRange sc' then cacheAndReturn u true sc' (Axios.statusText response') w2
            else if (sc' =? 403)%Z then
              if Axios.isCdnErrorResponse response'
              then cacheAndReturn u false sc' "Not Found (CDN)" w2
              else cacheAndReturn u true sc' "Protected" w2
            else Axios.generalRule u response' w2
        end
      else Axios.generalRule u response w1
  end.
Proof.
  unfold miss, Axios.validateUrl, afterLookup.
  destruct (UrlCache.get (now w) (cache w) u) as [cached c]. simpl.
  by intros ->.
Qed.

(** The classification table holds for the axios variant as well. *)
Lemma axios_classification_table env cfg u signal w r w1 :
  miss u w →
  Axios.call env cfg u HEAD (Axios.browserHeaders env u) signal (afterLookup u w)
    = (Axios.Resolved r, w1) →
  let S := Axios.status r in
  let result := (Axios.validateUrl env cfg u signal w).1 in
  ((200 ≤ S < 400)%Z → result = outcome u true S (Axios.statusText r)) ∧
  (S = 404%Z ∨ S = 410%Z → result = outcome u false S (Axios.statusText r)) ∧
  (S = 403%Z ∨ S = 405%Z →
     Axios.rangeHeaders env u !! "Range" = Some "bytes=0-1023" ∧
     ∀ r' w2,
       Axios.call env cfg u GET (Axios.rangeHeaders env u) signal w1
         = (Axios.Resolved r', w2) →
       let S' := Axios.status r' in
       ((200 ≤ S' < 400)%Z → result = outcome u true S' (Axios.statusText r')) ∧
       (S' = 403%Z → Axios.isCdnErrorResponse r' = true →
          result = outcome u false 403 "Not Found (CDN)") ∧
       (S' = 403%Z → Axios.isCdnErrorResponse r' = false →
          result = outcome u true 403 "Protected") ∧
       (¬ (200 ≤ S' < 400)%Z → S' ≠ 403%Z →
          result = outcome u false S' (Axios.statusText r'))) ∧
  (¬ (200 ≤ S < 400)%Z → S ≠ 404%Z → S ≠ 410%Z → S ≠ 403%Z → S ≠ 405%Z →
     result = outcome u false S (Axios.statusText r)).
Proof.
  intros Hm Hhead S result. subst result S.
  rewrite (axios_validateUrl_miss _ _ _ _ _ Hm), Hhead. cbv zeta.
  set (S := Axios.status r).
  split; [| split; [| split]].
  - intros HS. apply inRange_spec in HS. by rewrite HS.
  - intros HS. assert (inRange S = false) as -> by (apply inRange_false; lia).
    apply broken_spec in HS. by rewrite HS.
  - intros HS. split; [apply lookup_insert_eq |].
    intros r' w2 Hget.
    assert (inRange S = false) as -> by (apply inRange_false; lia).
    assert (includesZ BROKEN_STATUS_CODES S = false) as -> by (apply broken_false; lia).
    apply escalates_spec in HS. rewrite HS, Hget.
    split; [| split; [| split]].
    + intros HS'. apply inRange_spec in HS'. by rewrite HS'.
    + intros HS' Hcdn. rewrite HS', Hcdn. reflexivity.
    + intros HS' Hcdn. rewrite HS', Hcdn. reflexivity.
    + intros HS' Hne. apply inRange_false in HS'. rewrite HS'.
      apply Z.eqb_neq in Hne. rewrite Hne. unfold Axios.generalRule.
      by rewrite HS'.
  - intros HS H404 H410 H403 H405. apply inRange_false in HS. rewrite HS.
    assert (includesZ BROKEN_STATUS_CODES S = false) as -> by (by apply broken_false).
    apply Z.eqb_neq in H403, H405. rewrite H403, H405. unfold Axios.generalRule. fold S.
    by rewrite HS.
Qed.

(** A cancellation, recognised by [axios.isCancel] or by the code
    ERR_CANCELED, gives the valid outcome and leaves the world as it is. *)
Lemma axios_handleError_cancelled u err w :
  Axios.isCancel err = true ∨
  (Axios.isAxiosError err = true ∧ Axios.code err = Some "ERR_CANCELED") →
  Axios.handleError u err w = (cancelledOutcome u, w).
Proof.
  unfold Axios.handleError. intros [-> | [-> Hc]]; [done |].
  destruct (Axios.isCancel err); [done |]. rewrite Hc.
  repeat (case_decide; [discriminate |]). by case_decide.
Qed.

(** Every other caught value is cached as a failure; the message follows
    the error code, then the error's own message, with "Network error" for
    an axios error without message and "Unknown error" for anything that
    is not an axios error. *)
Lemma axios_handleError_failed u err w :
  Axios.isCancel err = false →
  ¬ (Axios.isAxiosError err = true ∧ Axios.code err = Some "ERR_CANCELED") →
  ∃ msg, Axios.handleError u err w = cacheError u msg w ∧
    (Axios.isAxiosError err = true → Axios.code err = Some "ECONNABORTED" →
       msg = "Request timeout") ∧
    (Axios.isAxiosError err = true → Axios.code err = Some "ENOTFOUND" →
       msg = "Domain not found") ∧
    (Axios.isAxiosError err = true → Axios.code err = Some "ECONNREFUSED" →
       msg = "Connection refused") ∧
    (Axios.isAxiosError err = true →
       Axios.code err ≠ Some "ECONNABORTED" → Axios.code err ≠ Some "ENOTFOUND" →
       Axios.code err ≠ Some "ECONNREFUSED" →
       msg = if decide (Axios.message err = "") then "Network error"
             else Axios.message err) ∧
    (Axios.isAxiosError err = false → msg = "Unknown error").
Proof.
  intros Hc Hnc. unfold Axios.handleError. rewrite Hc.
  destruct (Axios.isAxiosError err).
  2:{ eexists. split; [reflexivity |]. repeat split; intros; congruence. }
  repeat case_decide; try tauto;
    (eexists; split; [reflexivity |]; repeat split; intros; try congruence).
  all: rewrite orString_nonempty; by case_decide.
Qed.

Lemma axios_empty_message_fallback :
  error (Axios.handleError "https://a.example/a.png"
           {| Axios.isCancel := false; Axios.isAxiosError := true;
              Axios.code := Some "ERR_NETWORK"; Axios.message := "" |} world0).1
  = Some "Network error".
Proof. reflexivity. Qed.

(** A rejected axios call is caught and handed to the error handler. *)
Lemma axios_validateUrl_catches env cfg u signal w err w1 :
  miss u w →
  Axios.call env cfg u HEAD (Axios.browserHeaders env u) signal (afterLookup u w)
    = (Axios.Rejected err, w1) →
  Axios.validateUrl env cfg u signal w = Axios.handleError u err w1.
Proof.
  intros Hm Hcall. by rewrite (axios_validateUrl_miss _ _ _ _ _ Hm), Hcall.
Qed.

(** * Further properties *)

(** ** The result cache: round trips and composition *)

(** X1. Reading back what was just stored: a [get] at clock reading [t']
    after a [set] at [t] returns the stored result stamped [t] and leaves
    the cache alone when [t' - t <= ttl]; otherwise it returns nothing and
    the cache is left without any entry for the URL. *)
Theorem set_then_get (t t' : Z) (c : UrlCache.t) (u : string) (r : UrlCache.Result) :
  UrlCache.get t' (UrlCache.set t c u r) u =
  if (t' - t >? UrlCache.ttlMs c)%Z then (None, without u c)
  else (Some (entryOf r t), UrlCache.set t c u r).
Proof.
  unfold UrlCache.get. simpl. rewrite lookup_insert_eq. simpl.
  destruct (t' - t >? UrlCache.ttlMs c)%Z; [| done].
  f_equal. apply cache_eq; [| done]. simpl. apply delete_insert_eq.
Qed.

(** X2. Entries are independent: a [get] for another URL returns the same
    with or without the [set], and the two operations commute. *)
Theorem set_get_other (t t' : Z) (c : UrlCache.t) (u u' : string) (r : UrlCache.Result) :
  u ≠ u' →
  UrlCache.get t' (UrlCache.set t c u r) u' =
  ((UrlCache.get t' c u').1, UrlCache.set t (UrlCache.get t' c u').2 u r).
Proof.
  intros Hne. unfold UrlCache.get. simpl. rewrite lookup_insert_ne by done.
  destruct (UrlCache.cache c !! u') as [e|]; [| done].
  destruct (_ >? _)%Z; [| done]. simpl. f_equal.
  apply cache_eq; [| done]. simpl. by apply delete_insert_ne.
Qed.

Lemma set_get_other_witness :
  UrlCache.get 7 (UrlCache.set 5 UrlCache.default "https://a/x.png" sampleResult)
    "https://a/y.png"
  = (None, UrlCache.set 5 UrlCache.default "https://a/x.png" sampleResult).
Proof.
  rewrite (set_get_other 5 7 UrlCache.default "https://a/x.png" "https://a/y.png"
             sampleResult); [reflexivity | discriminate].
Defined.

(** X3. A [get] repeated at the same clock reading gives the same answer
    and changes nothing more: whatever had to be evicted was evicted by
    the first one. *)
Theorem get_twice (t : Z) (c : UrlCache.t) (u : string) :
  UrlCache.get t (UrlCache.get t c u).2 u = UrlCache.get t c u.
Proof.
  unfold UrlCache.get at 2 3.
  destruct (UrlCache.cache c !! u) as [e|] eqn:He.
  - destruct (t - UrlCache.timestamp e >? UrlCache.ttlMs c)%Z eqn:Hage; simpl.
    + unfold UrlCache.get. simpl. by rewrite lookup_delete_eq.
    + unfold UrlCache.get. by rewrite He, Hage.
  - simpl. unfold UrlCache.get. by rewrite He.
Qed.

Lemma cleanup_lookup (t : Z) (c : UrlCache.t) (u : string) :
  UrlCache.cache (UrlCache.cleanup t c) !! u =
  match UrlCache.cache c !! u with
  | Some e => if (t - UrlCache.timestamp e >? UrlCache.ttlMs c)%Z then None else Some e
  | None => None
  end.
Proof.
  simpl. rewrite map_lookup_filter.
  destruct (UrlCache.cache c !! u) as [e|]; simpl; [| done].
  destruct (Z.gtb_spec (t - UrlCache.timestamp e) (UrlCache.ttlMs c)).
  - rewrite option_guard_False; [done | simpl; lia].
  - rewrite option_guard_True; [done | simpl; lia].
Qed.

(** X4. After [cleanup] nothing is left to evict: a [get] at the same
    clock reading returns what it would have returned before the sweep,
    and leaves the swept cache as it is. *)
Theorem cleanup_then_get (t : Z) (c : UrlCache.t) (u : string) :
  UrlCache.get t (UrlCache.cleanup t c) u = ((UrlCache.get t c u).1, UrlCache.cleanup t c).
Proof.
  unfold UrlCache.get. rewrite cleanup_lookup.
  destruct (UrlCache.cache c !! u) as [e|]; [| done].
  destruct (t - UrlCache.timestamp e >? UrlCache.ttlMs c)%Z eqn:Hage; [done |].
  change (UrlCache.ttlMs (UrlCache.cleanup t c)) with (UrlCache.ttlMs c).
  by rewrite Hage.
Qed.

(** X5. A later sweep subsumes an earlier one (so a sweep repeated at the
    same clock reading changes nothing), and a sweep never adds an
    entry. *)
Theorem cleanup_absorbs (t t' : Z) (c : UrlCache.t) :
  (t ≤ t')%Z →
  UrlCache.cleanup t' (UrlCache.cleanup t c) = UrlCache.cleanup t' c ∧
  UrlCache.size (UrlCache.cleanup t c) ≤ UrlCache.size c.
Proof.
  intros Hle. split.
  - apply cache_eq; [| done]. apply map_eq. intros u.
    rewrite !cleanup_lookup.
    change (UrlCache.ttlMs (UrlCache.cleanup t c)) with (UrlCache.ttlMs c).
    destruct (UrlCache.cache c !! u) as [e|]; [| done].
    destruct (Z.gtb_spec (t - UrlCache.timestamp e) (UrlCache.ttlMs c)); [| done].
    destruct (Z.gtb_spec (t' - UrlCache.timestamp e) (UrlCache.ttlMs c)); [done | lia].
  - unfold UrlCache.size. simpl. apply map_subseteq_size, map_filter_subseteq.
Qed.

Lemma cleanup_absorbs_witness :
  UrlCache.cleanup 400000
    (UrlCache.cleanup 400000 (UrlCache.set 5 UrlCache.default "https://a/x.png" sampleResult))
  = UrlCache.cleanup 400000 (UrlCache.set 5 UrlCache.default "https://a/x.png" sampleResult).
Proof.
  apply (cleanup_absorbs 400000 400000
           (UrlCache.set 5 UrlCache.default "https://a/x.png" sampleResult)).
  lia.
Defined.

(** X6. The size of the cache counts URLs: storing a result for a new URL
    adds one, storing one for a URL that has an entry, fresh or expired,
    overwrites it. *)
Theorem set_size (t : Z) (c : UrlCache.t) (u : string) (r : UrlCache.Result) :
  UrlCache.size (UrlCache.set t c u r) =
  match UrlCache.cache c !! u with
  | Some _ => UrlCache.size c
  | None => S (UrlCache.size c)
  end.
Proof.
  unfold UrlCache.size. simpl.
  destruct (UrlCache.cache c !! u) as [e|] eqn:He.
  - by apply map_size_insert_Some.
  - by apply map_size_insert_None.
Qed.

(** ** The probe: body cap, methods and headers *)

Lemma str_app_cons (c : ascii) (s t : string) : String c s +:+ t = String c (s +:+ t).
Proof. reflexivity. Qed.

Lemma str_app_nil_l (t : string) : "" +:+ t = t.
Proof. reflexivity. Qed.

Lemma str_app_nil_r (s : string) : s +:+ "" = s.
Proof. induction s as [|c s IH]; [done |]. by rewrite str_app_cons, IH. Qed.

Lemma str_app_assoc (s t r : string) : (s +:+ t) +:+ r = s +:+ (t +:+ r).
Proof. induction s as [|c s IH]; [done |]. by rewrite !str_app_cons, IH. Qed.

Lemma str_app_length (s t : string) :
  String.length (s +:+ t) = String.length s + String.length t.
Proof. induction s as [|c s IH]; [done |]. rewrite str_app_cons. simpl. by rewrite IH. Qed.

Lemma onData_frozen (chunks : list string) (received : Z) (b : string) :
  (maxBytes < received)%Z → (fold_left onData chunks (received, b)).2 = b.
Proof.
  revert received. induction chunks as [|chunk chunks IH]; intros received H; [done |].
  simpl. unfold onData at 2. simpl.
  destruct (Z.leb_spec (received + Z.of_nat (String.length chunk)) maxBytes); [lia |].
  apply IH. lia.
Qed.

Lemma onData_appending (chunks : list string) (b : string) :
  (Z.of_nat (String.length b) ≤ maxBytes)%Z →
  let body := (fold_left onData chunks (Z.of_nat (String.length b), b)).2 in
  (Z.of_nat (String.length body) ≤ maxBytes)%Z ∧
  (∃ n, body = b +:+ joined (take n chunks)) ∧
  ((Z.of_nat (String.length (b +:+ joined chunks)) ≤ maxBytes)%Z →
   body = b +:+ joined chunks).
Proof.
  revert b. induction chunks as [|chunk chunks IH]; intros b Hb; simpl.
  - split; [done |]. split; [exists 0; by rewrite str_app_nil_r |].
    by rewrite str_app_nil_r.
  - unfold onData at 2 4 6. simpl.
    destruct (Z.leb_spec (Z.of_nat (String.length b) + Z.of_nat (String.length chunk))
                maxBytes) as [Hfit | Hover].
    + assert (Hlen : Z.of_nat (String.length (b +:+ chunk))
                     = (Z.of_nat (String.length b) + Z.of_nat (String.length chunk))%Z).
      { rewrite str_app_length. lia. }
      rewrite <- Hlen in *.
      destruct (IH (b +:+ chunk) Hfit) as (H1 & [n H2] & H3).
      split; [exact H1 |]. split.
      * exists (S n). simpl. by rewrite <- str_app_assoc.
      * rewrite <- str_app_assoc. exact H3.
    + rewrite onData_frozen by lia.
      split; [done |]. split; [exists 0; by rewrite str_app_nil_r |].
      rewrite !str_app_length. lia.
Qed.

(** X7. The body kept for a GET response never exceeds 10240 characters;
    it consists of the first chunks of the response, whole, and of all of
    them when the response is within the cap. *)
Theorem readBody_capped (chunks : list string) :
  (Z.of_nat (String.length (readBody chunks)) ≤ 10240)%Z ∧
  (∃ n, readBody chunks = joined (take n chunks)) ∧
  ((Z.of_nat (String.length (joined chunks)) ≤ 10240)%Z →
   readBody chunks = joined chunks).
Proof.
  pose proof (onData_appending chunks "") as H. simpl in H.
  apply H. unfold maxBytes. lia.
Qed.

(** X8. A HEAD probe that resolves hands back an empty body, whatever
    redirects it went through. *)
Theorem head_probe_has_no_body fuel env u hdrs timeout signal w response w' :
  makeRequest fuel env u HEAD hdrs timeout signal w = Some (Resolved response, w') →
  Http.body response = "".
Proof.
  revert u w. induction fuel as [|fuel IH]; intros u w H; [discriminate |].
  simpl in H.
  destruct (aborted signal w); [discriminate |].
  destruct (url_origin env u); [| discriminate].
  destruct (respond env (log w) _) as [event t].
  destruct event as [res | | err |]; try discriminate.
  destruct (redirectLocation res) as [location|].
  - simpl in H. destruct (url_resolve env location u); [| discriminate].
    by eapply IH.
  - by injection H as <- _.
Qed.

Lemma head_probe_has_no_body_witness :
  ∃ response w',
    makeRequest 7 chainEnv "http://h/0" HEAD ∅ 5000 0 world0
      = Some (Resolved response, w') ∧
    Http.body response = "".
Proof.
  eexists _, _. split; [vm_compute; reflexivity |].
  eapply (head_probe_has_no_body 7 chainEnv "http://h/0" ∅ 5000 0 world0).
  vm_compute. reflexivity.
Defined.

(** X9. Every request of a probe, the ones that follow redirects
    included, is sent with the method, the headers and the timeout the
    probe was given. *)
Theorem redirects_keep_method_and_headers fuel env u method hdrs timeout signal w res w' :
  makeRequest fuel env u method hdrs timeout signal w = Some (res, w') →
  ∃ evs, log w' = log w ++ evs ∧ Forall (sentWith method hdrs timeout) evs.
Proof.
  revert u w. induction fuel as [|fuel IH]; intros u w H; [discriminate |].
  simpl in H.
  assert (Hnone : ∃ evs, log w = log w ++ evs ∧ Forall (sentWith method hdrs timeout) evs).
  { exists []. split; [by rewrite app_nil_r | constructor]. }
  destruct (aborted signal w); [by injection H as _ <- |].
  destruct (url_origin env u); [| by injection H as _ <-].
  destruct (respond env (log w) _) as [event t].
  set (rq := {| req_url := u |}) in *.
  assert (Hone : ∀ x, log x = log w ++ [Requested rq] →
            ∃ evs, log x = log w ++ evs ∧ Forall (sentWith method hdrs timeout) evs).
  { intros x Hx. exists [Requested rq]. split; [done |].
    repeat constructor. by exists u. }
  destruct event as [r | | err |].
  - destruct (redirectLocation r) as [location|].
    + simpl in H. destruct (url_resolve env location u); [| discriminate].
      apply IH in H as (evs & Hlog & Hall).
      exists (Requested rq :: evs). split.
      * rewrite Hlog. simpl. by rewrite <- app_assoc.
      * constructor; [by exists u | done].
    + injection H as _ <-. by apply Hone.
  - injection H as _ <-. by apply Hone.
  - injection H as _ <-. by apply Hone.
  - injection H as _ <-. apply Hone. unfold cancel. simpl.
    by destruct (abortController w).
Qed.

Lemma redirects_keep_method_and_headers_witness :
  ∃ res w' evs,
    makeRequest 7 chainEnv "http://h/0" HEAD ∅ 5000 0 world0 = Some (res, w') ∧
    log w' = log world0 ++ evs ∧
    length evs = 7 ∧
    Forall (sentWith HEAD ∅ 5000) evs.
Proof.
  eexists _, _, _. split; [vm_compute; reflexivity |].
  edestruct (redirects_keep_method_and_headers 7 chainEnv "http://h/0" HEAD ∅ 5000 0
               world0) as (evs & Hlog & Hall).
  - vm_compute. reflexivity.
  - simpl in Hlog. subst evs. split; [reflexivity |]. split; [reflexivity | exact Hall].
Defined.

(** ** The validator: cancellation, the cache and traffic *)

(** X10. Once the signal of the batch is aborted a validator causes no
    traffic: it looks the URL up in the cache, answers from the cache on a
    hit and reports the cancellation on a miss, and nothing but the lookup
    is added to the log. *)
Theorem aborted_validator_is_silent fuel env cfg u signal w :
  aborted signal w = true →
  ∃ o,
    validateUrl (S fuel) env cfg u signal w = Some (o, afterLookup u w) ∧
    (miss u w → o = cancelledOutcome u) ∧
    (∀ e, (UrlCache.get (now w) (cache w) u).1 = Some e → o = fromEntry u e) ∧
    requestLog (log (afterLookup u w)) = requestLog (log w).
Proof.
  intros Ha.
  assert (Hlog : requestLog (log (afterLookup u w)) = requestLog (log w)).
  { unfold afterLookup, requestLog. simpl. by rewrite omap_app, app_nil_r. }
  destruct (UrlCache.get (now w) (cache w) u).1 as [e|] eqn:Hget.
  - exists (fromEntry u e). rewrite (validateUrl_hit _ _ _ _ _ _ _ Hget).
    split; [done |]. split; [unfold miss; congruence |]. split; [congruence | done].
  - exists (cancelledOutcome u).
    rewrite (validateUrl_catches (S fuel) env cfg u signal w
               (JsError "Request cancelled") (afterLookup u w) Hget).
    + split; [done |]. split; [done |]. split; [congruence | done].
    + left. unfold headProbe. by apply makeRequest_signal_aborted.
Qed.

Lemma aborted_validator_is_silent_witness :
  validateUrl 1 cdnMissing defaultConfig "https://cdn.example/a.png" 0 (cancel world0)
  = Some (cancelledOutcome "https://cdn.example/a.png",
          afterLookup "https://cdn.example/a.png" (cancel world0)).
Proof.
  destruct (aborted_validator_is_silent 0 cdnMissing defaultConfig
              "https://cdn.example/a.png" 0 (cancel world0)) as (o & Hrun & Hmiss & _).
  - reflexivity.
  - rewrite Hrun. f_equal. f_equal. apply Hmiss. vm_compute. reflexivity.
Defined.

(** A validation that was not served from the cache and was not cancelled
    has written its outcome, stamped with the current clock reading. *)
Lemma fresh_outcome_stored fuel env cfg u signal w o w' :
  validateUrl fuel env cfg u signal w = Some (o, w') →
  miss u w → o ≠ cancelledOutcome u →
  ∃ e, UrlCache.cache (cache w') !! u = Some e ∧ fromEntry u e = o ∧
       UrlCache.timestamp e = now w'.
Proof.
  intros Hrun Hm Hnc.
  destruct (validateUrl_inv _ _ _ _ _ _ _ _ Hrun)
    as [(e & Hget & _) | [(_ & err & w1 & Hf & Hp & Heq)
                         | (_ & valid & sc & st & w1 & Hp & Heq & _)]].
  - unfold miss in Hm. congruence.
  - destruct (decide (err = JsError "Request cancelled")) as [-> | Hne].
    { simpl in Heq. injection Heq as -> _. done. }
    destruct (handleError_failed u err w1 Hne) as (msg & Hh & _).
    rewrite Hh in Heq. injection Heq as -> ->.
    eexists. split; [apply lookup_insert_eq | done].
  - injection Heq as -> ->.
    eexists. split; [apply lookup_insert_eq | done].
Qed.

(** X11. Validating again within the TTL is answered from the cache: after
    a validation that was neither a cache hit nor cancelled, any later
    validation of the same URL at a clock reading [t] with
    [t - now <= ttl] returns the same outcome, whatever the network, the
    signal and the fuel, and sends no request. *)
Theorem revalidation_is_served_from_cache
    fuel env cfg u signal w o w' t fuel2 env2 cfg2 signal2 :
  validateUrl fuel env cfg u signal w = Some (o, w') →
  miss u w → o ≠ cancelledOutcome u →
  (t - now w' ≤ UrlCache.ttlMs (cache w'))%Z →
  validateUrl fuel2 env2 cfg2 u signal2 (withNow t w')
    = Some (o, afterLookup u (withNow t w')) ∧
  cache (afterLookup u (withNow t w')) = cache w' ∧
  requestLog (log (afterLookup u (withNow t w'))) = requestLog (log w').
Proof.
  intros Hrun Hm Hnc Hage.
  destruct (fresh_outcome_stored _ _ _ _ _ _ _ _ Hrun Hm Hnc) as (e & He & Ho & Hts).
  assert (Hget : UrlCache.get (now (withNow t w')) (cache (withNow t w')) u
                 = (Some e, cache w')).
  { simpl. apply get_fresh; [done | lia]. }
  split; [| split].
  - rewrite (validateUrl_hit _ _ _ _ _ (withNow t w') e); [by rewrite Ho |].
    by rewrite Hget.
  - unfold afterLookup. by rewrite Hget.
  - unfold afterLookup, requestLog. simpl. by rewrite omap_app, app_nil_r.
Qed.

Lemma revalidation_is_served_from_cache_witness :
  ∃ w',
    validateUrl 1 cdnMissing defaultConfig "https://cdn.example/a.png" 0 world0
      = Some (outcome "https://cdn.example/a.png" false 403 "Not Found (CDN)", w') ∧
    validateUrl 0 dnsFailure defaultConfig "https://cdn.example/a.png" 0
      (withNow 300020 w')
      = Some (outcome "https://cdn.example/a.png" false 403 "Not Found (CDN)",
              afterLookup "https://cdn.example/a.png" (withNow 300020 w')).
Proof.
  eexists. split; [vm_compute; reflexivity |].
  eapply (revalidation_is_served_from_cache 1 cdnMissing defaultConfig
            "https://cdn.example/a.png" 0 world0).
  - vm_compute. reflexivity.
  - vm_compute. reflexivity.
  - discriminate.
  - vm_compute. discriminate.
Defined.

Lemma afterLookup_requestLog (u : string) (w : World) :
  requestLog (log (afterLookup u w)) = requestLog (log w).
Proof. unfold afterLookup, requestLog. simpl. by rewrite omap_app, app_nil_r. Qed.

Lemma handleError_requestLog u err w :
  requestLog (log (handleError u err w).2) = requestLog (log w).
Proof.
  destruct err as [m|]; unfold handleError; [destruct (decide _) |]; simpl;
    unfold requestLog; by rewrite ?omap_app, ?app_nil_r.
Qed.

Lemma cacheAndReturn_requestLog u valid sc st w :
  requestLog (log (cacheAndReturn u valid sc st w).2) = requestLog (log w).
Proof. simpl. unfold requestLog. by rewrite omap_app, app_nil_r. Qed.

(** Without redirects a probe sends one request, or none when it is
    rejected before sending. *)
Lemma makeRequest_single fuel env u method hdrs timeout signal w res w' :
  noRedirects env →
  makeRequest fuel env u method hdrs timeout signal w = Some (res, w') →
  (requestLog (log w') = requestLog (log w) ∧ ∃ err, res = Rejected err) ∨
  requestLog (log w') = requestLog (log w) ++
    [{| req_url := u; req_method := method; req_headers := hdrs; req_timeout := timeout |}].
Proof.
  intros Hnr H. destruct fuel as [|fuel]; [discriminate |]. simpl in H.
  destruct (aborted signal w); [injection H as <- <-; left; eauto |].
  destruct (url_origin env u); [| injection H as <- <-; left; eauto].
  destruct (respond env (log w) _) as [event t] eqn:Hr.
  assert (Hone : ∀ x, log x = log w ++ [Requested {| req_url := u; req_method := method;
                          req_headers := hdrs; req_timeout := timeout |}] →
            requestLog (log x) = requestLog (log w) ++
              [{| req_url := u; req_method := method; req_headers := hdrs;
                  req_timeout := timeout |}]).
  { intros x ->. unfold requestLog. by rewrite omap_app. }
  right. destruct event as [r | | err |].
  - rewrite (Hnr _ _ _ _ Hr) in H. injection H as _ <-. by apply Hone.
  - injection H as _ <-. by apply Hone.
  - injection H as _ <-. by apply Hone.
  - injection H as _ <-. apply Hone. unfold cancel. simpl.
    by destruct (abortController w).
Qed.

(** X12. On a network without redirects one validation sends at most two
    requests, both to the URL itself: the HEAD request with the browser
    headers, then at most one GET request with the added Range header. *)
Theorem validation_sends_at_most_two_requests fuel env cfg u signal w o w' :
  noRedirects env →
  validateUrl fuel env cfg u signal w = Some (o, w') →
  requestLog (log w') = requestLog (log w) ∨
  requestLog (log w') = requestLog (log w) ++ [headRequest env cfg u] ∨
  requestLog (log w') = requestLog (log w) ++ [headRequest env cfg u; getRequest env cfg u].
Proof.
  intros Hnr Hrun.
  destruct (UrlCache.get (now w) (cache w) u).1 as [e|] eqn:Hget.
  { rewrite (validateUrl_hit _ _ _ _ _ _ _ Hget) in Hrun.
    apply (inj Some), (f_equal snd) in Hrun; cbn [snd] in Hrun; rewrite <- Hrun.
    left. apply afterLookup_requestLog. }
  rewrite (validateUrl_miss _ _ _ _ _ _ Hget) in Hrun.
  destruct (headProbe _ _ _ _ _ _) as [[res w1]|] eqn:Hhead; [| discriminate].
  pose proof (makeRequest_single _ _ _ _ _ _ _ _ _ _ Hnr Hhead) as H1.
  rewrite afterLookup_requestLog in H1. fold (headRequest env cfg u) in H1.
  assert (Hend1 : ∀ x, requestLog (log x) = requestLog (log w1) →
            requestLog (log x) = requestLog (log w) ∨
            requestLog (log x) = requestLog (log w) ++ [headRequest env cfg u] ∨
            requestLog (log x) = requestLog (log w) ++
              [headRequest env cfg u; getRequest env cfg u]).
  { intros x ->. destruct H1 as [[-> _] | ->]; auto. }
  destruct res as [r | err].
  2:{ apply (inj Some), (f_equal snd) in Hrun; cbn [snd] in Hrun; rewrite <- Hrun. apply Hend1, handleError_requestLog. }
  destruct H1 as [[_ [err [=]]] | H1].
  cbv zeta in Hrun.
  destruct (inRange (Http.statusCode r)).
  { apply (inj Some), (f_equal snd) in Hrun; cbn [snd] in Hrun; rewrite <- Hrun. apply Hend1, cacheAndReturn_requestLog. }
  destruct (includesZ _ _).
  { apply (inj Some), (f_equal snd) in Hrun; cbn [snd] in Hrun; rewrite <- Hrun. apply Hend1, cacheAndReturn_requestLog. }
  destruct (_ || _).
  2:{ apply (inj Some), (f_equal snd) in Hrun; cbn [snd] in Hrun; rewrite <- Hrun. apply Hend1, cacheAndReturn_requestLog. }
  destruct (getProbe _ _ _ _ _ _) as [[res' w2]|] eqn:Hg; [| discriminate].
  pose proof (makeRequest_single _ _ _ _ _ _ _ _ _ _ Hnr Hg) as H2.
  fold (getRequest env cfg u) in H2. rewrite H1 in H2.
  assert (Hend2 : ∀ x, requestLog (log x) = requestLog (log w2) →
            requestLog (log x) = requestLog (log w) ∨
            requestLog (log x) = requestLog (log w) ++ [headRequest env cfg u] ∨
            requestLog (log x) = requestLog (log w) ++
              [headRequest env cfg u; getRequest env cfg u]).
  { intros x ->. destruct H2 as [[-> _] | ->]; [auto |].
    right. right. by rewrite <- app_assoc. }
  destruct res' as [r' | err].
  2:{ apply (inj Some), (f_equal snd) in Hrun; cbn [snd] in Hrun; rewrite <- Hrun. apply Hend2, handleError_requestLog. }
  destruct (inRange (Http.statusCode r')).
  { apply (inj Some), (f_equal snd) in Hrun; cbn [snd] in Hrun; rewrite <- Hrun. apply Hend2, cacheAndReturn_requestLog. }
  destruct (_ =? _)%Z; [destruct (isCdnErrorResponse r') |];
    apply (inj Some), (f_equal snd) in Hrun; cbn [snd] in Hrun; rewrite <- Hrun;
    apply Hend2, cacheAndReturn_requestLog.
Qed.

Lemma validation_sends_at_most_two_requests_witness :
  ∃ o w',
    validateUrl 1 cdnMissing defaultConfig "https://cdn.example/a.png" 0 world0
      = Some (o, w') ∧
    (requestLog (log w') = requestLog (log world0) ∨
     requestLog (log w') = requestLog (log world0) ++
       [headRequest cdnMissing defaultConfig "https://cdn.example/a.png"] ∨
     requestLog (log w') = requestLog (log world0) ++
       [headRequest cdnMissing defaultConfig "https://cdn.example/a.png";
        getRequest cdnMissing defaultConfig "https://cdn.example/a.png"]).
Proof.
  eexists _, _. split; [vm_compute; reflexivity |].
  eapply (validation_sends_at_most_two_requests 1 cdnMissing defaultConfig
            "https://cdn.example/a.png" 0 world0).
  - intros h rq res t. simpl. destruct (req_method rq); intros [= <- _]; reflexivity.
  - vm_compute. reflexivity.
Defined.

(** ** Invariants carried through a batch *)

Section BatchInvariant.

Variable Inv : UrlCache.t → Prop.
Variable Post : ValidationResult → Prop.

Hypothesis validation_keeps :
  ∀ fuel env cfg u signal w o w',
    Inv (cache w) → validateUrl fuel env cfg u signal w = Some (o, w') →
    Post o ∧ Inv (cache w').

Lemma promiseAll_keeps fuel env cfg batch signal w rs w' :
  Inv (cache w) →
  promiseAll fuel env cfg batch signal w = Some (rs, w') →
  Forall Post rs ∧ Inv (cache w').
Proof.
  revert w rs w'. induction batch as [|u batch IH]; intros w rs w' Hc H; simpl in H.
  - injection H as <- <-. by split.
  - destruct (validateUrl fuel env cfg u signal w) as [[o w1]|] eqn:Hv; [| discriminate].
    destruct (promiseAll fuel env cfg batch signal w1) as [[os w2]|] eqn:Hp; [| discriminate].
    injection H as <- <-.
    destruct (validation_keeps _ _ _ _ _ _ _ _ Hc Hv) as [Ho Hc1].
    destruct (IH _ _ _ Hc1 Hp) as [Hos Hc2].
    split; [by constructor | done].
Qed.

Lemma windows_keeps steps fuel env cfg l signal i results w rs w' :
  Inv (cache w) → Forall Post results →
  windows steps fuel env cfg l signal i results w = Some (rs, w') →
  Forall Post rs ∧ Inv (cache w').
Proof.
  revert i results w.
  induction steps as [|steps IH]; intros i results w Hc Hres H; [discriminate |].
  simpl in H. destruct (i <? _)%Z.
  - destruct (aborted signal w).
    + by injection H as <- <-.
    + destruct (promiseAll _ _ _ _ _ _) as [[batchResults w1]|] eqn:Hp; [| discriminate].
      destruct (promiseAll_keeps _ _ _ _ _ _ _ _ Hc Hp) as [Hb Hc1].
      apply IH in H; [done | done |]. by apply Forall_app.
  - by injection H as <- <-.
Qed.

Lemma validateUrls_keeps fuel env cfg urls w rs w' :
  Inv (cache w) →
  validateUrls fuel env cfg urls w = Some (rs, w') →
  Forall Post rs ∧ Inv (cache w').
Proof.
  intros Hc Hrun. destruct urls as [|u0 urls].
  { injection Hrun as <- <-. by split. }
  rewrite validateUrls_nonempty in Hrun by done.
  destruct (batchStart_frame w) as (Hcache & _).
  eapply windows_keeps; [| | exact Hrun]; [by rewrite Hcache | constructor].
Qed.

End BatchInvariant.

Lemma shaped_set (t : Z) (c : UrlCache.t) (u : string) (r : UrlCache.Result) :
  cacheShaped c →
  shaped (UrlCache.r_isValid r) (UrlCache.r_statusCode r) (UrlCache.r_statusText r)
    (UrlCache.r_error r) →
  cacheShaped (UrlCache.set t c u r).
Proof.
  intros Hc Hr u' e H. simpl in H.
  apply lookup_insert_Some in H as [[_ <-] | [_ H]]; [exact Hr | by eapply Hc].
Qed.

Lemma shaped_get (t : Z) (c : UrlCache.t) (u : string) :
  cacheShaped c → cacheShaped (UrlCache.get t c u).2.
Proof.
  intros Hc. unfold UrlCache.get. destruct (UrlCache.cache c !! u) as [e|]; [| done].
  destruct (_ >? _)%Z; [| done]. intros u' e' H. simpl in H.
  apply lookup_delete_Some in H as [_ H]. by eapply Hc.
Qed.

Lemma validateUrl_shaped fuel env cfg u signal w o w' :
  cacheShaped (cache w) →
  validateUrl fuel env cfg u signal w = Some (o, w') →
  outcomeShaped o ∧ cacheShaped (cache w').
Proof.
  intros Hc Hrun.
  pose proof (shaped_get (now w) (cache w) u Hc) as Hc0.
  destruct (validateUrl_inv _ _ _ _ _ _ _ _ Hrun)
    as [(e & Hget & -> & ->) | [(Hm & err & w1 & Hf & Hp & Heq)
                               | (Hm & valid & sc & st & w1 & Hp & Heq & _)]].
  - split; [| exact Hc0]. left. apply get_hit in Hget as [_ Hin]. by apply (Hc u e).
  - destruct Hp as (Hcache & _).
    assert (Hc1 : cacheShaped (cache w1)) by (by rewrite Hcache).
    destruct (decide (err = JsError "Request cancelled")) as [-> | Hne].
    { simpl in Heq. injection Heq as -> ->. split; [by right | done]. }
    destruct (handleError_failed u err w1 Hne) as (msg & Hh & _).
    rewrite Hh in Heq. injection Heq as -> ->.
    assert (Hs : shaped false None None (Some msg)).
    { right. by repeat split. }
    split; [by left |]. simpl. by apply shaped_set.
  - destruct Hp as (Hcache & _).
    assert (Hc1 : cacheShaped (cache w1)) by (by rewrite Hcache).
    injection Heq as -> ->.
    assert (Hs : shaped valid (Some sc) (Some st) None).
    { left. by repeat split. }
    split; [by left |]. simpl. by apply shaped_set.
Qed.

(** X13. Every outcome of a batch, fresh or from the cache, carries either
    a status code with its text and no error, or an error and no status;
    an outcome with an error is not valid unless it is the cancellation
    outcome, which is never in the cache. This holds from any cache whose
    entries have one of the two shapes, as a new cache has, and such a
    cache is what the batch leaves. *)
Theorem outcomes_have_status_or_error fuel env cfg urls w rs w' :
  cacheShaped (cache w) →
  validateUrls fuel env cfg urls w = Some (rs, w') →
  Forall outcomeShaped rs ∧ cacheShaped (cache w').
Proof.
  apply (validateUrls_keeps cacheShaped outcomeShaped).
  intros. by eapply validateUrl_shaped.
Qed.

Lemma outcomes_have_status_or_error_witness :
  ∃ rs w',
    validateUrls 2 dnsFailure defaultConfig ["https://nosuch.example/a.png"] world0
      = Some (rs, w') ∧
    Forall outcomeShaped rs.
Proof.
  eexists _, _. split; [vm_compute; reflexivity |].
  eapply (outcomes_have_status_or_error 2 dnsFailure defaultConfig
            ["https://nosuch.example/a.png"] world0).
  - intros u e H. simpl in H. by rewrite lookup_empty in H.
  - vm_compute. reflexivity.
Defined.

Lemma verdict_set (t : Z) (c : UrlCache.t) (u : string) (r : UrlCache.Result) :
  cacheVerdict c →
  verdictRule (UrlCache.r_isValid r) (UrlCache.r_statusCode r) (UrlCache.r_statusText r) →
  cacheVerdict (UrlCache.set t c u r).
Proof.
  intros Hc Hr u' e H. simpl in H.
  apply lookup_insert_Some in H as [[_ <-] | [_ H]]; [exact Hr | by eapply Hc].
Qed.

Lemma verdict_get (t : Z) (c : UrlCache.t) (u : string) :
  cacheVerdict c → cacheVerdict (UrlCache.get t c u).2.
Proof.
  intros Hc. unfold UrlCache.get. destruct (UrlCache.cache c !! u) as [e|]; [| done].
  destruct (_ >? _)%Z; [| done]. intros u' e' H. simpl in H.
  apply lookup_delete_Some in H as [_ H]. by eapply Hc.
Qed.

Lemma cacheAndReturn_verdict u valid sc st w :
  cacheVerdict (cache w) → verdictRule valid (Some sc) (Some st) →
  outcomeVerdict (cacheAndReturn u valid sc st w).1 ∧
  cacheVerdict (cache (cacheAndReturn u valid sc st w).2).
Proof. intros Hc Hr. split; [exact Hr |]. simpl. by apply verdict_set. Qed.

Lemma handleError_verdict u err w :
  cacheVerdict (cache w) →
  outcomeVerdict (handleError u err w).1 ∧ cacheVerdict (cache (handleError u err w).2).
Proof.
  intros Hc.
  assert (He : ∀ msg, outcomeVerdict (cacheError u msg w).1 ∧
                      cacheVerdict (cache (cacheError u msg w).2)).
  { intros msg. split; [intros n [=] |]. simpl. apply verdict_set; [done |].
    intros n [=]. }
  destruct err as [m|]; unfold handleError; [destruct (decide _) |]; auto.
  split; [intros n [=] | done].
Qed.

Lemma validateUrl_verdict fuel env cfg u signal w o w' :
  cacheVerdict (cache w) →
  validateUrl fuel env cfg u signal w = Some (o, w') →
  outcomeVerdict o ∧ cacheVerdict (cache w').
Proof.
  intros Hc Hrun.
  pose proof (verdict_get (now w) (cache w) u Hc) as Hc0.
  destruct (UrlCache.get (now w) (cache w) u).1 as [e|] eqn:Hget.
  { rewrite (validateUrl_hit _ _ _ _ _ _ _ Hget) in Hrun. injection Hrun as <- <-.
    split; [| exact Hc0]. apply get_hit in Hget as [_ Hin]. by apply (Hc u e). }
  rewrite (validateUrl_miss _ _ _ _ _ _ Hget) in Hrun.
  assert (Hleaf : ∀ (r : ValidationResult * World),
            outcomeVerdict r.1 ∧ cacheVerdict (cache r.2) →
            Some r = Some (o, w') → outcomeVerdict o ∧ cacheVerdict (cache w')).
  { intros r Hr [= ->]. exact Hr. }
  destruct (headProbe _ _ _ _ _ _) as [[[r | err] w1]|] eqn:Hhead; [| | discriminate].
  2:{ eapply Hleaf; [| exact Hrun]. apply handleError_verdict.
      by destruct (makeRequest_probed _ _ _ _ _ _ _ _ _ _ Hhead) as (-> & _). }
  assert (Hc1 : cacheVerdict (cache w1)).
  { by destruct (makeRequest_probed _ _ _ _ _ _ _ _ _ _ Hhead) as (-> & _). }
  cbv zeta in Hrun.
  destruct (inRange (Http.statusCode r)) eqn:Hin.
  { eapply Hleaf; [| exact Hrun]. apply cacheAndReturn_verdict; [done |].
    intros n [= <-]. apply inRange_spec in Hin. tauto. }
  apply inRange_false in Hin.
  destruct (includesZ BROKEN_STATUS_CODES (Http.statusCode r)) eqn:Hbr.
  { eapply Hleaf; [| exact Hrun]. apply cacheAndReturn_verdict; [done |].
    intros n [= <-]. apply broken_spec in Hbr. split; [discriminate |]. lia. }
  destruct ((_ =? 403) || _)%Z eqn:Hesc.
  2:{ eapply Hleaf; [| exact Hrun]. unfold generalRule.
      apply cacheAndReturn_verdict; [done |].
      intros n [= <-]. apply orb_false_iff in Hesc as [H403 _]. apply Z.eqb_neq in H403.
      assert (inRange (Http.statusCode r) = false) as -> by (by apply inRange_false).
      split; [discriminate |]. lia. }
  destruct (getProbe _ _ _ _ _ _) as [[[r' | err] w2]|] eqn:Hg; [| | discriminate].
  2:{ eapply Hleaf; [| exact Hrun]. apply handleError_verdict.
      by destruct (makeRequest_probed _ _ _ _ _ _ _ _ _ _ Hg) as (-> & _). }
  assert (Hc2 : cacheVerdict (cache w2)).
  { by destruct (makeRequest_probed _ _ _ _ _ _ _ _ _ _ Hg) as (-> & _). }
  destruct (inRange (Http.statusCode r')) eqn:Hin'.
  { eapply Hleaf; [| exact Hrun]. apply cacheAndReturn_verdict; [done |].
    intros n [= <-]. apply inRange_spec in Hin'. tauto. }
  apply inRange_false in Hin'.
  destruct (Http.statusCode r' =? 403)%Z eqn:H403.
  - apply Z.eqb_eq in H403.
    destruct (isCdnErrorResponse r'); (eapply Hleaf; [| exact Hrun]);
      (apply cacheAndReturn_verdict; [done |]); intros n [= <-].
    + split; [discriminate |]. intros [H | [_ [=]]]. lia.
    + split; [intros _ | done]. by right.
  - apply Z.eqb_neq in H403. eapply Hleaf; [| exact Hrun]. unfold generalRule.
    apply cacheAndReturn_verdict; [done |]. intros n [= <-].
    assert (inRange (Http.statusCode r') = false) as -> by (by apply inRange_false).
    split; [discriminate |]. lia.
Qed.

(** X14. The verdict follows the status code in every outcome of a batch
    that has one: the outcome is valid exactly when the status lies in
    [[200, 400)] or when it is a 403 with the text "Protected". This holds
    from any cache whose entries obey the rule, as a new cache does, and
    the batch leaves such a cache. *)
Theorem verdict_follows_status fuel env cfg urls w rs w' :
  cacheVerdict (cache w) →
  validateUrls fuel env cfg urls w = Some (rs, w') →
  Forall outcomeVerdict rs ∧ cacheVerdict (cache w').
Proof.
  apply (validateUrls_keeps cacheVerdict outcomeVerdict).
  intros. by eapply validateUrl_verdict.
Qed.

Lemma verdict_follows_status_witness :
  ∃ rs w',
    validateUrls 2 cdnMissing defaultConfig ["https://cdn.example/a.png"] world0
      = Some (rs, w') ∧
    Forall outcomeVerdict rs.
Proof.
  eexists _, _. split; [vm_compute; reflexivity |].
  eapply (verdict_follows_status 2 cdnMissing defaultConfig
            ["https://cdn.example/a.png"] world0).
  - intros u e H. simpl in H. by rewrite lookup_empty in H.
  - vm_compute. reflexivity.
Defined.

(** ** The batch coordinator: supersession and window size *)

(** X15. A call with a non-empty list supersedes the batch in flight: it
    allocates exactly one new abort controller, and the signal of the
    controller the validator held before is aborted when the call
    returns. *)
Theorem new_batch_supersedes fuel env cfg urls w rs w' c :
  urls ≠ [] → (0 < maxConcurrent cfg)%Z →
  abortController w = Some c → c < length (controllers w) →
  validateUrls fuel env cfg urls w = Some (rs, w') →
  aborted c w' = true ∧
  length (controllers w') = S (length (controllers w)).
Proof.
  intros Hne Hk Hc Hlt Hrun. rewrite (validateUrls_nonempty _ _ _ _ _ Hne) in Hrun.
  destruct (batchStart_frame w) as (_ & _ & _ & _ & _ & Hab).
  eapply (windows_frame _ _ _ _ _ _ _ _ _ _ _ (cacheGets (log (batchStart w)))) in Hrun
    as (_ & _ & Hlen & Hmono & _); [| done | done | done | by rewrite app_nil_r].
  split; [apply Hmono; by apply Hab |].
  rewrite Hlen. unfold batchStart. simpl. rewrite length_app. simpl.
  destruct (probed_cancel w) as (_ & -> & _). lia.
Qed.

Lemma new_batch_supersedes_witness :
  ∃ rs w',
    validateUrls 2 cdnMissing defaultConfig ["https://cdn.example/a.png"] world0
      = Some (rs, w') ∧
    aborted 0 w' = true ∧ length (controllers w') = 2.
Proof.
  eexists _, _. split; [vm_compute; reflexivity |].
  eapply (new_batch_supersedes 2 cdnMissing defaultConfig ["https://cdn.example/a.png"]
            world0 _ _ 0%nat).
  - discriminate.
  - reflexivity.
  - reflexivity.
  - simpl. lia.
  - vm_compute. reflexivity.
Defined.



(** ** Diagnostics *)

Lemma substring0_split (n : nat) (s : string) :
  n ≤ String.length s →
  ∃ rest, s = String.substring 0 n s +:+ rest ∧
          String.length (String.substring 0 n s) = n.
Proof.
  revert s. induction n as [|n IH]; intros s Hn.
  - exists s. by destruct s.
  - destruct s as [|c s]; [simpl in Hn; lia |]. simpl in Hn.
    destruct (IH s) as (rest & Hs & Hl); [lia |].
    exists rest. simpl. rewrite str_app_cons. split; [by rewrite <- Hs | by rewrite Hl].
Qed.

(** X17. A URL is shown in at most [maxLength] characters (60 by
    default): a URL within the bound is shown as it is, a longer one as
    its first [maxLength - 3] characters followed by three dots. *)
Theorem truncateUrl_bounded (u : string) (maxLength : Z) :
  (3 ≤ maxLength)%Z →
  (Z.of_nat (String.length (DiagnosticsManager.truncateUrl u maxLength)) ≤ maxLength)%Z ∧
  ((Z.of_nat (String.length u) ≤ maxLength)%Z →
   DiagnosticsManager.truncateUrl u maxLength = u) ∧
  ((maxLength < Z.of_nat (String.length u))%Z →
   ∃ kept rest,
     u = kept +:+ rest ∧
     Z.of_nat (String.length kept) = (maxLength - 3)%Z ∧
     DiagnosticsManager.truncateUrl u maxLength = kept +:+ "...").
Proof.
  intros Hmax. unfold DiagnosticsManager.truncateUrl, JsText.substring0.
  destruct (Z.leb_spec (Z.of_nat (String.length u)) maxLength) as [Hshort | Hlong].
  - split; [done |]. split; [done | lia].
  - destruct (substring0_split (Z.to_nat (maxLength - 3)) u) as (rest & Hu & Hl); [lia |].
    split; [rewrite str_app_length, Hl; simpl; lia |].
    split; [lia |]. intros _.
    exists (String.substring 0 (Z.to_nat (maxLength - 3)) u), rest.
    split; [exact Hu |]. split; [rewrite Hl; lia | done].
Qed.

Lemma truncateUrl_bounded_witness :
  (Z.of_nat (String.length
     (DiagnosticsManager.truncateUrl
        "https://cdn.example.com/assets/images/2024/summer-campaign/hero-banner-large.png"
        60)) ≤ 60)%Z.
Proof.
  apply (truncateUrl_bounded
           "https://cdn.example.com/assets/images/2024/summer-campaign/hero-banner-large.png"
           60).
  lia.
Defined.

Lemma resultMap_fold (results : list ValidationResult)
    (m : gmap string ValidationResult) (u : string) :
  fold_left (λ m result, <[url result := result]> m) results m !! u =
  match lastResult u results with
  | Some r => Some r
  | None => m !! u
  end.
Proof.
  revert m. induction results as [|r results IH]; intros m; simpl; [done |].
  rewrite IH. destruct (lastResult u results) as [x|]; [done |].
  destruct (decide (url r = u)) as [<- | Hne].
  - apply lookup_insert_eq.
  - by apply lookup_insert_ne.
Qed.

(** When the results name a URL more than once, the last one counts. *)
Lemma resultMap_lookup (results : list ValidationResult) (u : string) :
  DiagnosticsManager.resultMap results !! u = lastResult u results.
Proof.
  unfold DiagnosticsManager.resultMap. rewrite resultMap_fold, lookup_empty.
  by destruct (lastResult u results).
Qed.

Lemma report_step (results : list ValidationResult) (x : UrlScanner.DetectedUrl) :
  ∃ g, Vscode.range g = UrlScanner.range x ∧ Vscode.severity g = Vscode.Warning ∧
       ∀ acc, DiagnosticsManager.report (DiagnosticsManager.resultMap results) acc x =
              if brokenIn results (UrlScanner.url x) then acc ++ [g] else acc.
Proof.
  unfold DiagnosticsManager.report, brokenIn. rewrite resultMap_lookup.
  destruct (lastResult (UrlScanner.url x) results) as [r|].
  - eexists. split; [| split; [| intros acc; reflexivity]]; reflexivity.
  - exists {| Vscode.range := UrlScanner.range x; Vscode.message := "";
             Vscode.severity := Vscode.Warning; Vscode.source := None;
             Vscode.code := None |}.
    by repeat split.
Qed.

Lemma report_fold (results : list ValidationResult)
    (detected : list UrlScanner.DetectedUrl) (acc : list Vscode.Diagnostic) :
  let diags :=
    fold_left (DiagnosticsManager.report (DiagnosticsManager.resultMap results))
      detected acc in
  map Vscode.range diags =
    map Vscode.range acc ++
    map UrlScanner.range
      (filter (λ x, brokenIn results (UrlScanner.url x) = true) detected) ∧
  (Forall (λ g, Vscode.severity g = Vscode.Warning) acc →
   Forall (λ g, Vscode.severity g = Vscode.Warning) diags).
Proof.
  revert acc. induction detected as [|x detected IH]; intros acc; simpl.
  - split; [by rewrite app_nil_r | done].
  - destruct (report_step results x) as (g & Hrange & Hsev & Hstep).
    rewrite Hstep, filter_cons.
    destruct (brokenIn results (UrlScanner.url x)).
    + rewrite decide_True by done.
      destruct (IH (acc ++ [g])) as [Hr Hs]. split.
      * rewrite Hr, map_app. simpl. by rewrite Hrange, <- app_assoc.
      * intros Hacc. apply Hs, Forall_app. split; [done |]. by repeat constructor.
    + rewrite decide_False by discriminate. apply IH.
Qed.


(** X18. After [updateDiagnostics] the document shows one warning for
    every detected occurrence of a URL whose last result says not valid,
    at the range of that occurrence and in document order, and nothing
    else: an occurrence whose URL has no result, or a valid result, gets
    no diagnostic. *)
Theorem updateDiagnostics_reports_broken (document : Vscode.TextDocument)
    (detected : list UrlScanner.DetectedUrl) (results : list ValidationResult)
    (d : DiagnosticsManager.t) :
  let diags :=
    diagnosticsOf document
      (DiagnosticsManager.updateDiagnostics document detected results d) in
  map Vscode.range diags =
    map UrlScanner.range
      (filter (λ x, brokenIn results (UrlScanner.url x) = true) detected) ∧
  Forall (λ g, Vscode.severity g = Vscode.Warning) diags.
Proof.
  unfold diagnosticsOf, DiagnosticsManager.updateDiagnostics. simpl.
  rewrite lookup_insert_eq. simpl.
  destruct (report_fold results detected []) as [Hr Hs].
  split; [exact Hr | apply Hs; constructor].
Qed.

(** X19. Diagnostics are replaced, not accumulated: a second update of a
    document makes the first one irrelevant, clearing after an update is
    clearing, and neither touches another document. *)
Theorem updateDiagnostics_replaces (document other : Vscode.TextDocument)
    (detected1 detected2 : list UrlScanner.DetectedUrl)
    (results1 results2 : list ValidationResult) (d : DiagnosticsManager.t) :
  Vscode.uri other ≠ Vscode.uri document →
  DiagnosticsManager.updateDiagnostics document detected2 results2
    (DiagnosticsManager.updateDiagnostics document detected1 results1 d)
  = DiagnosticsManager.updateDiagnostics document detected2 results2 d ∧
  DiagnosticsManager.clearDiagnostics document
    (DiagnosticsManager.updateDiagnostics document detected1 results1 d)
  = DiagnosticsManager.clearDiagnostics document d ∧
  diagnosticsOf other (DiagnosticsManager.updateDiagnostics document detected1 results1 d)
  = diagnosticsOf other d ∧
  diagnosticsOf other (DiagnosticsManager.clearDiagnostics document d)
  = diagnosticsOf other d.
Proof.
  intros Hne. unfold DiagnosticsManager.updateDiagnostics,
    DiagnosticsManager.clearDiagnostics, diagnosticsOf. simpl.
  split; [by rewrite insert_insert_eq |]. split; [by rewrite delete_insert_eq |].
  split; [by rewrite lookup_insert_ne | by rewrite lookup_delete_ne].
Qed.

(** ** The URL scanner *)

Lemma all_app (class : ascii → bool) (s t : string) :
  JsText.all class (s +:+ t) = JsText.all class s && JsText.all class t.
Proof.
  induction s as [|c s IH]; [done |]. rewrite str_app_cons. simpl.
  by rewrite IH, andb_assoc.
Qed.

Lemma all_weaken (class class' : ascii → bool) (s : string) :
  (∀ c, class c = true → class' c = true) →
  JsText.all class s = true → JsText.all class' s = true.
Proof.
  intros Hc. induction s as [|c s IH]; [done |]. simpl.
  rewrite !andb_true_iff. intros [H1 H2]. auto.
Qed.

Lemma stripTrailing_split (class : ascii → bool) (s : string) :
  ∃ removed, s = JsText.stripTrailing class s +:+ removed ∧
             JsText.all class removed = true.
Proof.
  induction s as [|c s (removed & Hs & Hall)]; [by exists "" |]. simpl.
  destruct (JsText.stripTrailing class s) as [|d t] eqn:Hst.
  - rewrite str_app_nil_l in Hs. subst removed.
    destruct (class c) eqn:Hc.
    + exists (String c s). split; [done |]. simpl. by rewrite Hc, Hall.
    + exists s. by split.
  - exists removed. split; [| done]. by rewrite str_app_cons, <- Hs.
Qed.

Lemma endsWith_spec (s suffix : string) :
  JsText.endsWith s suffix = true ↔ ∃ before, s = before +:+ suffix.
Proof.
  induction s as [|c s IH]; simpl.
  - rewrite orb_false_r, bool_decide_eq_true. split.
    + intros <-. by exists "".
    + intros [[|b before] H]; [done | discriminate H].
  - rewrite orb_true_iff, bool_decide_eq_true, IH. split.
    + intros [<- | [before ->]]; [by exists "" | by exists (String c before)].
    + intros [[|b before] H]; [by left |]. right. injection H as _ ->. by exists before.
Qed.

Lemma dropLast_snoc (s : string) (c : ascii) : JsText.dropLast (s +:+ String c "") = s.
Proof.
  induction s as [|d s IH]; [done |]. rewrite str_app_cons. simpl. rewrite IH.
  destruct s; reflexivity.
Qed.

Lemma snoc_inj (a b : string) (x y : ascii) :
  a +:+ String x "" = b +:+ String y "" → a = b ∧ x = y.
Proof.
  revert b. induction a as [|c a IH]; intros [|d b] H.
  - by injection H as ->.
  - injection H as _ H. by destruct b.
  - injection H as _ H. by destruct a.
  - injection H as -> H. apply IH in H as [-> ->]. done.
Qed.

Lemma toLowerCase_app (s t : string) :
  Js.toLowerCase (s +:+ t) = Js.toLowerCase s +:+ Js.toLowerCase t.
Proof. induction s as [|c s IH]; [done |]. rewrite str_app_cons. simpl. by rewrite IH. Qed.

Lemma lowerChar_paren (c : ascii) : Js.lowerChar c = ")"%char → c = ")"%char.
Proof.
  destruct c as [[] [] [] [] [] [] [] []]; vm_compute; intros H;
    first [reflexivity | discriminate H].
Qed.

Lemma stripUnbalanced_split (fuel openCount closeCount : nat) (s : string) :
  ∃ removed, s = UrlScanner.stripUnbalanced fuel openCount closeCount s +:+ removed ∧
             JsText.all (JsText.oneOf ")") removed = true.
Proof.
  revert closeCount s. induction fuel as [|fuel IH]; intros closeCount s; simpl.
  { exists "". by rewrite str_app_nil_r. }
  destruct ((openCount <? closeCount)%nat && JsText.endsWith s ")") eqn:Hc.
  2:{ exists "". by rewrite str_app_nil_r. }
  apply andb_true_iff in Hc as [_ Hends]. apply endsWith_spec in Hends as [before ->].
  rewrite dropLast_snoc.
  destruct (IH (closeCount - 1) before) as (removed & Hb & Hall).
  exists (removed +:+ ")"). split.
  - rewrite <- str_app_assoc. by rewrite <- Hb.
  - by rewrite all_app, Hall.
Qed.

Lemma testExtParen_last (s : string) :
  UrlScanner.testExtParen s = true → ∃ before, s = before +:+ ")".
Proof.
  unfold UrlScanner.testExtParen. rewrite existsb_exists.
  intros (ext & _ & Hends). apply endsWith_spec in Hends as [before Hlow].
  assert (Hlow' : Js.toLowerCase s = (before +:+ "." +:+ ext) +:+ ")").
  { rewrite Hlow. by rewrite !str_app_assoc. }
  clear Hlow. rename Hlow' into Hlow.
  destruct s as [|c s].
  { exfalso. simpl in Hlow. by destruct (before +:+ "." +:+ ext). }
  assert (Hsnoc : ∃ init l, String c s = init +:+ String l "").
  { clear. revert c. induction s as [|d s IH]; intros c.
    - by exists "", c.
    - destruct (IH d) as (init & l & ->). by exists (String c init), l. }
  destruct Hsnoc as (init & l & Hs). rewrite Hs in Hlow |- *.
  rewrite toLowerCase_app in Hlow. simpl in Hlow.
  apply snoc_inj in Hlow as [_ Hl]. apply lowerChar_paren in Hl. subst l.
  by exists init.
Qed.

(** What [cleanUrl] removes stands at the end of the captured text and
    consists of trailing punctuation, quotes, closing brackets and closing
    parentheses. *)
Lemma cleanUrl_split (u : string) :
  ∃ removed, u = UrlScanner.cleanUrl u +:+ removed ∧
             JsText.all (JsText.oneOf trailingJunk) removed = true.
Proof.
  unfold UrlScanner.cleanUrl. cbv zeta.
  destruct (stripTrailing_split (JsText.oneOf ",;:!?.") u) as (r1 & H1 & A1).
  set (s1 := JsText.stripTrailing (JsText.oneOf ",;:!?.") u) in *.
  destruct (stripTrailing_split (JsText.oneOf (String JsText.dquote "'`]}>")) s1)
    as (r2 & H2 & A2).
  set (s2 := JsText.stripTrailing _ s1) in *.
  destruct (stripUnbalanced_split (JsText.count ")" s2) (JsText.count "(" s2)
              (JsText.count ")" s2) s2) as (r3 & H3 & A3).
  set (s3 := UrlScanner.stripUnbalanced _ _ _ s2) in *.
  assert (J1 : JsText.all (JsText.oneOf trailingJunk) r1 = true).
  { revert A1. apply all_weaken. intros c.
    destruct c as [[] [] [] [] [] [] [] []]; vm_compute; congruence. }
  assert (J2 : JsText.all (JsText.oneOf trailingJunk) r2 = true).
  { revert A2. apply all_weaken. intros c.
    destruct c as [[] [] [] [] [] [] [] []]; vm_compute; congruence. }
  assert (J3 : JsText.all (JsText.oneOf trailingJunk) r3 = true).
  { revert A3. apply all_weaken. intros c.
    destruct c as [[] [] [] [] [] [] [] []]; vm_compute; congruence. }
  destruct (UrlScanner.testExtParen s3) eqn:Hext.
  - apply testExtParen_last in Hext as [before Hs3]. rewrite Hs3, dropLast_snoc.
    exists (")" +:+ r3 +:+ r2 +:+ r1). split.
    + rewrite H1, H2, H3, Hs3. by rewrite !str_app_assoc.
    + rewrite !all_app, J1, J2, J3. reflexivity.
  - exists (r3 +:+ r2 +:+ r1). split.
    + rewrite H1 at 1. rewrite H2 at 1. rewrite H3 at 1. by rewrite !str_app_assoc.
    + by rewrite !all_app, J1, J2, J3.
Qed.

(** X20. [cleanUrl] only removes characters from the end of the captured
    text, and only punctuation, quotes, closing brackets and closing
    parentheses: the result is a prefix of the input, and an input that
    does not end with one of these characters is returned as it is. *)
Theorem cleanUrl_strips_only_trailing (u : string) :
  (∃ removed, u = UrlScanner.cleanUrl u +:+ removed ∧
              JsText.all (JsText.oneOf trailingJunk) removed = true) ∧
  (∀ c, lastIs u c → JsText.oneOf trailingJunk c = false → UrlScanner.cleanUrl u = u).
Proof.
  pose proof (cleanUrl_split u) as Hsplit.
  split; [exact Hsplit |].
  intros c [before Hu] Hc. destruct Hsplit as (removed & Heq & Hall).
  destruct removed as [|r removed]; [by rewrite str_app_nil_r in Heq |].
  exfalso.
  assert (Hsnoc : ∃ init l, String r removed = init +:+ String l "").
  { clear. revert r. induction removed as [|d s IH]; intros c.
    - by exists "", c.
    - destruct (IH d) as (init & l & ->). by exists (String c init), l. }
  destruct Hsnoc as (init & l & Hs). rewrite Hs in Heq, Hall.
  rewrite Hu, <- str_app_assoc in Heq. apply snoc_inj in Heq as [_ ->].
  rewrite all_app in Hall. apply andb_true_iff in Hall as [_ Hl]. simpl in Hl.
  rewrite andb_true_r in Hl. congruence.
Qed.

Lemma cleanUrl_strips_only_trailing_witness :
  UrlScanner.cleanUrl "https://example.com/image%20(1).png"
  = "https://example.com/image%20(1).png".
Proof.
  apply (cleanUrl_strips_only_trailing "https://example.com/image%20(1).png") with "g"%char.
  - by exists "https://example.com/image%20(1).pn".
  - vm_compute. reflexivity.
Defined.

Lemma toLowerCase_length (s : string) :
  String.length (Js.toLowerCase s) = String.length s.
Proof. induction s as [|c s IH]; [done |]. simpl. by rewrite IH. Qed.

Lemma stripPrefixCI_spec (p s rest : string) :
  JsText.stripPrefixCI p s = Some rest ↔
  ∃ m, s = m +:+ rest ∧ Js.toLowerCase m = p.
Proof.
  revert s. induction p as [|a p IH]; intros s.
  - split.
    + destruct s; simpl; intros [= <-]; by exists "".
    + intros ([|c m] & -> & Hm); [| discriminate Hm]. by destruct rest.
  - destruct s as [|b s]; simpl.
    + split; [discriminate |]. intros ([|c m] & Hs & Hm); [discriminate Hm | discriminate Hs].
    + destruct (decide (a = Js.lowerChar b)) as [-> | Hne].
      * rewrite IH. split.
        -- intros (m & -> & <-). by exists (String b m).
        -- intros ([|c m] & Hs & Hm); [discriminate Hm |].
           rewrite str_app_cons in Hs. injection Hs as <- ->.
           simpl in Hm. injection Hm as Hm. by exists m.
      * split; [discriminate |].
        intros ([|c m] & Hs & Hm); [discriminate Hm |].
        rewrite str_app_cons in Hs. injection Hs as <- ->.
        simpl in Hm. injection Hm as Hc _. congruence.
Qed.

Lemma extensionHere_spec (s : string) :
  UrlScanner.extensionHere s = true ↔
  ∃ ext dotExt query,
    ext ∈ UrlScanner.ASSET_EXTENSIONS ∧ s = dotExt +:+ query ∧
    Js.toLowerCase dotExt = "." +:+ ext ∧
    (query = "" ∨ ∃ q, query = "?" +:+ q ∧ JsText.all UrlScanner.queryChar q = true).
Proof.
  unfold UrlScanner.extensionHere. rewrite existsb_exists. split.
  - intros (ext & Hin & H). apply list_elem_of_In in Hin.
    destruct (JsText.stripPrefixCI ("." +:+ ext) s) as [rest|] eqn:Hp; [| discriminate].
    apply stripPrefixCI_spec in Hp as (m & -> & Hm).
    exists ext, m, rest. split; [done |]. split; [done |]. split; [done |].
    destruct rest as [|c q]; [by left |]. right.
    apply andb_true_iff in H as [Hc Hq]. apply bool_decide_eq_true in Hc as ->.
    by exists q.
  - intros (ext & m & query & Hin & -> & Hm & Hq).
    exists ext. split; [by apply list_elem_of_In |].
    assert (Hp : JsText.stripPrefixCI ("." +:+ ext) (m +:+ query) = Some query).
    { apply stripPrefixCI_spec. by exists m. }
    rewrite Hp. destruct Hq as [-> | (q & -> & Hall)]; [done |].
    rewrite str_app_cons, str_app_nil_l. by rewrite Hall, bool_decide_eq_true_2.
Qed.

Lemma testAssetExtension_spec (u : string) :
  UrlScanner.testAssetExtension u = true ↔
  ∃ before rest, u = before +:+ rest ∧ UrlScanner.extensionHere rest = true.
Proof.
  induction u as [|c u IH]; cbn [UrlScanner.testAssetExtension].
  - rewrite orb_false_r. split.
    + intros H. by exists "", "".
    + intros ([|b before] & rest & Hu & H); [| discriminate Hu].
      rewrite str_app_nil_l in Hu. by subst rest.
  - rewrite orb_true_iff, IH. split.
    + intros [H | (before & rest & -> & H)].
      * by exists "", (String c u).
      * by exists (String c before), rest.
    + intros ([|b before] & rest & Hu & H).
      * left. rewrite str_app_nil_l in Hu. by subst rest.
      * right. rewrite str_app_cons in Hu. injection Hu as _ ->. by exists before, rest.
Qed.

(** X21. A URL is checked exactly when, without regard to case, it
    contains one of the CDN patterns, or it contains a dot and one of the
    asset extensions followed by the end of the URL or by a question mark
    and a query without white space, quotes, [>] or a closing square
    bracket. *)
Theorem shouldCheckUrl_iff (u : string) :
  UrlScanner.shouldCheckUrl u = true ↔
  (∃ p, p ∈ UrlScanner.CDN_PATTERNS ∧ occursIn p (Js.toLowerCase u)) ∨
  (∃ ext before dotExt query,
     ext ∈ UrlScanner.ASSET_EXTENSIONS ∧
     u = before +:+ dotExt +:+ query ∧
     Js.toLowerCase dotExt = "." +:+ ext ∧
     (query = "" ∨ ∃ q, query = "?" +:+ q ∧ JsText.all UrlScanner.queryChar q = true)).
Proof.
  assert (Hcdn : existsb (λ pattern, UrlScanner.testLiteral pattern u) UrlScanner.CDN_PATTERNS
                 = true ↔
                 ∃ p, p ∈ UrlScanner.CDN_PATTERNS ∧ occursIn p (Js.toLowerCase u)).
  { rewrite existsb_exists. unfold UrlScanner.testLiteral.
    split; intros (p & Hin & H); exists p.
    - split; [by apply list_elem_of_In | by apply includes_true].
    - split; [by apply list_elem_of_In | by apply includes_true]. }
  assert (Hext : UrlScanner.testAssetExtension u = true ↔
                 ∃ ext before dotExt query,
                   ext ∈ UrlScanner.ASSET_EXTENSIONS ∧
                   u = before +:+ dotExt +:+ query ∧
                   Js.toLowerCase dotExt = "." +:+ ext ∧
                   (query = "" ∨
                    ∃ q, query = "?" +:+ q ∧ JsText.all UrlScanner.queryChar q = true)).
  { rewrite testAssetExtension_spec. split.
    - intros (before & rest & -> & H).
      apply extensionHere_spec in H as (ext & dotExt & query & Hin & -> & Hm & Hq).
      by exists ext, before, dotExt, query.
    - intros (ext & before & dotExt & query & Hin & -> & Hm & Hq).
      exists before, (dotExt +:+ query). split; [done |].
      apply extensionHere_spec. by exists ext, dotExt, query. }
  unfold UrlScanner.shouldCheckUrl. rewrite <- Hcdn, <- Hext.
  destruct (existsb _ _); [tauto |].
  destruct (UrlScanner.testAssetExtension u); intuition congruence.
Qed.

Lemma span_split (class : ascii → bool) (s m rest : string) :
  JsText.span class s = (m, rest) → s = m +:+ rest.
Proof.
  revert m rest. induction s as [|c s IH]; intros m rest; simpl.
  - by intros [= <- <-].
  - destruct (class c).
    + destruct (JsText.span class s) as [m' rest'] eqn:Hs. intros [= <- <-].
      rewrite str_app_cons. f_equal. by apply IH.
    + by intros [= <- <-].
Qed.

Lemma stripPrefixCI_length (p s rest : string) :
  JsText.stripPrefixCI p s = Some rest →
  String.length s = String.length p + String.length rest.
Proof.
  intros H. apply stripPrefixCI_spec in H as (m & -> & <-).
  by rewrite str_app_length, toLowerCase_length.
Qed.

(** A match of the URL pattern is not empty and lies within the text. *)
Lemma matchUrlHere_bound (s : string) (n : nat) :
  UrlScanner.matchUrlHere s = Some n → 1 ≤ n ≤ String.length s.
Proof.
  unfold UrlScanner.matchUrlHere.
  destruct (JsText.stripPrefixCI "http" s) as [r|] eqn:Hh; [| discriminate].
  apply stripPrefixCI_length in Hh. simpl in Hh.
  assert (Hbody : ∀ skipped r',
            skipped + String.length r' = String.length s →
            match JsText.stripPrefixCI "://" r' with
            | Some r'' =>
                match JsText.span UrlScanner.urlChar r'' with
                | (EmptyString, _) => None
                | (m, _) => Some (skipped + 3 + String.length m)
                end
            | None => None
            end = Some n → 1 ≤ n ≤ String.length s).
  { intros skipped r' Hlen H.
    destruct (JsText.stripPrefixCI "://" r') as [r''|] eqn:Hc; [| discriminate].
    apply stripPrefixCI_length in Hc. simpl in Hc.
    destruct (JsText.span UrlScanner.urlChar r'') as [m rest] eqn:Hs.
    apply span_split in Hs. subst r''. rewrite str_app_length in Hc.
    destruct m as [|c m]; [discriminate |]. injection H as <-. simpl in *. lia. }
  destruct (JsText.stripPrefixCI "s" r) as [r'|] eqn:Hs.
  - apply stripPrefixCI_length in Hs. simpl in Hs.
    match goal with |- context [match ?b with Some _ => _ | None => _ end = _] =>
      destruct b eqn:Hb end.
    + intros [= <-]. apply (Hbody 5 r'); [lia | exact Hb].
    + apply (Hbody 4 r). lia.
  - apply (Hbody 4 r). lia.
Qed.

(** Every match reported by the loop stands in the text at its index. *)
Lemma execAll_sound (s : string) (index skip : nat) (m : nat * string) :
  m ∈ UrlScanner.execAll s index skip →
  ∃ before after, s = before +:+ m.2 +:+ after ∧ m.1 = index + String.length before.
Proof.
  revert index skip. induction s as [|c s IH]; intros index skip Hin; simpl in Hin.
  { by apply elem_of_nil in Hin. }
  assert (Hnext : ∀ k, m ∈ UrlScanner.execAll s (S index) k →
            ∃ before after, String c s = before +:+ m.2 +:+ after ∧
                            m.1 = index + String.length before).
  { intros k Hk. apply IH in Hk as (before & after & -> & Hm).
    exists (String c before), after. split; [done |]. simpl. lia. }
  destruct skip as [|skip]; [| by eapply Hnext].
  destruct (UrlScanner.matchUrlHere (String c s)) as [n|] eqn:Hmatch; [| by eapply Hnext].
  apply elem_of_cons in Hin as [-> | Hin]; [| by eapply Hnext].
  apply matchUrlHere_bound in Hmatch as [_ Hn].
  destruct (substring0_split n (String c s) Hn) as (rest & Hs & _).
  exists "", rest. split; [exact Hs | simpl; lia].
Qed.

Lemma detect_fold (document : Vscode.TextDocument) (ms : list (nat * string))
    (acc : list UrlScanner.DetectedUrl) (d : UrlScanner.DetectedUrl) :
  d ∈ fold_left (UrlScanner.detect document) ms acc →
  d ∈ acc ∨
  ∃ m, m ∈ ms ∧ UrlScanner.shouldCheckUrl (UrlScanner.cleanUrl m.2) = true ∧
       d = {| UrlScanner.url := UrlScanner.cleanUrl m.2;
              UrlScanner.range :=
                {| Vscode.range_start := Vscode.positionAt document m.1;
                   Vscode.range_end :=
                     Vscode.positionAt document
                       (m.1 + String.length (UrlScanner.cleanUrl m.2)) |} |}.
Proof.
  revert acc. induction ms as [|m ms IH]; intros acc; simpl; [by left |].
  intros H. apply IH in H as [H | (m' & Hin & Hok & Hd)].
  - unfold UrlScanner.detect in H. cbv zeta in H.
    destruct (UrlScanner.shouldCheckUrl (UrlScanner.cleanUrl m.2)) eqn:Hok; [| by left].
    apply elem_of_app in H as [H | H]; [by left |].
    apply list_elem_of_singleton in H. right. exists m.
    split; [apply list_elem_of_here | by split].
  - right. exists m'. split; [by apply list_elem_of_further | by split].
Qed.

(** X22. Every URL that [scanDocument] reports passes [shouldCheckUrl],
    stands in the text of the document at the offset where its range
    starts, and its range ends where the cleaned URL ends. *)
Theorem scanDocument_sound (document : Vscode.TextDocument) (d : UrlScanner.DetectedUrl) :
  d ∈ UrlScanner.scanDocument document →
  UrlScanner.shouldCheckUrl (UrlScanner.url d) = true ∧
  ∃ before after,
    Vscode.getText document = before +:+ UrlScanner.url d +:+ after ∧
    UrlScanner.range d =
      {| Vscode.range_start := Vscode.positionAt document (String.length before);
         Vscode.range_end :=
           Vscode.positionAt document
             (String.length before + String.length (UrlScanner.url d)) |}.
Proof.
  intros Hin. unfold UrlScanner.scanDocument in Hin.
  apply detect_fold in Hin as [Hin | (m & Hm & Hok & ->)]; [by apply elem_of_nil in Hin |].
  split; [exact Hok |]. simpl.
  apply execAll_sound in Hm as (before & after & Htext & Hidx). simpl in Hidx.
  destruct (cleanUrl_split m.2) as (removed & Hraw & _).
  exists before, (removed +:+ after). split.
  - rewrite Htext. rewrite Hraw at 1. by rewrite !str_app_assoc.
  - by rewrite Hidx.
Qed.

Lemma scanDocument_sound_witness :
  UrlScanner.shouldCheckUrl "https://cdn.example/a.png" = true ∧
  ∃ before after,
    sampleText = before +:+ "https://cdn.example/a.png" +:+ after ∧
    {| Vscode.range_start := {| Vscode.line := 0; Vscode.character := 20 |};
       Vscode.range_end := {| Vscode.line := 0; Vscode.character := 45 |} |} =
      {| Vscode.range_start :=
           Vscode.positionAt (sampleDocument sampleText) (String.length before);
         Vscode.range_end :=
           Vscode.positionAt (sampleDocument sampleText)
             (String.length before + String.length "https://cdn.example/a.png") |}.
Proof.
  apply (scanDocument_sound (sampleDocument sampleText)
           {| UrlScanner.url := "https://cdn.example/a.png";
              UrlScanner.range :=
                {| Vscode.range_start := {| Vscode.line := 0; Vscode.character := 20 |};
                   Vscode.range_end := {| Vscode.line := 0; Vscode.character := 45 |} |} |}).
  vm_compute. apply list_elem_of_here.
Defined.

(** ** Processing a document, end to end *)





Lemma updateDiagnostics_replaces_witness :
  diagnosticsOf (sampleDocument sampleText)
    (DiagnosticsManager.updateDiagnostics
       {| Vscode.uri := "file:///site/other.css"; Vscode.languageId := "css";
          Vscode.getText := ""; Vscode.positionAt := Vscode.positionAt (sampleDocument "") |}
       [] [] DiagnosticsManager.make)
  = diagnosticsOf (sampleDocument sampleText) DiagnosticsManager.make.
Proof.
  apply (updateDiagnostics_replaces
           {| Vscode.uri := "file:///site/other.css"; Vscode.languageId := "css";
              Vscode.getText := "";
              Vscode.positionAt := Vscode.positionAt (sampleDocument "") |}
           (sampleDocument sampleText) [] [] [] [] DiagnosticsManager.make).
  discriminate.
Defined.

(** ** The scheme of detected URLs *)

Lemma span_all (class : ascii → bool) (s m rest : string) :
  JsText.span class s = (m, rest) → JsText.all class m = true.
Proof.
  revert m rest. induction s as [|c s IH]; intros m rest; simpl.
  - by intros [= <- <-].
  - destruct (class c) eqn:Hc.
    + destruct (JsText.span class s) as [m' rest'] eqn:Hs. intros [= <- <-].
      simpl. rewrite Hc. by eapply IH.
    + by intros [= <- <-].
Qed.

Lemma substring0_app (a b : string) : String.substring 0 (String.length a) (a +:+ b) = a.
Proof.
  induction a as [|c a IH].
  - rewrite str_app_nil_l. by destruct b.
  - rewrite str_app_cons. simpl. by rewrite IH.
Qed.

(** A match of the URL pattern is a scheme followed by URL characters. *)
Lemma matchUrlHere_shape (s : string) (n : nat) :
  UrlScanner.matchUrlHere s = Some n →
  ∃ scheme m,
    String.substring 0 n s = scheme +:+ m ∧
    (Js.toLowerCase scheme = "http://" ∨ Js.toLowerCase scheme = "https://").
Proof.
  unfold UrlScanner.matchUrlHere.
  destruct (JsText.stripPrefixCI "http" s) as [r|] eqn:Hh; [| discriminate].
  apply stripPrefixCI_spec in Hh as (m1 & -> & Hm1).
  assert (Hbody : ∀ skipped pre r',
            skipped = String.length pre →
            (Js.toLowerCase pre = "http" ∨ Js.toLowerCase pre = "https") →
            match JsText.stripPrefixCI "://" r' with
            | Some r'' =>
                match JsText.span UrlScanner.urlChar r'' with
                | (EmptyString, _) => None
                | (m, _) => Some (skipped + 3 + String.length m)
                end
            | None => None
            end = Some n →
            ∃ scheme m,
              String.substring 0 n (pre +:+ r') = scheme +:+ m ∧
              (Js.toLowerCase scheme = "http://" ∨ Js.toLowerCase scheme = "https://")).
  { intros skipped pre r' -> Hpre H.
    destruct (JsText.stripPrefixCI "://" r') as [r''|] eqn:Hc; [| discriminate].
    apply stripPrefixCI_spec in Hc as (m3 & -> & Hm3).
    destruct (JsText.span UrlScanner.urlChar r'') as [m rest] eqn:Hs.
    apply span_split in Hs. subst r''.
    destruct m as [|c m]; [discriminate |].
    assert (Hn : n = String.length ((pre +:+ m3) +:+ String c m)).
    { injection H as <-. rewrite !str_app_length, <- (toLowerCase_length m3), Hm3.
      simpl. lia. }
    clear H. subst n.
    exists (pre +:+ m3), (String c m). split.
    - replace (pre +:+ m3 +:+ String c m +:+ rest)
        with (((pre +:+ m3) +:+ String c m) +:+ rest) by (by rewrite !str_app_assoc).
      apply substring0_app.
    - rewrite toLowerCase_app, Hm3. destruct Hpre as [-> | ->]; [by left | by right]. }
  destruct (JsText.stripPrefixCI "s" r) as [r'|] eqn:Hs.
  - apply stripPrefixCI_spec in Hs as (m2 & -> & Hm2).
    match goal with |- context [match ?b with Some _ => _ | None => _ end = _] =>
      destruct b eqn:Hb end.
    + intros [= <-].
      destruct (Hbody 5 (m1 +:+ m2) r') as (scheme & m & Hsub & Hsch).
      * rewrite str_app_length, <- (toLowerCase_length m1), <- (toLowerCase_length m2),
          Hm1, Hm2. reflexivity.
      * right. by rewrite toLowerCase_app, Hm1, Hm2.
      * exact Hb.
      * exists scheme, m. split; [| done]. by rewrite <- str_app_assoc.
    + apply (Hbody 4 m1 (m2 +:+ r')).
      * by rewrite <- (toLowerCase_length m1), Hm1.
      * by left.
  - apply (Hbody 4 m1 r).
    + by rewrite <- (toLowerCase_length m1), Hm1.
    + by left.
Qed.

Lemma execAll_match (s : string) (index skip : nat) (m : nat * string) :
  m ∈ UrlScanner.execAll s index skip →
  ∃ suffix n, UrlScanner.matchUrlHere suffix = Some n ∧ m.2 = String.substring 0 n suffix.
Proof.
  revert index skip. induction s as [|c s IH]; intros index skip Hin; simpl in Hin.
  { by apply elem_of_nil in Hin. }
  destruct skip as [|skip]; [| by eapply IH].
  destruct (UrlScanner.matchUrlHere (String c s)) as [n|] eqn:Hmatch; [| by eapply IH].
  apply elem_of_cons in Hin as [-> | Hin]; [| by eapply IH].
  by exists (String c s), n.
Qed.

Lemma app_split (a b c d : string) :
  a +:+ b = c +:+ d →
  (∃ x, c = a +:+ x) ∨ (∃ x l, a = c +:+ x +:+ String l "" ∧ d = x +:+ String l "" +:+ b).
Proof.
  revert c. induction a as [|h a IH]; intros c H.
  - left. by exists c.
  - destruct c as [|k c].
    + right. rewrite str_app_nil_l in H. subst d.
      assert (Hsnoc : ∃ init l, String h a = init +:+ String l "").
      { clear. revert h. induction a as [|e s IH]; intros h.
        - by exists "", h.
        - destruct (IH e) as (init & l & ->). by exists (String h init), l. }
      destruct Hsnoc as (init & l & Hs). exists init, l. rewrite Hs.
      split; [done |]. by rewrite !str_app_assoc.
    + rewrite !str_app_cons in H. injection H as -> H.
      destruct (IH c H) as [[x ->] | (x & l & -> & ->)].
      * left. by exists x.
      * right. by exists x, l.
Qed.

Lemma lowerChar_slash (c : ascii) : Js.lowerChar c = "/"%char → c = "/"%char.
Proof.
  destruct c as [[] [] [] [] [] [] [] []]; vm_compute; intros H;
    first [reflexivity | discriminate H].
Qed.

(** X24. Every URL that [scanDocument] reports begins with the scheme
    [http://] or [https://], in any mix of upper and lower case: cleaning
    never cuts into the scheme. *)
Theorem detected_urls_are_http (document : Vscode.TextDocument)
    (d : UrlScanner.DetectedUrl) :
  d ∈ UrlScanner.scanDocument document →
  ∃ scheme rest,
    UrlScanner.url d = scheme +:+ rest ∧
    (Js.toLowerCase scheme = "http://" ∨ Js.toLowerCase scheme = "https://").
Proof.
  intros Hin. unfold UrlScanner.scanDocument in Hin.
  apply detect_fold in Hin as [Hin | (m & Hm & _ & ->)]; [by apply elem_of_nil in Hin |].
  simpl. apply execAll_match in Hm as (suffix & n & Hmatch & Hraw).
  apply matchUrlHere_shape in Hmatch as (scheme & body & Hsub & Hscheme).
  rewrite <- Hraw in Hsub.
  destruct (cleanUrl_split m.2) as (removed & Hclean & Hjunk).
  rewrite Hsub in Hclean at 1.
  apply app_split in Hclean as [[x Hx] | (x & l & Hs & Hr)].
  { exists scheme, x. by split. }
  exfalso. rewrite Hr in Hjunk.
  rewrite !all_app in Hjunk. apply andb_true_iff in Hjunk as [_ Hjunk].
  apply andb_true_iff in Hjunk as [Hl _]. simpl in Hl. rewrite andb_true_r in Hl.
  assert (Hlast : Js.lowerChar l = "/"%char).
  { rewrite Hs, <- str_app_assoc, toLowerCase_app in Hscheme. simpl in Hscheme.
    destruct Hscheme as [H | H].
    - change "http://" with ("http:/" +:+ "/") in H. by apply snoc_inj in H as [_ ->].
    - change "https://" with ("https:/" +:+ "/") in H. by apply snoc_inj in H as [_ ->]. }
  apply lowerChar_slash in Hlast. subst l. vm_compute in Hl. discriminate Hl.
Qed.

Lemma detected_urls_are_http_witness :
  ∃ scheme rest,
    "https://cdn.example/a.png" = scheme +:+ rest ∧
    (Js.toLowerCase scheme = "http://" ∨ Js.toLowerCase scheme = "https://").
Proof.
  apply (detected_urls_are_http (sampleDocument sampleText)
           {| UrlScanner.url := "https://cdn.example/a.png";
              UrlScanner.range :=
                {| Vscode.range_start := {| Vscode.line := 0; Vscode.character := 20 |};
                   Vscode.range_end := {| Vscode.line := 0; Vscode.character := 45 |} |} |}).
  vm_compute. apply list_elem_of_here.
Defined.
